(** * care_navigator: the web-navigation agent and the search request validator

    A shallow embedding of

    - [src/services/WebAgentService.ts]: the retry executor
      ([retryOperation]), the action planner ([getNextAction]), the action
      executor ([executeAction]) and the agent loop ([executeSearch]);
    - [src/app/api/search/route.ts]: the request validator
      ([validateRequest]) and the search process started by [POST];
    - [constants/providers]: the provider table [PROVIDER_URLS].

    Asynchronous code is embedded as a state-and-exception monad over a
    state that holds the service's private [actionHistory] and the trace of
    the calls made to the outside world.  The outside world (the remote
    browser session, the language model, the progress sink) answers each
    call through an oracle that sees the trace so far.  Timers
    ([setTimeout]) are trace events that carry their duration. *)

From Stdlib Require Import List String Ascii Bool Arith Lia ZArith.
From Stdlib Require Import Numbers.DecimalString Floats.SpecFloat.
Import ListNotations.

Set Implicit Arguments.
Open Scope string_scope.
Open Scope list_scope.

(** ** Thrown values and results *)

(** A thrown JavaScript [Error]; only its [message] is ever read. *)
Record Error : Type := mkError { message : string }.

(** The outcome of an awaited call: a value, or a thrown error. *)
Inductive Result (T : Type) : Type :=
| Ok (value : T)
| Throw (error : Error).
Arguments Ok {T} value.
Arguments Throw {T} error.

(** Sequencing of calls that may throw, without state. *)
Definition bindResult {A B : Type} (r : Result A) (k : A -> Result B) : Result B :=
  match r with
  | Ok a => k a
  | Throw e => Throw e
  end.

Notation "'let?' x ':=' r 'in' k" := (bindResult r (fun x => k))
  (at level 10, x name, r at level 100, k at level 200).

(** ** Strings *)

Module Js.

(** [String.prototype.toLowerCase] on one character.  The embedding covers
    the ASCII letters; every other character is left as it is.  The two
    markers searched by the agent loop are ASCII, and the non-ASCII
    characters whose lower case is an ASCII letter (KELVIN SIGN and LATIN
    CAPITAL LETTER I WITH DOT ABOVE) produce neither marker. *)
Definition lowerChar (c : ascii) : ascii :=
  let n := nat_of_ascii c in
  if ((65 <=? n) && (n <=? 90))%nat then ascii_of_nat (n + 32) else c.

Fixpoint toLowerCase (s : string) : string :=
  match s with
  | EmptyString => EmptyString
  | String c rest => String (lowerChar c) (toLowerCase rest)
  end.

(** [s.startsWith(pat)]. *)
Fixpoint startsWith (s pat : string) {struct pat} : bool :=
  match pat, s with
  | EmptyString, _ => true
  | String p pat', String c s' => Ascii.eqb p c && startsWith s' pat'
  | String _ _, EmptyString => false
  end.

(** [s.includes(pat)]: [pat] occurs at some position of [s]. *)
Fixpoint includes (s pat : string) : bool :=
  startsWith s pat ||
  match s with
  | EmptyString => false
  | String _ s' => includes s' pat
  end.

(** [separator]-joined concatenation, [Array.prototype.join]. *)
Fixpoint join (separator : string) (items : list string) : string :=
  match items with
  | [] => ""
  | [x] => x
  | x :: rest => x ++ separator ++ join separator rest
  end.

(** Decimal rendering of an array index in a template string. *)
Definition ofNat (n : nat) : string := NilEmpty.string_of_uint (Nat.to_uint n).

(** *** JavaScript values, as produced by [request.json()] *)

#[warnings="-register-all"] Inductive Value : Type :=
| Undefined
| Null
| Boolean (b : bool)
| Number (x : spec_float)
| Str (s : string)
| Array (items : list Value)
| Object (fields : list (string * Value)).

(** [ToBoolean]: [undefined], [null], [false], [+0], [-0], [NaN] and the
    empty string are falsy, everything else is truthy. *)
Definition truthy (v : Value) : bool :=
  match v with
  | Undefined | Null => false
  | Boolean b => b
  | Number (S754_zero _) | Number S754_nan => false
  | Number _ => true
  | Str s => negb (String.eqb s "")
  | Array _ | Object _ => true
  end.

Fixpoint lookup (key : string) (fields : list (string * Value)) : Value :=
  match fields with
  | [] => Undefined
  | (k, v) :: rest => if String.eqb k key then v else lookup key rest
  end.

(** Property read [v.key] for the property names the validator reads
    ([query], [provider], [location], [lat], [lng], [address]): a
    [TypeError] on [null] and [undefined], the own property of an object,
    and [undefined] on primitives and arrays, whose prototypes define none
    of these names. *)
Definition getProp (v : Value) (key : string) : Result Value :=
  match v with
  | Undefined =>
      Throw (mkError ("Cannot read properties of undefined (reading '" ++ key ++ "')"))
  | Null =>
      Throw (mkError ("Cannot read properties of null (reading '" ++ key ++ "')"))
  | Object fields => Ok (lookup key fields)
  | Boolean _ | Number _ | Str _ | Array _ => Ok Undefined
  end.

End Js.

(** ** The provider table ([constants/providers]) *)

Definition PROVIDER_URLS : list (string * string) :=
  [ ("unitedhealthcare", "https://www.uhc.com/find-a-doctor");
    ("aetna", "https://www.aetna.com/dsepublic/#/contentPage?page=providerSearchLanding");
    ("cigna", "https://hcpdirectory.cigna.com/web/public/consumer/directory") ].

(** [Object.keys(PROVIDER_URLS).includes(v)]: [includes] compares with
    SameValueZero, so only a string equal to a key is found. *)
Definition isProviderKey (v : Js.Value) : bool :=
  match v with
  | Js.Str s => existsb (String.eqb s) (map fst PROVIDER_URLS)
  | _ => false
  end.

(** ** The request validator ([route.ts], [validateRequest]) *)

Module Route.

Record Validation : Type := mkValidation {
  isValid : bool;
  error : option string
}.

Definition missingFields : string :=
  "Missing required fields: query, provider, and location are required".
Definition invalidLocation : string :=
  "Invalid location: latitude, longitude, and address are required".
Definition invalidProvider : string :=
  "Invalid insurance provider selected".

(** The reads of each test happen left to right and stop at the first
    falsy one ([||] short-circuits); a read throws only on [null] or
    [undefined]. *)
Definition validateRequest (body : Js.Value) : Result Validation :=
  let missing := Ok (mkValidation false (Some missingFields)) in
  let invalid := Ok (mkValidation false (Some invalidLocation)) in
  let? query := Js.getProp body "query" in
  if negb (Js.truthy query) then missing else
  let? provider := Js.getProp body "provider" in
  if negb (Js.truthy provider) then missing else
  let? location := Js.getProp body "location" in
  if negb (Js.truthy location) then missing else
  let? lat := Js.getProp location "lat" in
  if negb (Js.truthy lat) then invalid else
  let? lng := Js.getProp location "lng" in
  if negb (Js.truthy lng) then invalid else
  let? address := Js.getProp location "address" in
  if negb (Js.truthy address) then invalid else
  if negb (isProviderKey provider)
  then Ok (mkValidation false (Some invalidProvider))
  else Ok (mkValidation true None).

(** A JSON number equal to zero: [0] or [-0]. *)
Definition isZero (v : Js.Value) : Prop := exists sign, v = Js.Number (S754_zero sign).

(** A missing or empty string property. *)
Definition isBlank (v : Js.Value) : Prop := v = Js.Undefined \/ v = Js.Str "".

(** A request from a point on the equator: every field is present, the
    latitude is 0. *)
Definition equatorRequest : list (string * Js.Value) :=
  [ ("query", Js.Str "my knee hurts");
    ("provider", Js.Str "aetna");
    ("location",
     Js.Object [ ("lat", Js.Number (S754_zero false));
                 ("lng", Js.Number (S754_finite false 5 4));
                 ("address", Js.Str "Equator Road 1") ]) ].

(** The same request without its query. *)
Definition equatorRequestWithoutQuery : list (string * Js.Value) :=
  [ ("provider", Js.Str "aetna");
    ("location",
     Js.Object [ ("lat", Js.Number (S754_zero false));
                 ("lng", Js.Number (S754_finite false 5 4));
                 ("address", Js.Str "Equator Road 1") ]) ].

End Route.

(** ** The web agent ([WebAgentService.ts]) *)

(** *** Schemas *)

(** [ActionSchema.tool]: the fixed action vocabulary. *)
Inductive Tool : Type := GOTO | ACT | EXTRACT | OBSERVE | CLOSE | WAIT | NAVBACK.

Definition toolName (t : Tool) : string :=
  match t with
  | GOTO => "GOTO" | ACT => "ACT" | EXTRACT => "EXTRACT" | OBSERVE => "OBSERVE"
  | CLOSE => "CLOSE" | WAIT => "WAIT" | NAVBACK => "NAVBACK"
  end.

(** [ActionSchema]: an object the language-model call returns only after it
    validated against the schema. *)
Record PlannedAction : Type := mkPlannedAction {
  text : string;
  reasoning : string;
  tool : Tool;
  instruction : string
}.

(** [ProviderSchema] and [SearchResultsSchema]. *)
Record Provider : Type := mkProvider {
  name : string;
  specialty : string;
  address : string;
  phone : option string
}.

Record SearchResults : Type := mkSearchResults { providers : list Provider }.

Definition zodError : Error := mkError "ZodError".

Definition parseString (v : Js.Value) : Result string :=
  match v with
  | Js.Str s => Ok s
  | _ => Throw zodError
  end.

Definition parseOptionalString (v : Js.Value) : Result (option string) :=
  match v with
  | Js.Undefined => Ok None
  | Js.Str s => Ok (Some s)
  | _ => Throw zodError
  end.

(** [ProviderSchema.parse]: unknown keys are stripped. *)
Definition parseProvider (v : Js.Value) : Result Provider :=
  match v with
  | Js.Object fields =>
      let? n := parseString (Js.lookup "name" fields) in
      let? s := parseString (Js.lookup "specialty" fields) in
      let? a := parseString (Js.lookup "address" fields) in
      let? p := parseOptionalString (Js.lookup "phone" fields) in
      Ok (mkProvider n s a p)
  | _ => Throw zodError
  end.

Fixpoint parseProviders (items : list Js.Value) : Result (list Provider) :=
  match items with
  | [] => Ok []
  | v :: rest =>
      let? p := parseProvider v in
      let? ps := parseProviders rest in
      Ok (p :: ps)
  end.

(** [SearchResultsSchema.parse]. *)
Definition parseSearchResults (v : Js.Value) : Result SearchResults :=
  match v with
  | Js.Object fields =>
      match Js.lookup "providers" fields with
      | Js.Array items =>
          let? ps := parseProviders items in Ok (mkSearchResults ps)
      | _ => Throw zodError
      end
  | _ => Throw zodError
  end.

(** *** The outside world *)

(** How [page.act] stands when the timeout timer of the race fires: it has
    resolved, it has rejected, or it is still pending. *)
Inductive ActOutcome : Type :=
| ActResolved
| ActRejected (e : Error)
| ActPending.

(** The messages the route writes to the response stream. *)
Inductive Message : Type :=
| MsgStarting
| MsgAction (action : string)
| MsgComplete (results : SearchResults)
| MsgFailed.

(** One entry of the trace: a call to the outside world with its outcome, a
    timer with its duration in milliseconds, or an append to the action
    history.  Console output influences nothing and is left out. *)
Inductive Event : Type :=
| EvStagehandInit (r : Result unit)
| EvGoto (url : string) (r : Result unit)
| EvObserve (r : Result string)
| EvGenerateObject (prompt : string) (r : Result PlannedAction)
| EvHistoryPush (action : string)
| EvOnAction (action : string) (r : Result unit)
| EvAct (action : string) (o : ActOutcome)
| EvTimeout (ms : Z)
| EvDelay (ms : Z)
| EvScreenshot (r : Result unit)
| EvExtract (r : Result Js.Value)
| EvClose (r : Result unit)
| EvWrite (m : Message) (r : Result unit)
| EvWriterClose (r : Result unit).

Definition Trace : Type := list Event.

(** The remote browser session and the language model, as oracles over the
    trace so far.  [pageObserve] answers with the serialised page state
    ([JSON.stringify(pageState)]). *)
Record World : Type := mkWorld {
  stagehandInit : Trace -> Result unit;
  stagehandClose : Trace -> Result unit;
  pageGoto : Trace -> string -> Result unit;
  pageObserve : Trace -> Result string;
  pageAct : Trace -> string -> ActOutcome;
  pageScreenshot : Trace -> Result unit;
  pageExtract : Trace -> Result Js.Value;
  generateObject : Trace -> string -> Result PlannedAction
}.

Record Location : Type := mkLocation {
  lat : spec_float;
  lng : spec_float;
  locationAddress : string
}.

(** [WebAgentConfig]; the optional progress sink [onAction] is an oracle as
    well. *)
Record WebAgentConfig : Type := mkConfig {
  provider : string;
  specialists : list string;
  location : Location;
  onAction : option (Trace -> string -> Result unit)
}.

(** *** State and the monad of awaited calls *)

Record State : Type := mkState {
  trace : Trace;
  actionHistory : list string
}.

Definition M (T : Type) : Type := State -> Result T * State.

Definition ret {T : Type} (v : T) : M T := fun st => (Ok v, st).

Definition throw {T : Type} (e : Error) : M T := fun st => (Throw e, st).

Definition bind {A B : Type} (m : M A) (k : A -> M B) : M B :=
  fun st =>
    match m st with
    | (Ok a, st') => k a st'
    | (Throw e, st') => (Throw e, st')
    end.

Notation "x <- m ;; k" := (bind m (fun x => k))
  (at level 61, m at next level, right associativity).
Notation "m ;;; k" := (bind m (fun _ => k))
  (at level 61, right associativity).

Definition log (e : Event) (st : State) : State :=
  mkState (trace st ++ [e]) (actionHistory st).

(** A call to the outside world: ask the oracle, record call and outcome. *)
Definition call {T : Type} (oracle : Trace -> Result T)
    (event : Result T -> Event) : M T :=
  fun st => let r := oracle (trace st) in (r, log (event r) st).

(** [await new Promise(resolve => setTimeout(resolve, ms))]. *)
Definition delay (ms : Z) : M unit := fun st => (Ok tt, log (EvDelay ms) st).

(** [this.actionHistory.push(action)]. *)
Definition pushHistory (action : string) : M unit :=
  fun st =>
    (Ok tt, mkState (trace st ++ [EvHistoryPush action])
                    (actionHistory st ++ [action])).

(** *** The prompt *)

Definition promptGoal : string :=
  "You are a care navigation assistant. Your goal is to find healthcare providers based on the following criteria:
      Specialist Types (in order of preference): ".
Definition promptLocation : string :=
  "
      Location: ".
Definition promptRules : string :=
  "

      At a high level, You are navigating health insurance provider directories to find 3 in-network providers for the specialist types and location provided.
      The insurance directory website may be difficult to navigate, so you may need to take multiple actions to find the providers.
      You do not have access to any login or account, so utilize the guest user access wherever you can.

      Based on the current state of the page, determine the next Stagehand action to take. This can take one of the following forms:
      - ACT: allows Stagehand to interact with a web page. Perform a single interaction with the page (click, type, select)
      - OBSERVE: used to get a list of actions that can be taken on the current page. It's useful for adding context to your planning step, or if you unsure of what page you're on.
      - GOTO: allows Stagehand to navigate to a specific URL.
      - CLOSE: End the session when the goal is complete
      - WAIT: Wait for a specified amount of time
      - NAVBACK: Navigate back to the previous page
      - EXTRACT: indicates that the results should be extracted from the page. Grabs structured text from the current page using zod.

      Important guidelines:
      1. Break down complex actions into individual atomic steps
      2. For ACT commands, use only one action at a time, such as:
        - Single click on a specific element
        - Type into a single input field
        - Select a single option
      3. Avoid combining multiple actions in one instruction
      4. If multiple actions are needed, they should be separate steps

      You must respond with:
      1. A reasoning explaining your thought process
      2. The tool you want to use (from the list above)
      3. A specific instruction for that tool

      Previous actions taken:
      ".
Definition promptState : string :=
  "
      
      Current page state:
      ".

(** [this.actionHistory.map((action, index) => `${index + 1}. ${action}`)]. *)
Fixpoint numbered (index : nat) (history : list string) : list string :=
  match history with
  | [] => []
  | action :: rest =>
      (Js.ofNat (index + 1) ++ ". " ++ action)%string :: numbered (S index) rest
  end.

Definition systemPrompt (config : WebAgentConfig) (history : list string)
    (currentState : string) : string :=
  promptGoal ++ Js.join ", " (specialists config)
  ++ promptLocation ++ locationAddress (location config)
  ++ promptRules ++ Js.join (String "010" "") (numbered 0 history)
  ++ promptState ++ currentState.

Arguments systemPrompt : simpl never.

(** *** The service *)

Definition maxRetries : nat := 3.
Definition actionTimeout : Z := 10000.
Definition maxConsecutiveErrors : nat := 3.

(** [`${errorMessage}: ${lastError?.message}`]. *)
Definition compositeMessage (errorMessage : string) (lastError : option Error)
    : string :=
  errorMessage ++ ": " ++
  match lastError with
  | Some e => message e
  | None => "undefined"
  end.

(** The [for] loop of [retryOperation] from index [i], with [remaining]
    iterations left before [i] reaches the maximum. *)
Fixpoint retryFrom {T : Type} (operation : M T) (errorMessage : string)
    (remaining i : nat) (lastError : option Error) : M T :=
  match remaining with
  | O => throw (mkError (compositeMessage errorMessage lastError))
  | S remaining' =>
      fun st =>
        match operation st with
        | (Ok v, st') => (Ok v, st')
        | (Throw e, st') =>
            (delay (1000 * (Z.of_nat i + 1)) ;;;
             retryFrom operation errorMessage remaining' (S i) (Some e)) st'
        end
  end.

Definition retryOperation {T : Type} (operation : M T) (errorMessage : string)
    : M T :=
  retryFrom operation errorMessage maxRetries 0 None.

Section Service.

Variable world : World.
Variable config : WebAgentConfig.

(** [async init()]. *)
Definition init : M unit :=
  fun st =>
    match call (stagehandInit world) EvStagehandInit st with
    | (Ok _, st') => (Ok tt, st')
    | (Throw _, st') => (Throw (mkError "Failed to initialize web agent"), st')
    end.

(** [async close()]. *)
Definition close : M unit := call (stagehandClose world) EvClose.

(** [await this.config.onAction?.(action)]. *)
Definition notify (action : string) : M unit :=
  match onAction config with
  | Some sink => call (fun t => sink t action) (EvOnAction action)
  | None => ret tt
  end.

(** [`${result.object.tool}: ${result.object.instruction}`]. *)
Definition formatAction (p : PlannedAction) : string :=
  toolName (tool p) ++ ": " ++ instruction p.

(** The operation [getNextAction] hands to the retry executor. *)
Definition planOnce (currentState : string) : M string :=
  fun st =>
    let prompt := systemPrompt config (actionHistory st) currentState in
    (result <- call (fun t => generateObject world t prompt)
                    (EvGenerateObject prompt) ;;
     let action := formatAction result in
     pushHistory action ;;;
     notify action ;;;
     ret action) st.

Definition getNextAction (currentState : string) : M string :=
  retryOperation (planOnce currentState) "Failed to get next action from LLM".

(** [Promise.race([page.act({ action }), timeout])]. *)
Definition raceAct (action : string) : M unit :=
  fun st =>
    let o := pageAct world (trace st) action in
    let st' := log (EvAct action o) st in
    match o with
    | ActResolved => (Ok tt, st')
    | ActRejected e => (Throw e, st')
    | ActPending =>
        (Throw (mkError "Action timeout"), log (EvTimeout actionTimeout) st')
    end.

Definition executeAction (action : string) : M unit :=
  retryOperation (raceAct action) ("Failed to execute action: " ++ action).

(** The test that ends the loop. *)
Definition isCompletion (nextAction : string) : bool :=
  Js.includes (Js.toLowerCase nextAction) "complete"
  || Js.includes (Js.toLowerCase nextAction) "finished".

(** How the [try] block of one loop iteration ends when it does not throw. *)
Inductive BodyExit : Type := BodyBreak | BodyDone.

(** [JSON.stringify(await page.observe({ instruction }))], with the fixed
    instruction of the loop. *)
Definition observe : M string := call (pageObserve world) EvObserve.

(** The [try] block of the loop body. *)
Definition loopBody : M BodyExit :=
  pageState <- observe ;;
  nextAction <- getNextAction pageState ;;
  if isCompletion nextAction then ret BodyBreak
  else
    executeAction nextAction ;;;
    (* consecutiveErrors = 0 *)
    delay 1000 ;;;
    ret BodyDone.

Definition screenshot : M unit := call (pageScreenshot world) EvScreenshot.

(** How one iteration of [while (true)] ends: back to the loop head with
    the new value of [consecutiveErrors], out of the loop by [break], or out
    of it by an error thrown from the [catch] block. *)
Inductive IterExit : Type :=
| IterContinue (consecutiveErrors : nat)
| IterBreak
| IterThrow (e : Error).

Definition tooManyErrors : Error := mkError "Too many consecutive errors".

Definition iteration (consecutiveErrors : nat) (st : State)
    : IterExit * State :=
  match loopBody st with
  | (Ok BodyDone, st') => (IterContinue 0, st')
  | (Ok BodyBreak, st') => (IterBreak, st')
  | (Throw _, st') =>
      let consecutiveErrors' := S consecutiveErrors in
      if (maxConsecutiveErrors <=? consecutiveErrors')%nat
      then (IterThrow tooManyErrors, st')
      else
        match screenshot st' with
        | (Ok _, st'') => (IterContinue consecutiveErrors', st'')
        | (Throw e, st'') => (IterThrow e, st'')
        end
  end.

(** How the loop ends. *)
Inductive LoopExit : Type :=
| LoopBreak
| LoopThrow (e : Error).

(** [while (true)], for at most [fuel] iterations; [None] when the loop is
    still running after them. *)
Fixpoint searchLoop (fuel : nat) (consecutiveErrors : nat) (st : State)
    : option (LoopExit * State) :=
  match fuel with
  | O => None
  | S fuel' =>
      match iteration consecutiveErrors st with
      | (IterContinue n, st') => searchLoop fuel' n st'
      | (IterBreak, st') => Some (LoopBreak, st')
      | (IterThrow e, st') => Some (LoopThrow e, st')
      end
  end.

(** The result extractor: [page.extract] and [SearchResultsSchema.parse]. *)
Definition extractResults : M SearchResults :=
  results <- call (pageExtract world) EvExtract ;;
  fun st => (parseSearchResults results, st).

(** The loop and what follows it inside the outer [try]. *)
Definition loopThenExtract (fuel : nat) (consecutiveErrors : nat) (st : State)
    : option (Result SearchResults * State) :=
  match searchLoop fuel consecutiveErrors st with
  | None => None
  | Some (LoopBreak, st') => Some (extractResults st')
  | Some (LoopThrow e, st') => Some (Throw e, st')
  end.

(** The outer [try] block of [executeSearch]. *)
Definition searchBody (fuel : nat) (st : State)
    : option (Result SearchResults * State) :=
  match call (fun t => pageGoto world t (provider config))
             (EvGoto (provider config)) st with
  | (Throw e, st') => Some (Throw e, st')
  | (Ok _, st') => loopThenExtract fuel 0 st'
  end.

(** The [catch] and [finally] blocks of [executeSearch]: [catch] rethrows
    what it caught, [finally] awaits [close], whose own error, if any,
    replaces the outcome of the [try] block. *)
Definition closing (run : option (Result SearchResults * State))
    : option (Result SearchResults * State) :=
  match run with
  | None => None
  | Some (outcome, st') =>
      match close st' with
      | (Ok _, st'') => Some (outcome, st'')
      | (Throw e, st'') => Some (Throw e, st'')
      end
  end.

(** [async executeSearch()]. *)
Definition executeSearch (fuel : nat) (st : State)
    : option (Result SearchResults * State) :=
  closing (searchBody fuel st).

End Service.

(** ** The search process ([route.ts], the task started by [POST]) *)

Record Writer : Type := mkWriter {
  writerWrite : Trace -> Message -> Result unit;
  writerClose : Trace -> Result unit
}.

Section SearchProcess.

Variable world : World.
Variable writer : Writer.
Variable providerUrl : string.
Variable specialistTypes : list string.
Variable bodyLocation : Location.

Definition write (m : Message) : M unit :=
  call (fun t => writerWrite writer t m) (EvWrite m).

(** The configuration [POST] builds: the sink writes the action to the
    response stream. *)
Definition routeConfig : WebAgentConfig :=
  mkConfig providerUrl specialistTypes bodyLocation
           (Some (fun t action => writerWrite writer t (MsgAction action))).

(** [new WebAgentService(...)]: a fresh, empty action history. *)
Definition newWebAgent (st : State) : State := mkState (trace st) [].

(** The [try] block of the search process. *)
Definition searchProcessBody (fuel : nat) (st : State)
    : option (Result unit * State) :=
  match write MsgStarting st with
  | (Throw e, st1) => Some (Throw e, st1)
  | (Ok _, st1) =>
      match init world (newWebAgent st1) with
      | (Throw e, st2) => Some (Throw e, st2)
      | (Ok _, st2) =>
          match executeSearch world routeConfig fuel st2 with
          | None => None
          | Some (Throw e, st3) => Some (Throw e, st3)
          | Some (Ok searchResults, st3) =>
              Some (write (MsgComplete searchResults) st3)
          end
      end
  end.

(** The whole task: [catch] writes the failure message, [finally] closes
    the writer. *)
Definition searchProcess (fuel : nat) (st : State)
    : option (Result unit * State) :=
  match searchProcessBody fuel st with
  | None => None
  | Some (outcome, st1) =>
      let (handled, st2) :=
        match outcome with
        | Ok _ => (Ok tt, st1)
        | Throw _ => write MsgFailed st1
        end in
      match call (writerClose writer) EvWriterClose st2 with
      | (Ok _, st3) => Some (handled, st3)
      | (Throw e, st3) => Some (Throw e, st3)
      end
  end.

End SearchProcess.

Definition initialState : State := mkState [] [].


(** * The vocabulary of the properties *)

(** ** How the state evolves *)

(** The entries a stretch of trace appended to the action history. *)
Fixpoint pushed (d : Trace) : list string :=
  match d with
  | [] => []
  | EvHistoryPush action :: d' => action :: pushed d'
  | _ :: d' => pushed d'
  end.

(** The state after the events [d] happened. *)
Definition grow (st : State) (d : Trace) : State :=
  mkState (trace st ++ d) (actionHistory st ++ pushed d).

(** [emits m P]: every run of [m] only appends to the trace and to the
    history, and outcome and appended events satisfy [P]. *)
Definition emits {T : Type} (m : M T) (P : Result T -> Trace -> Prop) : Prop :=
  forall st r st', m st = (r, st') -> exists d, st' = grow st d /\ P r d.

(** What [retryFrom] appends and answers, in terms of what one attempt
    does: the first success ends it, each failure is followed by its
    backoff delay, and when no iteration is left it throws the composite
    error. *)
Fixpoint Retried {T : Type} (P : Result T -> Trace -> Prop)
    (errorMessage : string) (remaining i : nat) (lastError : option Error)
    (r : Result T) (d : Trace) : Prop :=
  match remaining with
  | O => r = Throw (mkError (compositeMessage errorMessage lastError)) /\ d = []
  | S remaining' =>
      (exists v, r = Ok v /\ P (Ok v) d)
      \/ (exists e d1 d2,
             P (Throw e) d1
             /\ d = d1 ++ EvDelay (1000 * (Z.of_nat i + 1)) :: d2
             /\ Retried P errorMessage remaining' (S i) (Some e) r d2)
  end.

(** ** Reading a trace *)

Definition isClose (e : Event) : bool :=
  match e with EvClose _ => true | _ => false end.

Definition isExtract (e : Event) : bool :=
  match e with EvExtract _ => true | _ => false end.

(** An answer of the language model: a [generateObject] call that completed
    with an object valid against [ActionSchema]. *)
Definition isResponse (e : Event) : bool :=
  match e with EvGenerateObject _ (Ok _) => true | _ => false end.

Definition isObserve (e : Event) : bool :=
  match e with EvObserve _ => true | _ => false end.

Definition count (p : Event -> bool) (d : Trace) : nat := List.length (filter p d).

(** The payloads of the [page.act] calls of a stretch of trace. *)
Fixpoint acted (d : Trace) : list string :=
  match d with
  | [] => []
  | EvAct action _ :: d' => action :: acted d'
  | _ :: d' => acted d'
  end.

(** The shape of a history entry. *)
Definition WellFormed (entry : string) : Prop :=
  exists (t : Tool) (instr : string),
    entry = (toolName t ++ ": " ++ instr)%string.

(** Every [page.act] call comes after the append of its payload to the
    history. *)
Definition PlannedFirst (d : Trace) : Prop :=
  forall pre action o post,
    d = pre ++ EvAct action o :: post -> In (EvHistoryPush action) pre.

(** What holds of every stretch of trace the loop produces: the session is
    neither closed nor extracted from, every answer of the language model
    appended one entry to the history, and the entries are well formed. *)
Record Tidy (d : Trace) : Prop := mkTidy {
  tidy_close : count isClose d = 0;
  tidy_extract : count isExtract d = 0;
  tidy_booked : count isResponse d = List.length (pushed d);
  tidy_shape : Forall WellFormed (pushed d)
}.

(** What one planning attempt appends and answers. *)
Inductive Planned (config : WebAgentConfig)
    : Result string -> Trace -> Prop :=
| PlannedModelFailed prompt e :
    Planned config (Throw e) [EvGenerateObject prompt (Throw e)]
| PlannedSinkFailed prompt p e sink t :
    onAction config = Some sink ->
    sink t (formatAction p) = Throw e ->
    Planned config (Throw e)
            [EvGenerateObject prompt (Ok p); EvHistoryPush (formatAction p);
             EvOnAction (formatAction p) (Throw e)]
| PlannedNotified prompt p :
    Planned config (Ok (formatAction p))
            [EvGenerateObject prompt (Ok p); EvHistoryPush (formatAction p);
             EvOnAction (formatAction p) (Ok tt)]
| PlannedSilently prompt p :
    onAction config = None ->
    Planned config (Ok (formatAction p))
            [EvGenerateObject prompt (Ok p); EvHistoryPush (formatAction p)].

(** What one race between [page.act] and the timeout appends and answers. *)
Inductive Raced (action : string) : Result unit -> Trace -> Prop :=
| RacedResolved : Raced action (Ok tt) [EvAct action ActResolved]
| RacedRejected e : Raced action (Throw e) [EvAct action (ActRejected e)]
| RacedTimeout :
    Raced action (Throw (mkError "Action timeout"))
          [EvAct action ActPending; EvTimeout actionTimeout].

(** What a stretch of trace of the loop satisfies. *)
Definition Looped (d : Trace) : Prop := Tidy d /\ PlannedFirst d.

(** [Reaches n st n' st']: the loop, at its head with counter [n] in state
    [st], comes back to its head with counter [n'] in state [st'] after
    some iterations. *)
Inductive Reaches (world : World) (config : WebAgentConfig)
    : nat -> State -> nat -> State -> Prop :=
| ReachesHere n st : Reaches world config n st n st
| ReachesNext n st n1 st1 n2 st2 :
    iteration world config n st = (IterContinue n1, st1) ->
    Reaches world config n1 st1 n2 st2 ->
    Reaches world config n st n2 st2.

(** What [executeSearch] answers when its [try] block threw [e] and the
    teardown answered [c]. *)
Definition rethrown (e : Error) (c : Result unit) : Error :=
  match c with
  | Ok _ => e
  | Throw e' => e'
  end.

(** The final state of a run, or the initial state when the run has not
    ended. *)
Definition finalStateOf {T : Type} (run : option (Result T * State)) : State :=
  match run with
  | Some (_, st') => st'
  | None => initialState
  end.

(** [marker] occurs in [s] when the case of letters is ignored: some
    stretch of [s] equals [marker] up to the case of its letters. *)
Definition containsIgnoringCase (marker s : string) : Prop :=
  exists pre mid post,
    s = (pre ++ mid ++ post)%string
    /\ Js.toLowerCase mid = Js.toLowerCase marker.

(** The events the executor of [action] may append: calls of [page.act]
    with [action] as payload, timeout timers and backoff delays. *)
Definition isExecutorEvent (action : string) (e : Event) : bool :=
  match e with
  | EvAct payload _ => String.eqb payload action
  | EvTimeout _ | EvDelay _ => true
  | _ => false
  end.

(** The sink cannot fail: there is none, or it always answers. *)
Definition SinkReliable (config : WebAgentConfig) : Prop :=
  onAction config = None
  \/ exists sink,
       onAction config = Some sink /\ forall t action, sink t action = Ok tt.

(** ** Scripted worlds *)

Module Scenario.

Definition plan (t : Tool) (instr : string) : PlannedAction :=
  mkPlannedAction "" "" t instr.

(** A planner that clicks, types, and then declares the session complete;
    it is scripted by the number of answers it already gave. *)
Definition threeStepPlanner (t : Trace) (prompt : string)
    : Result PlannedAction :=
  match count isResponse t with
  | 0 => Ok (plan ACT "click the guest access link")
  | 1 => Ok (plan ACT "type the specialty")
  | _ => Ok (plan CLOSE "session complete")
  end.

Definition oneProvider : Js.Value :=
  Js.Object
    [ ("providers",
       Js.Array
         [ Js.Object [ ("name", Js.Str "Dr. Ada");
                       ("specialty", Js.Str "Cardiologist");
                       ("address", Js.Str "1 Main Street") ] ]) ].

(** A provider without a name. *)
Definition namelessProvider : Js.Value :=
  Js.Object
    [ ("providers",
       Js.Array
         [ Js.Object [ ("specialty", Js.Str "Cardiologist");
                       ("address", Js.Str "1 Main Street") ] ]) ].

(** Everything answers, and the planner is done after two actions. *)
Definition calm : World :=
  mkWorld (fun _ => Ok tt) (fun _ => Ok tt) (fun _ _ => Ok tt)
          (fun _ => Ok "page") (fun _ _ => ActResolved) (fun _ => Ok tt)
          (fun _ => Ok oneProvider) threeStepPlanner.

Definition down : Error := mkError "connection lost".

(** The page cannot be observed. *)
Definition blind : World :=
  mkWorld (fun _ => Ok tt) (fun _ => Ok tt) (fun _ _ => Ok tt)
          (fun _ => Throw down) (fun _ _ => ActResolved) (fun _ => Ok tt)
          (fun _ => Ok oneProvider) threeStepPlanner.

(** The page can be neither observed nor captured. *)
Definition blindNoCapture : World :=
  mkWorld (fun _ => Ok tt) (fun _ => Ok tt) (fun _ _ => Ok tt)
          (fun _ => Throw down) (fun _ _ => ActResolved)
          (fun _ => Throw (mkError "capture failed"))
          (fun _ => Ok oneProvider) threeStepPlanner.

(** The extracted data does not conform to the schema. *)
Definition nameless : World :=
  mkWorld (fun _ => Ok tt) (fun _ => Ok tt) (fun _ _ => Ok tt)
          (fun _ => Ok "page") (fun _ _ => ActResolved) (fun _ => Ok tt)
          (fun _ => Ok namelessProvider) threeStepPlanner.

(** The provider's site cannot be reached. *)
Definition unreachable : World :=
  mkWorld (fun _ => Ok tt) (fun _ => Ok tt) (fun _ _ => Throw down)
          (fun _ => Ok "page") (fun _ _ => ActResolved) (fun _ => Ok tt)
          (fun _ => Ok oneProvider) threeStepPlanner.

(** The remote browser session cannot be initialised. *)
Definition noSession : World :=
  mkWorld (fun _ => Throw down) (fun _ => Ok tt) (fun _ _ => Ok tt)
          (fun _ => Ok "page") (fun _ _ => ActResolved) (fun _ => Ok tt)
          (fun _ => Ok oneProvider) threeStepPlanner.

(** [page.act] never settles. *)
Definition stuck : World :=
  mkWorld (fun _ => Ok tt) (fun _ => Ok tt) (fun _ _ => Ok tt)
          (fun _ => Ok "page") (fun _ _ => ActPending) (fun _ => Ok tt)
          (fun _ => Ok oneProvider) threeStepPlanner.

Definition here : Location :=
  mkLocation (S754_finite false 3 2) (S754_finite false 5 4) "1 Main Street".

Definition url : string := "https://www.uhc.com/find-a-doctor".

(** No progress sink. *)
Definition silent : WebAgentConfig := mkConfig url ["Cardiologist"] here None.

(** A progress sink that always fails. *)
Definition deaf : WebAgentConfig :=
  mkConfig url ["Cardiologist"] here (Some (fun _ _ => Throw down)).

Definition isNotification (e : Event) : bool :=
  match e with EvOnAction _ _ => true | _ => false end.

(** A progress sink that fails on its first call only. *)
Definition hiccup : WebAgentConfig :=
  mkConfig url ["Cardiologist"] here
           (Some (fun t _ => match count isNotification t with
                             | 0 => Throw down
                             | _ => Ok tt
                             end)).

Definition steadyWriter : Writer := mkWriter (fun _ _ => Ok tt) (fun _ => Ok tt).

Definition ada : SearchResults :=
  mkSearchResults [mkProvider "Dr. Ada" "Cardiologist" "1 Main Street" None].

(** The events of a trace without the prompts, for reading. *)
Fixpoint brief (d : Trace) : Trace :=
  match d with
  | [] => []
  | EvGenerateObject _ r :: d' => EvGenerateObject "" r :: brief d'
  | e :: d' => e :: brief d'
  end.

(** An operation that throws without touching the state. *)
Definition alwaysBoom : M unit := throw (mkError "boom").

(** A planner that is done at once. *)
Definition doneWorld : World :=
  mkWorld (fun _ => Ok tt) (fun _ => Ok tt) (fun _ _ => Ok tt)
          (fun _ => Ok "page") (fun _ _ => ActResolved) (fun _ => Ok tt)
          (fun _ => Ok oneProvider)
          (fun _ _ => Ok (plan CLOSE "Search Complete")).

(** A first attempt that times out and a second one that succeeds: the
    planner is not asked again. *)
Definition slowStart : World :=
  mkWorld (fun _ => Ok tt) (fun _ => Ok tt) (fun _ _ => Ok tt)
          (fun _ => Ok "page")
          (fun t _ => match acted t with
                      | [] => ActPending
                      | _ => ActResolved
                      end)
          (fun _ => Ok tt) (fun _ => Ok oneProvider) threeStepPlanner.

(** A first attempt that [page.act] rejects and a second one that
    succeeds. *)
Definition flaky : World :=
  mkWorld (fun _ => Ok tt) (fun _ => Ok tt) (fun _ _ => Ok tt)
          (fun _ => Ok "page")
          (fun t _ => match acted t with
                      | [] => ActRejected (mkError "element not found")
                      | _ => ActResolved
                      end)
          (fun _ => Ok tt) (fun _ => Ok oneProvider) threeStepPlanner.

(** [page.act] rejects every call. *)
Definition broken : World :=
  mkWorld (fun _ => Ok tt) (fun _ => Ok tt) (fun _ _ => Ok tt)
          (fun _ => Ok "page")
          (fun _ _ => ActRejected (mkError "element not found"))
          (fun _ => Ok tt) (fun _ => Ok oneProvider) threeStepPlanner.

End Scenario.

(** * The rest of the code *)

(** ** The request handler ([route.ts], [processQuery] and [POST]) *)

Module Post.
Import Route.

(** [PROVIDER_URLS[key]]. *)
Fixpoint urlIn (table : list (string * string)) (key : string)
    : option string :=
  match table with
  | [] => None
  | (k, url) :: rest => if String.eqb k key then Some url else urlIn rest key
  end.

Definition providerUrlOf (key : string) : option string :=
  urlIn PROVIDER_URLS key.

(** [s.split(sep)] for a separator of one character: the pieces between
    the occurrences of the separator; the empty string gives one empty
    piece. *)
Fixpoint splitChar (sep : ascii) (s : string) : list string :=
  match s with
  | EmptyString => [EmptyString]
  | String c rest =>
      if Ascii.eqb c sep then EmptyString :: splitChar sep rest
      else
        match splitChar sep rest with
        | piece :: pieces => String c piece :: pieces
        | [] => [String c EmptyString]
        end
  end.

(** The occurrences of a character in a string. *)
Fixpoint occurrences (sep : ascii) (s : string) : nat :=
  match s with
  | EmptyString => 0
  | String c rest =>
      (if Ascii.eqb c sep then 1 else 0) + occurrences sep rest
  end.

(** What [processQuery] returns. *)
Inductive QueryResult : Type :=
| QueryError (message : string)
| QuerySpecialists (specialists : list string).

Definition notMedical : string :=
  "Please describe your medical symptoms or health concerns so we can help find the right specialist.".

(** [processQuery]; [chat] stands for the chat completion call and the
    read of [response.choices[0].message.content], which is a string or
    [null]. *)
Definition processQuery (chat : Js.Value -> Result (option string))
    (query : Js.Value) : Result QueryResult :=
  let? content := chat query in
  match content with
  | Some text =>
      if String.eqb text "NOT_MEDICAL_QUERY" then Ok (QueryError notMedical)
      else Ok (QuerySpecialists (splitChar "|" text))
  | None => Ok (QuerySpecialists [])
  end.

(** The two environment variables [POST] reads. *)
Record Environment : Type := mkEnvironment {
  BROWSERBASE_API_KEY : option string;
  BROWSERBASE_PROJECT_ID : option string
}.

(** Truthiness of an environment variable: set and not empty. *)
Definition isSet (variable : option string) : bool :=
  match variable with
  | Some value => negb (String.eqb value "")
  | None => false
  end.

(** What [POST] answers: a JSON body [{ error }] with a status, or the
    event stream, in which case the search process was started for the
    given directory, specialist types and location. *)
Inductive Response : Type :=
| JsonError (status : nat) (error : option string)
| EventStream (providerUrl : option string) (specialists : list string)
              (location : Js.Value).

Definition providerUrlOfValue (v : Js.Value) : option string :=
  match v with
  | Js.Str key => providerUrlOf key
  | _ => None
  end.

(** The [try] block of [POST]. *)
Definition handle (requestJson : Result Js.Value)
    (chat : Js.Value -> Result (option string)) (env : Environment)
    : Result Response :=
  let? body := requestJson in
  let? validation := validateRequest body in
  if negb (isValid validation) then Ok (JsonError 400 (error validation)) else
  let? query := Js.getProp body "query" in
  let? result := processQuery chat query in
  match result with
  | QueryError message => Ok (JsonError 400 (Some message))
  | QuerySpecialists [] =>
      Ok (JsonError 400 (Some "Cannot identify specialist types"))
  | QuerySpecialists specialists =>
      if negb (isSet (BROWSERBASE_API_KEY env))
         || negb (isSet (BROWSERBASE_PROJECT_ID env))
      then Ok (JsonError 500 (Some "Search service not properly configured"))
      else
        let? provider := Js.getProp body "provider" in
        let? location := Js.getProp body "location" in
        Ok (EventStream (providerUrlOfValue provider) specialists location)
  end.

(** [POST]: whatever the [try] block throws becomes the 500 answer. *)
Definition POST (requestJson : Result Js.Value)
    (chat : Js.Value -> Result (option string)) (env : Environment)
    : Response :=
  match handle requestJson chat env with
  | Ok response => response
  | Throw _ => JsonError 500 (Some "Failed to process request")
  end.

(** The requests the validator accepts: objects with a truthy query, a
    provider that is a key of the provider table, and a location object
    whose latitude, longitude and address are truthy. *)
Definition Acceptable (body : Js.Value) : Prop :=
  exists fields locFields,
    body = Js.Object fields
    /\ Js.lookup "location" fields = Js.Object locFields
    /\ Js.truthy (Js.lookup "query" fields) = true
    /\ isProviderKey (Js.lookup "provider" fields) = true
    /\ Js.truthy (Js.lookup "lat" locFields) = true
    /\ Js.truthy (Js.lookup "lng" locFields) = true
    /\ Js.truthy (Js.lookup "address" locFields) = true.

(** A request the validator accepts. *)
Definition goodRequest : Js.Value :=
  Js.Object
    [ ("query", Js.Str "my knee hurts");
      ("provider", Js.Str "aetna");
      ("location",
       Js.Object [ ("lat", Js.Number (S754_finite false 3 2));
                   ("lng", Js.Number (S754_finite true 5 4));
                   ("address", Js.Str "1 Main Street") ]) ].

Definition credentials : Environment :=
  mkEnvironment (Some "key") (Some "project").

End Post.

(** ** Reading more of a trace *)

(** The events the loop of [executeSearch] can append. *)
Definition isLoopEvent (e : Event) : bool :=
  match e with
  | EvObserve _ | EvGenerateObject _ _ | EvHistoryPush _ | EvOnAction _ _
  | EvAct _ _ | EvTimeout _ | EvDelay _ | EvScreenshot _ => true
  | _ => false
  end.

Definition isAct (e : Event) : bool :=
  match e with EvAct _ _ => true | _ => false end.

(** A call of the language model, whatever its outcome. *)
Definition isModelCall (e : Event) : bool :=
  match e with EvGenerateObject _ _ => true | _ => false end.

Definition isGoto (e : Event) : bool :=
  match e with EvGoto _ _ => true | _ => false end.

Definition isInit (e : Event) : bool :=
  match e with EvStagehandInit _ => true | _ => false end.

(** A call of the progress sink: with the configuration the route
    builds, a write of the action to the response stream. *)
Definition isSinkCall (e : Event) : bool :=
  match e with EvOnAction _ _ => true | _ => false end.

(** A stretch of loop events in which the sink is called at most once per
    entry appended to the history, and once per entry when the
    configuration has a sink. *)
Definition Sunk (config : WebAgentConfig) (d : Trace) : Prop :=
  forallb isLoopEvent d = true
  /\ count isSinkCall d <= List.length (pushed d)
  /\ (onAction config <> None ->
      count isSinkCall d = List.length (pushed d)).

Definition isWriterClose (e : Event) : bool :=
  match e with EvWriterClose _ => true | _ => false end.

(** The failure message was written, or its write was attempted. *)
Definition isFailureWrite (e : Event) : bool :=
  match e with EvWrite MsgFailed _ => true | _ => false end.

(** The completion message was written. *)
Definition isCompletionWritten (e : Event) : bool :=
  match e with EvWrite (MsgComplete _) (Ok _) => true | _ => false end.

(** The milliseconds of the timers of a stretch of trace: backoff and
    visibility delays, and timeouts that fired. *)
Fixpoint timers (d : Trace) : Z :=
  match d with
  | [] => 0
  | EvDelay ms :: d' => ms + timers d'
  | EvTimeout ms :: d' => ms + timers d'
  | _ :: d' => timers d'
  end.

(** ** What the schemas accept *)

(** A provider the schema accepts: an object whose name, specialty and
    address are strings and whose phone is a string or absent. *)
Definition ValidProvider (v : Js.Value) : Prop :=
  exists fields n s a,
    v = Js.Object fields
    /\ Js.lookup "name" fields = Js.Str n
    /\ Js.lookup "specialty" fields = Js.Str s
    /\ Js.lookup "address" fields = Js.Str a
    /\ (Js.lookup "phone" fields = Js.Undefined
        \/ exists p, Js.lookup "phone" fields = Js.Str p).

(** The JSON value of a parsed provider, as [JSON.stringify] writes it: an
    absent phone leaves no key. *)
Definition encodeProvider (p : Provider) : Js.Value :=
  Js.Object
    ([ ("name", Js.Str (name p));
       ("specialty", Js.Str (specialty p));
       ("address", Js.Str (address p)) ]
     ++ match phone p with
        | Some number => [("phone", Js.Str number)]
        | None => []
        end).

Definition encodeResults (r : SearchResults) : Js.Value :=
  Js.Object [("providers", Js.Array (map encodeProvider (providers r)))].

(** The backoff delays of [remaining] failed attempts, the first of them
    at index [i], added up. *)
Fixpoint backoffSum (remaining i : nat) : Z :=
  match remaining with
  | O => 0
  | S remaining' => 1000 * (Z.of_nat i + 1) + backoffSum remaining' (S i)
  end.

(** The events of an iteration that cannot observe the page. *)
Definition isBlindEvent (e : Event) : bool :=
  match e with
  | EvObserve (Throw _) | EvScreenshot _ => true
  | _ => false
  end.

(** What [executeSearch] answers after the extraction answered [x] and the
    teardown answered [c]. *)
Definition extracted (x : Result Js.Value) (c : Result unit)
    : Result SearchResults :=
  match c with
  | Throw e => Throw e
  | Ok _ =>
      match x with
      | Ok v => parseSearchResults v
      | Throw e => Throw e
      end
  end.

(** ** The socket service ([WebSocketService.ts]) *)

Module Socket.

(** What happens to the sockets: [new WebSocket(url)] opens one, [close]
    closes one.  A socket is named by the number of sockets opened before
    it. *)
Inductive SocketEvent : Type :=
| Opened (id : nat) (url : string)
| Closed (id : nat).

(** The service: the private fields [ws] and [url]. *)
Record Service : Type := mkService {
  ws : option nat;
  url : string
}.

Definition defaultUrl : string := "ws://localhost:3001".

(** [constructor()]: [process.env.NEXT_PUBLIC_WS_URL || 'ws://localhost:3001']. *)
Definition construct (NEXT_PUBLIC_WS_URL : option string) : Service :=
  mkService None
            match NEXT_PUBLIC_WS_URL with
            | Some value => if String.eqb value "" then defaultUrl else value
            | None => defaultUrl
            end.

Definition isOpened (e : SocketEvent) : bool :=
  match e with Opened _ _ => true | Closed _ => false end.

Definition opened (log : list SocketEvent) : nat :=
  List.length (filter isOpened log).

(** [connect()]; [accepts] tells whether the [WebSocket] constructor takes
    the address or throws on it. *)
Definition connect (accepts : string -> bool) (s : Service)
    (log : list SocketEvent) : Result nat * Service * list SocketEvent :=
  if accepts (url s)
  then
    let id := opened log in
    (Ok id, mkService (Some id) (url s), log ++ [Opened id (url s)])
  else (Throw (mkError "SyntaxError"), s, log).

(** [disconnect()]. *)
Definition disconnect (s : Service) (log : list SocketEvent)
    : Service * list SocketEvent :=
  match ws s with
  | Some id => (mkService None (url s), log ++ [Closed id])
  | None => (s, log)
  end.

(** The calls a user of the service can make. *)
Inductive Op : Type := Connect | Disconnect.

Definition step (accepts : string -> bool) (op : Op)
    (state : Service * list SocketEvent) : Service * list SocketEvent :=
  match op with
  | Connect =>
      let '(_, s, log) := connect accepts (fst state) (snd state) in (s, log)
  | Disconnect => disconnect (fst state) (snd state)
  end.

Definition run (accepts : string -> bool) (ops : list Op)
    (state : Service * list SocketEvent) : Service * list SocketEvent :=
  fold_left (fun st op => step accepts op st) ops state.

(** The sockets a log closed. *)
Fixpoint closedIds (log : list SocketEvent) : list nat :=
  match log with
  | [] => []
  | Closed id :: rest => id :: closedIds rest
  | Opened _ _ :: rest => closedIds rest
  end.

(** What a run from a fresh service keeps true: the socket the service
    holds was opened and is not closed, and no socket was closed twice or
    without having been opened. *)
Record Sound (state : Service * list SocketEvent) : Prop := mkSound {
  sound_held :
    forall id, ws (fst state) = Some id ->
               id < opened (snd state) /\ ~ In id (closedIds (snd state));
  sound_closed : NoDup (closedIds (snd state));
  sound_opened :
    forall id, In id (closedIds (snd state)) -> id < opened (snd state)
}.

End Socket.

(** ** The provider finder ([pages/api/find-provider.js]) *)

Module FindProvider.

(** The outbound requests of the handler. *)
Inductive Call : Type :=
| AgentPost (clinicalHelp insuranceInfo : Js.Value)
| ValidatePost (phone : Js.Value).

(** What the handler answers: [res.status(n).end()] or
    [res.status(n).json(body)]. *)
Inductive Reply : Type :=
| Ended (status : nat)
| Json (status : nat) (body : Js.Value).

(** The two services: the [data] of the agent's response to a query, and
    the [data] of the validator's response to the request made for the
    provider at a given index. *)
Record Services : Type := mkServices {
  agent : Js.Value -> Js.Value -> Result Js.Value;
  validator : nat -> Js.Value -> Result Js.Value
}.

Fixpoint indexed (index : nat) (items : list Js.Value)
    : list (string * Js.Value) :=
  match items with
  | [] => []
  | v :: rest => (Js.ofNat index, v) :: indexed (S index) rest
  end.

(** A string is held as the UTF-8 bytes of its text, and JavaScript
    indexes it by UTF-16 code units.  A character of the basic plane, of
    one to three bytes, is one unit.  A character beyond it, of four
    bytes, is two units, a high and a low surrogate; a string made of one
    surrogate is held in the same three-byte form.  Bytes that form no
    character, which the text of a JavaScript string never holds, are
    taken one by one. *)
Definition surrogate (codeUnit : N) : string :=
  String (ascii_of_N (224 + N.shiftr codeUnit 12))
    (String (ascii_of_N (128 + N.land (N.shiftr codeUnit 6) 63))
       (String (ascii_of_N (128 + N.land codeUnit 63)) EmptyString)).

Definition codePoint (b0 b1 b2 b3 : ascii) : N :=
  N.shiftl (N.land (N_of_ascii b0) 7) 18
  + N.shiftl (N.land (N_of_ascii b1) 63) 12
  + N.shiftl (N.land (N_of_ascii b2) 63) 6
  + N.land (N_of_ascii b3) 63.

Definition highSurrogate (point : N) : N :=
  55296 + N.shiftr (point - 65536) 10.

Definition lowSurrogate (point : N) : N :=
  56320 + N.land (point - 65536) 1023.

(** The code units of a string, each as the string of that one unit. *)
Fixpoint codeUnits (s : string) : list string :=
  match s with
  | EmptyString => []
  | String b0 rest =>
      let alone := String b0 EmptyString :: codeUnits rest in
      if (N_of_ascii b0 <? 192)%N then alone
      else if (N_of_ascii b0 <? 224)%N then
        match rest with
        | String b1 rest1 =>
            String b0 (String b1 EmptyString) :: codeUnits rest1
        | _ => alone
        end
      else if (N_of_ascii b0 <? 240)%N then
        match rest with
        | String b1 (String b2 rest2) =>
            String b0 (String b1 (String b2 EmptyString)) :: codeUnits rest2
        | _ => alone
        end
      else
        match rest with
        | String b1 (String b2 (String b3 rest3)) =>
            surrogate (highSurrogate (codePoint b0 b1 b2 b3))
            :: surrogate (lowSurrogate (codePoint b0 b1 b2 b3))
            :: codeUnits rest3
        | _ => alone
        end
  end.

(** The own enumerable properties an object spread [{ ...v }] copies: the
    fields of an object, the items of an array and the code units of a
    string under their indices, nothing for the other values. *)
Definition spread (v : Js.Value) : list (string * Js.Value) :=
  match v with
  | Js.Object fields => fields
  | Js.Array items => indexed 0 items
  | Js.Str s => indexed 0 (map Js.Str (codeUnits s))
  | _ => []
  end.

(** [{ ...fields, key: value }]: the value of an existing key is replaced
    where it stands, a new key comes last. *)
Fixpoint setField (key : string) (value : Js.Value)
    (fields : list (string * Js.Value)) : list (string * Js.Value) :=
  match fields with
  | [] => [(key, value)]
  | (k, v) :: rest =>
      if String.eqb k key then (k, value) :: rest
      else (k, v) :: setField key value rest
  end.

(** The body of the [async] function mapped over the providers, for the
    provider at [index]: the request it makes, if it gets that far, and
    what its promise settles to. *)
Definition validateOne (services : Services) (index : nat)
    (provider : Js.Value) : list Call * Result Js.Value :=
  match Js.getProp provider "phone" with
  | Throw e => ([], Throw e)
  | Ok phone =>
      ([ValidatePost phone],
       let? data := validator services index phone in
       let? valid := Js.getProp data "valid" in
       Ok (Js.Object (setField "phoneValid" valid (spread provider))))
  end.

(** [providers.map(async ...)] and [Promise.all]: every function runs up
    to its request, in order, whatever the other promises settle to; the
    whole settles to the list of the values, or rejects when one promise
    rejects. *)
Fixpoint validateAll (services : Services) (index : nat)
    (providers : list Js.Value) : list Call * Result (list Js.Value) :=
  match providers with
  | [] => ([], Ok [])
  | provider :: rest =>
      let (calls, validated) := validateOne services index provider in
      let (calls', others) := validateAll services (S index) rest in
      (calls ++ calls',
       let? first := validated in
       let? following := others in
       Ok (first :: following))
  end.

Definition internalError : Reply :=
  Json 500 (Js.Object [("error", Js.Str "Internal Server Error")]).

(** The [try] block of the handler, with its [catch]. *)
Definition findProviders (services : Services)
    (clinicalHelp insuranceInfo : Js.Value) : Reply * list Call :=
  let asked := [AgentPost clinicalHelp insuranceInfo] in
  match agent services clinicalHelp insuranceInfo with
  | Throw _ => (internalError, asked)
  | Ok data =>
      match Js.getProp data "providers" with
      | Ok (Js.Array providers) =>
          let (calls, settled) := validateAll services 0 providers in
          match settled with
          | Ok finalProviders =>
              (Json 200 (Js.Object [("providers", Js.Array finalProviders)]),
               asked ++ calls)
          | Throw _ => (internalError, asked ++ calls)
          end
      | _ => (internalError, asked)
      end
  end.

(** [const { key } = req.body]: a [TypeError] on [null] and [undefined],
    the property otherwise. *)
Definition destructure (body : Js.Value) (key : string) : Result Js.Value :=
  match body with
  | Js.Undefined =>
      Throw (mkError ("Cannot destructure property '" ++ key
                      ++ "' of 'req.body' as it is undefined."))
  | Js.Null =>
      Throw (mkError ("Cannot destructure property '" ++ key
                      ++ "' of 'req.body' as it is null."))
  | _ => Js.getProp body key
  end.

(** [handler(req, res)]: the reply and the requests made.  The
    destructuring of [req.body] is outside the [try] block. *)
Definition handler (services : Services) (method : string)
    (body : Js.Value) : Result (Reply * list Call) :=
  if negb (String.eqb method "POST") then Ok (Ended 405, [])
  else
    let? clinicalHelp := destructure body "clinicalHelp" in
    let? insuranceInfo := destructure body "insuranceInfo" in
    Ok (findProviders services clinicalHelp insuranceInfo).

Definition isValidatePost (call : Call) : bool :=
  match call with
  | ValidatePost _ => true
  | AgentPost _ _ => false
  end.

(** The phones the providers are validated with; a [null] provider has
    none. *)
Fixpoint phones (providers : list Js.Value) : list Js.Value :=
  match providers with
  | [] => []
  | provider :: rest =>
      match Js.getProp provider "phone" with
      | Ok phone => phone :: phones rest
      | Throw _ => phones rest
      end
  end.

(** An agent that finds two providers, and a validator that fails on the
    first of them. *)
Definition twoProviders : Js.Value :=
  Js.Object
    [ ("providers",
       Js.Array [ Js.Object [("name", Js.Str "Dr. Ada");
                             ("phone", Js.Str "555-0100")];
                  Js.Object [("name", Js.Str "Dr. Bob");
                             ("phone", Js.Str "555-0101")] ]) ].

Definition picky : Services :=
  mkServices (fun _ _ => Ok twoProviders)
             (fun index _ =>
                match index with
                | 0 => Throw (mkError "Request failed")
                | _ => Ok (Js.Object [("valid", Js.Boolean true)])
                end).

Definition lenient : Services :=
  mkServices (fun _ _ => Ok twoProviders)
             (fun _ _ => Ok (Js.Object [("valid", Js.Boolean true)])).

End FindProvider.

(** ** The search page ([app/page.tsx]) *)

Module Client.
Import Route.

(** The [Location] state of the page. *)
Record Location : Type := mkLocation {
  lat : spec_float;
  lng : spec_float;
  address : option string
}.

(** [handleAddressInput]: typing keeps the coordinates of the location
    there is, and starts from the coordinates (0, 0) when there is none. *)
Definition handleAddressInput (value : string) (prev : option Location)
    : option Location :=
  match prev with
  | Some location =>
      Some (mkLocation (lat location) (lng location) (Some value))
  | None => Some (mkLocation (S754_zero false) (S754_zero false) (Some value))
  end.

(** The location after the given inputs were typed into the address field
    of a page that had no location. *)
Definition typed (values : list string) : option Location :=
  fold_left (fun location value => handleAddressInput value location)
            values None.

(** A number after [JSON.stringify] and [request.json()]: [NaN] and the
    infinities become [null], [-0] becomes [0]. *)
Definition jsonNumber (x : spec_float) : Js.Value :=
  match x with
  | S754_zero _ => Js.Number (S754_zero false)
  | S754_finite _ _ _ => Js.Number x
  | S754_infinity _ | S754_nan => Js.Null
  end.

(** The body [handleSearch] posts, as the route parses it: an [undefined]
    address is left out by [JSON.stringify]. *)
Definition requestBody (searchQuery selectedProvider : string)
    (location : Location) : Js.Value :=
  Js.Object
    [ ("query", Js.Str searchQuery);
      ("provider", Js.Str selectedProvider);
      ("location",
       Js.Object
         ([ ("lat", jsonNumber (lat location));
            ("lng", jsonNumber (lng location)) ]
          ++ match address location with
             | Some text => [("address", Js.Str text)]
             | None => []
             end)) ].

(** A coordinate that survives the posting as a truthy number: finite and
    not zero. *)
Definition usable (x : spec_float) : bool :=
  match x with
  | S754_finite _ _ _ => true
  | _ => false
  end.

Definition filled (field : option string) : bool :=
  match field with
  | Some value => negb (String.eqb value "")
  | None => false
  end.

(** *** The event stream reader *)

Definition newline : ascii := "010"%char.

Definition blankLine : string := String newline (String newline EmptyString).

Definition consHead (c : ascii) (pieces : list string) : list string :=
  match pieces with
  | piece :: more => String c piece :: more
  | [] => [String c EmptyString]
  end.

(** [s.split('\n\n')]: the text is scanned from the left, two newlines end
    a piece and are skipped together. *)
Fixpoint splitBlank (s : string) : list string :=
  match s with
  | EmptyString => [EmptyString]
  | String c rest =>
      match rest with
      | String c' rest' =>
          if Ascii.eqb c newline && Ascii.eqb c' newline
          then EmptyString :: splitBlank rest'
          else consHead c (splitBlank rest)
      | EmptyString => consHead c (splitBlank rest)
      end
  end.

(** [line.slice(n)]. *)
Fixpoint slice (n : nat) (s : string) : string :=
  match n, s with
  | O, _ => s
  | S n', String _ rest => slice n' rest
  | S _, EmptyString => EmptyString
  end.

(** The chunks of a stream, put together. *)
Fixpoint text (chunks : list string) : string :=
  match chunks with
  | [] => EmptyString
  | chunk :: rest => chunk ++ text rest
  end.

(** The state [handleSearch] writes. *)
Record Page : Type := mkPage {
  actions : list Js.Value;
  specialistType : string;
  error : option string;
  isLoading : bool
}.

Definition arrow : string :=
  String " " (String "226" (String "134" (String "146" (String " " EmptyString)))).

Section Reader.

(** [JSON.parse], and the rendering of a number as a string. *)
Variable parse : string -> Result Js.Value.
Variable numberToString : spec_float -> string.

(** [String(v)], and with it the text of an array item in [join]: [null]
    and [undefined] items are rendered empty. *)
Fixpoint toText (v : Js.Value) : string :=
  match v with
  | Js.Undefined => "undefined"
  | Js.Null => "null"
  | Js.Boolean true => "true"
  | Js.Boolean false => "false"
  | Js.Number x => numberToString x
  | Js.Str s => s
  | Js.Array items =>
      Js.join ","
        (map (fun item =>
                match item with
                | Js.Undefined | Js.Null => EmptyString
                | _ => toText item
                end) items)
  | Js.Object _ => "[object Object]"
  end.

Definition itemText (item : Js.Value) : string :=
  match item with
  | Js.Undefined | Js.Null => EmptyString
  | _ => toText item
  end.

(** The chain of tests on a parsed message; what it throws is caught by
    the [try] around it.  A value parsed from JSON holds no function, so
    [join] can be called on an array only. *)
Definition processData (data : Js.Value) (page : Page) : Result Page :=
  let? message := Js.getProp data "message" in
  if Js.truthy message
  then Ok (mkPage (actions page ++ [message]) (specialistType page)
                  (error page) (isLoading page))
  else
  let? action := Js.getProp data "action" in
  if Js.truthy action
  then Ok (mkPage (actions page ++ [action]) (specialistType page)
                  (error page) (isLoading page))
  else
  let? complete := Js.getProp data "complete" in
  if Js.truthy complete
  then
    let? results := Js.getProp data "results" in
    let? specialists := Js.getProp results "specialists" in
    match specialists with
    | Js.Array items =>
        Ok (mkPage (actions page) (Js.join arrow (map itemText items))
                   (error page) (isLoading page))
    | Js.Undefined =>
        Throw (mkError "Cannot read properties of undefined (reading 'join')")
    | Js.Null =>
        Throw (mkError "Cannot read properties of null (reading 'join')")
    | _ => Throw (mkError "data.results.specialists.join is not a function")
    end
  else
  let? failure := Js.getProp data "error" in
  if Js.truthy failure then Throw (mkError (toText failure)) else Ok page.

(** One complete piece of the stream: only a piece that starts with
    [data: ] is parsed, and an exception leaves the page as it was. *)
Definition processLine (page : Page) (line : string) : Page :=
  if Js.startsWith line "data: "
  then
    match (let? data := parse (slice 6 line) in processData data page) with
    | Ok page' => page'
    | Throw _ => page
    end
  else page.

(** The [while] loop over the chunks that [reader.read()] delivers, each
    as the streaming decoder renders it: the page and the buffer after the
    last chunk. *)
Fixpoint readLoop (buffer : string) (chunks : list string) (page : Page)
    : Page * string :=
  match chunks with
  | [] => (page, buffer)
  | chunk :: rest =>
      let lines := splitBlank (buffer ++ chunk) in
      readLoop (last lines EmptyString) rest
               (fold_left processLine (removelast lines) page)
  end.

(** What [fetch] resolves to: a response without a body, or a body
    delivered in chunks, after which the stream ends or a read fails. *)
Inductive Fetched : Type :=
| NoBody
| Body (chunks : list string) (failure : option Error).

(** [handleSearch]: the page afterwards and the body posted, if any. *)
Definition handleSearch (fetch : Js.Value -> Result Fetched)
    (searchQuery selectedProvider : string) (location : option Location)
    (page : Page) : Page * option Js.Value :=
  match location with
  | None =>
      (mkPage [] (specialistType page)
              (Some "Please enter your location or use current location")
              (isLoading page),
       None)
  | Some place =>
      let body := requestBody searchQuery selectedProvider place in
      let started := mkPage [] EmptyString None true in
      let failed (page' : Page) (e : Error) :=
        mkPage (actions page') (specialistType page') (Some (message e)) false in
      let finished (page' : Page) :=
        mkPage (actions page') (specialistType page') (error page') false in
      (match fetch body with
       | Throw e => failed started e
       | Ok NoBody => failed started (mkError "No response body")
       | Ok (Body chunks failure) =>
           let page' := fst (readLoop EmptyString chunks started) in
           match failure with
           | Some e => failed page' e
           | None => finished page'
           end
       end,
       Some body)
  end.

End Reader.

(** The messages of the search process as the page parses them. *)
Definition encodeMessage (m : Message) : Js.Value :=
  match m with
  | MsgStarting =>
      Js.Object [("message", Js.Str "Starting provider search...")]
  | MsgAction action => Js.Object [("action", Js.Str action)]
  | MsgComplete results =>
      Js.Object [("complete", Js.Boolean true);
                 ("results", encodeResults results)]
  | MsgFailed => Js.Object [("error", Js.Str "Search failed")]
  end.

(** What the page shows of a message of the search process. *)
Definition shown (m : Message) : list Js.Value :=
  match m with
  | MsgStarting => [Js.Str "Starting provider search..."]
  | MsgAction action =>
      if String.eqb action "" then [] else [Js.Str action]
  | MsgComplete _ | MsgFailed => []
  end.

End Client.

(** * Properties *)

(** ** The request validator *)

Module RouteFacts.
Import Route.

Lemma isZero_falsy v : isZero v -> Js.truthy v = false.
Proof. intros [sign ->]. reflexivity. Qed.

Lemma isBlank_falsy v : isBlank v -> Js.truthy v = false.
Proof. intros [-> | ->]; reflexivity. Qed.

(** A request in which one of the three location reads is falsy is never
    accepted. *)
Lemma falsy_location_field_rejected fields locFields :
  Js.lookup "location" fields = Js.Object locFields ->
  Js.truthy (Js.lookup "lat" locFields) = false
  \/ Js.truthy (Js.lookup "lng" locFields) = false
  \/ Js.truthy (Js.lookup "address" locFields) = false ->
  exists message,
    validateRequest (Js.Object fields) = Ok (mkValidation false (Some message))
    /\ (Js.truthy (Js.lookup "query" fields) = true ->
        Js.truthy (Js.lookup "provider" fields) = true ->
        message = invalidLocation).
Proof.
  intros Hloc Hfalsy.
  unfold validateRequest; cbn [Js.getProp bindResult].
  destruct (Js.truthy (Js.lookup "query" fields)) eqn:Hq; cbn [negb].
  2:{ eexists; split; [reflexivity | discriminate]. }
  destruct (Js.truthy (Js.lookup "provider" fields)) eqn:Hp; cbn [negb].
  2:{ eexists; split; [reflexivity | discriminate]. }
  rewrite Hloc; cbn [Js.truthy negb Js.getProp bindResult].
  destruct (Js.truthy (Js.lookup "lat" locFields)) eqn:Hlat; cbn [negb].
  2:{ eexists; split; reflexivity. }
  destruct (Js.truthy (Js.lookup "lng" locFields)) eqn:Hlng; cbn [negb].
  2:{ eexists; split; reflexivity. }
  destruct (Js.truthy (Js.lookup "address" locFields)) eqn:Haddr; cbn [negb].
  2:{ eexists; split; reflexivity. }
  destruct Hfalsy as [H | [H | H]]; discriminate.
Qed.

(** The test of the required fields comes first: a request from the
    equator that carries no query is rejected with the message of the
    required fields, not with the message of the location. *)
Lemma zero_latitude_without_query :
  Js.lookup "location" equatorRequestWithoutQuery
  = Js.Object [ ("lat", Js.Number (S754_zero false));
                ("lng", Js.Number (S754_finite false 5 4));
                ("address", Js.Str "Equator Road 1") ]
  /\ isZero (Js.Number (S754_zero false))
  /\ validateRequest (Js.Object equatorRequestWithoutQuery)
     = Ok (mkValidation false (Some missingFields))
  /\ validateRequest (Js.Object equatorRequestWithoutQuery)
     <> Ok (mkValidation false (Some invalidLocation)).
Proof.
  split; [reflexivity |]. split; [exists false; reflexivity |].
  split; [reflexivity | discriminate].
Qed.

(** C10 (amended).  A request whose location has latitude 0 or longitude 0,
    or whose address is missing or empty, is rejected by [validateRequest].
    When the request carries a query and a provider, so that the test of
    the required fields passes, the error is 'Invalid location: latitude,
    longitude, and address are required'; when the query or the provider
    is missing or empty, the error is 'Missing required fields: query,
    provider, and location are required' instead.  Presence is tested by
    truthiness, and a coordinate equal to zero is falsy. *)
Theorem validateRequest_zero_coordinate_rejected :
  forall fields locFields,
    Js.lookup "location" fields = Js.Object locFields ->
    isZero (Js.lookup "lat" locFields)
    \/ isZero (Js.lookup "lng" locFields)
    \/ isBlank (Js.lookup "address" locFields) ->
    (exists message,
        validateRequest (Js.Object fields)
        = Ok (mkValidation false (Some message)))
    /\ (Js.truthy (Js.lookup "query" fields) = true ->
        Js.truthy (Js.lookup "provider" fields) = true ->
        validateRequest (Js.Object fields)
        = Ok (mkValidation false (Some invalidLocation)))
    /\ (Js.truthy (Js.lookup "query" fields) = false
        \/ Js.truthy (Js.lookup "provider" fields) = false ->
        validateRequest (Js.Object fields)
        = Ok (mkValidation false (Some missingFields))).
Proof.
  intros fields locFields Hloc Hzero.
  destruct (@falsy_location_field_rejected fields locFields Hloc)
    as (message & Hrun & Hmsg).
  - destruct Hzero as [H | [H | H]];
      [ left; apply isZero_falsy | right; left; apply isZero_falsy
      | right; right; apply isBlank_falsy ]; exact H.
  - split; [| split].
    + exists message; exact Hrun.
    + intros Hq Hp. rewrite Hrun, (Hmsg Hq Hp). reflexivity.
    + intros Hmissing. unfold validateRequest; cbn [Js.getProp bindResult].
      destruct (Js.truthy (Js.lookup "query" fields)); cbn [negb];
        [| reflexivity].
      destruct Hmissing as [H | H]; [discriminate |].
      rewrite H. reflexivity.
Qed.

Lemma validateRequest_zero_coordinate_rejected_witness :
  validateRequest (Js.Object equatorRequest)
  = Ok (mkValidation false (Some invalidLocation)).
Proof.
  apply (proj1 (proj2 (@validateRequest_zero_coordinate_rejected
                         equatorRequest
                         [ ("lat", Js.Number (S754_zero false));
                           ("lng", Js.Number (S754_finite false 5 4));
                           ("address", Js.Str "Equator Road 1") ]
                         eq_refl
                         (or_introl (ex_intro _ false eq_refl)))));
    reflexivity.
Defined.

(** The same request with a latitude different from zero is accepted. *)
Example validateRequest_accepts_nonzero :
  validateRequest
    (Js.Object
       [ ("query", Js.Str "my knee hurts");
         ("provider", Js.Str "aetna");
         ("location",
          Js.Object [ ("lat", Js.Number (S754_finite false 3 2));
                      ("lng", Js.Number (S754_finite false 5 4));
                      ("address", Js.Str "Equator Road 1") ]) ])
  = Ok (mkValidation true None).
Proof. reflexivity. Qed.

(** [request.json()] may answer [null]; the first read then throws, and
    [POST] turns the exception into its 500 answer. *)
Example validateRequest_null_throws :
  exists e, validateRequest Js.Null = Throw e.
Proof. eexists; reflexivity. Qed.

End RouteFacts.

(** ** Growing states *)

Lemma pushed_app d1 d2 : pushed (d1 ++ d2) = pushed d1 ++ pushed d2.
Proof.
  induction d1 as [| e d1 IH]; [reflexivity |].
  destruct e; cbn [app pushed]; rewrite IH; reflexivity.
Qed.

Lemma grow_nil st : grow st [] = st.
Proof. destruct st; unfold grow; cbn. rewrite !app_nil_r. reflexivity. Qed.

Lemma grow_grow st d1 d2 : grow (grow st d1) d2 = grow st (d1 ++ d2).
Proof. unfold grow; cbn. rewrite pushed_app, !app_assoc. reflexivity. Qed.

Lemma log_grow e st : pushed [e] = [] -> log e st = grow st [e].
Proof. intros H. unfold log, grow. rewrite H, app_nil_r. reflexivity. Qed.

Lemma emits_weaken {T} (m : M T) (P Q : Result T -> Trace -> Prop) :
  emits m P -> (forall r d, P r d -> Q r d) -> emits m Q.
Proof.
  intros Hm HPQ st r st' Hrun.
  destruct (Hm _ _ _ Hrun) as (d & -> & HP). eauto.
Qed.

Lemma emits_ret {T} (v : T) : emits (ret v) (fun r d => r = Ok v /\ d = []).
Proof.
  intros st r st' Hrun. inversion Hrun; subst.
  exists []. rewrite grow_nil. auto.
Qed.

Lemma emits_throw {T} (e : Error) :
  emits (@throw T e) (fun r d => r = Throw e /\ d = []).
Proof.
  intros st r st' Hrun. inversion Hrun; subst.
  exists []. rewrite grow_nil. auto.
Qed.

Lemma emits_delay ms :
  emits (delay ms) (fun r d => r = Ok tt /\ d = [EvDelay ms]).
Proof.
  intros st r st' Hrun. inversion Hrun; subst.
  exists [EvDelay ms]. split; [apply log_grow; reflexivity | auto].
Qed.

Lemma emits_pushHistory action :
  emits (pushHistory action)
        (fun r d => r = Ok tt /\ d = [EvHistoryPush action]).
Proof.
  intros st r st' Hrun. inversion Hrun; subst.
  exists [EvHistoryPush action]. split; [reflexivity | auto].
Qed.

(** A call appends its own event, with the oracle's answer in it. *)
Lemma emits_call {T} (oracle : Trace -> Result T) (event : Result T -> Event) :
  (forall r, pushed [event r] = []) ->
  emits (call oracle event) (fun r d => d = [event r]).
Proof.
  intros Hev st r st' Hrun. inversion Hrun; subst.
  eexists. split; [apply log_grow, Hev | reflexivity].
Qed.

(** Sequencing: either the first part throws, or both parts ran. *)
Lemma emits_bind {A B} (m : M A) (k : A -> M B)
    (P : Result A -> Trace -> Prop) (Q : A -> Result B -> Trace -> Prop) :
  emits m P ->
  (forall a, emits (k a) (Q a)) ->
  emits (bind m k)
        (fun r d =>
           (exists e, r = Throw e /\ P (Throw e) d)
           \/ (exists a d1 d2, d = d1 ++ d2 /\ P (Ok a) d1 /\ Q a r d2)).
Proof.
  intros Hm Hk st r st' Hrun. unfold bind in Hrun.
  destruct (m st) as [[a | e] st1] eqn:Hm1.
  - destruct (Hm _ _ _ Hm1) as (d1 & -> & HP).
    destruct (Hk a _ _ _ Hrun) as (d2 & -> & HQ).
    exists (d1 ++ d2). rewrite grow_grow. split; [reflexivity |].
    right. exists a, d1, d2. auto.
  - inversion Hrun; subst.
    destruct (Hm _ _ _ Hm1) as (d1 & -> & HP).
    exists d1. split; [reflexivity |]. left. eauto.
Qed.

(** ** The retry executor *)

Lemma emits_retryFrom {T} (operation : M T) P errorMessage :
  emits operation P ->
  forall remaining i lastError,
    emits (retryFrom operation errorMessage remaining i lastError)
          (Retried P errorMessage remaining i lastError).
Proof.
  intros Hop remaining.
  induction remaining as [| n IH]; intros i lastError st r st' Hrun.
  - inversion Hrun; subst. exists []. rewrite grow_nil. cbn. auto.
  - cbn [retryFrom] in Hrun.
    destruct (operation st) as [[v | e] st1] eqn:Hop1.
    + inversion Hrun; subst.
      destruct (Hop _ _ _ Hop1) as (d & -> & HP).
      exists d. split; [reflexivity |]. left. eauto.
    + destruct (Hop _ _ _ Hop1) as (d1 & -> & HP).
      unfold bind, delay in Hrun.
      rewrite (@log_grow (EvDelay (1000 * (Z.of_nat i + 1))) _ eq_refl),
        grow_grow in Hrun.
      destruct (IH _ _ _ _ _ Hrun) as (d2 & -> & HR).
      rewrite grow_grow, <- app_assoc. cbn [app].
      eexists. split; [reflexivity |]. right. exists e, d1, d2. auto.
Qed.

Lemma emits_retryOperation {T} (operation : M T) P errorMessage :
  emits operation P ->
  emits (retryOperation operation errorMessage)
        (Retried P errorMessage maxRetries 0 None).
Proof. intros Hop. apply emits_retryFrom, Hop. Qed.

(** A property of every attempt that is kept by concatenation and holds of
    a delay holds of the whole retried run. *)
Lemma Retried_all {T} (P : Result T -> Trace -> Prop) (F : Trace -> Prop)
    errorMessage :
  F [] ->
  (forall d1 d2, F d1 -> F d2 -> F (d1 ++ d2)) ->
  (forall ms, F [EvDelay ms]) ->
  (forall r d, P r d -> F d) ->
  forall remaining i lastError r d,
    Retried P errorMessage remaining i lastError r d -> F d.
Proof.
  intros Hnil Happ Hdelay HP remaining.
  induction remaining as [| n IH]; intros i lastError r d H; cbn in H.
  - destruct H as [_ ->]. exact Hnil.
  - destruct H as [(v & _ & H) | (e & d1 & d2 & H1 & -> & H2)].
    + eapply HP, H.
    + apply Happ; [eapply HP, H1 |].
      change (F ([EvDelay (1000 * (Z.of_nat i + 1))] ++ d2)).
      apply Happ; [apply Hdelay | eapply IH, H2].
Qed.

(** When the retried run answers a value, its last attempt answered it;
    what held of that attempt's events and is kept by events before it
    holds of the whole run. *)
Lemma Retried_ok {T} (P : Result T -> Trace -> Prop)
    (G : T -> Trace -> Prop) errorMessage :
  (forall v d, P (Ok v) d -> G v d) ->
  (forall v d1 d2, G v d2 -> G v (d1 ++ d2)) ->
  forall remaining i lastError v d,
    Retried P errorMessage remaining i lastError (Ok v) d -> G v d.
Proof.
  intros HP Hpre remaining.
  induction remaining as [| n IH]; intros i lastError v d H; cbn in H.
  - destruct H as [H _]. discriminate.
  - destruct H as [(v' & Hv & H) | (e & d1 & d2 & H1 & -> & H2)].
    + inversion Hv; subst. apply HP, H.
    + apply Hpre.
      change (G v ([EvDelay (1000 * (Z.of_nat i + 1))] ++ d2)).
      apply Hpre. eapply IH, H2.
Qed.

Module RetryFacts.
Import Scenario.

(** One iteration of the [for] loop. *)
Lemma retryFrom_S {T} (operation : M T) errorMessage remaining i lastError st :
  retryFrom operation errorMessage (S remaining) i lastError st =
  match operation st with
  | (Ok v, st') => (Ok v, st')
  | (Throw e, st') =>
      retryFrom operation errorMessage remaining (S i) (Some e)
                (log (EvDelay (1000 * (Z.of_nat i + 1))) st')
  end.
Proof.
  cbn [retryFrom]. destruct (operation st) as [[v | e] st']; reflexivity.
Qed.

(** Unfolding of the three iterations of the [for] loop. *)
Lemma retryOperation_unfold {T} (operation : M T) errorMessage st :
  retryOperation operation errorMessage st =
  match operation st with
  | (Ok v, s1) => (Ok v, s1)
  | (Throw e1, s1) =>
    match operation (log (EvDelay 1000) s1) with
    | (Ok v, s2) => (Ok v, s2)
    | (Throw e2, s2) =>
      match operation (log (EvDelay 2000) s2) with
      | (Ok v, s3) => (Ok v, s3)
      | (Throw e3, s3) =>
          (Throw (mkError (errorMessage ++ ": " ++ message e3)),
           log (EvDelay 3000) s3)
      end
    end
  end.
Proof.
  unfold retryOperation, maxRetries. rewrite retryFrom_S.
  destruct (operation st) as [[v | e1] s1]; [reflexivity |].
  rewrite retryFrom_S.
  replace (1000 * (Z.of_nat 0 + 1))%Z with 1000%Z by reflexivity.
  destruct (operation (log (EvDelay 1000) s1)) as [[v | e2] s2]; [reflexivity |].
  rewrite retryFrom_S.
  replace (1000 * (Z.of_nat 1 + 1))%Z with 2000%Z by reflexivity.
  destruct (operation (log (EvDelay 2000) s2)) as [[v | e3] s3]; reflexivity.
Qed.


(** For any bound: when the [for] loop runs out of iterations after at
    least one of them, the last thing it did was to wait the backoff delay
    of the last index. *)
Lemma retryFrom_throws_after_delay {T} (operation : M T) errorMessage :
  forall remaining i lastError st e st',
    retryFrom operation errorMessage (S remaining) i lastError st
    = (Throw e, st') ->
    exists s,
      st' = log (EvDelay (1000 * Z.of_nat (i + S remaining))) s.
Proof.
  induction remaining as [| n IH]; intros i lastError st e st' Hrun;
    rewrite retryFrom_S in Hrun;
    destruct (operation st) as [[v | e1] s1]; try discriminate.
  - inversion Hrun; subst. exists s1.
    replace (Z.of_nat (i + 1)) with (Z.of_nat i + 1)%Z by lia. reflexivity.
  - destruct (IH _ _ _ _ _ Hrun) as (s & ->).
    exists s.
    replace (Z.of_nat (S i + S n)) with (Z.of_nat (i + S (S n))) by lia.
    reflexivity.
Qed.


(** C5.  On an operation that fails at every attempt, the retry executor
    (maxRetries = 3) runs the operation exactly three times: on the state
    it was called in, and after the first and the second failure, each time
    after a backoff delay of 1000 ms times the number of the failed attempt
    (1000 after the first, 2000 after the second).  It then throws the
    composite error made of the label and the message of the last
    underlying error. *)
Theorem retryOperation_always_failing :
  forall (T : Type) (operation : M T) (errorMessage : string) (st : State),
    (forall s, exists e s', operation s = (Throw e, s')) ->
    exists e1 s1 e2 s2 e3 s3,
      operation st = (Throw e1, s1)
      /\ operation (log (EvDelay (1000 * 1)) s1) = (Throw e2, s2)
      /\ operation (log (EvDelay (1000 * 2)) s2) = (Throw e3, s3)
      /\ retryOperation operation errorMessage st
         = (Throw (mkError (errorMessage ++ ": " ++ message e3)),
            log (EvDelay (1000 * 3)) s3).
Proof.
  intros T operation errorMessage st Hfail.
  destruct (Hfail st) as (e1 & s1 & H1).
  destruct (Hfail (log (EvDelay 1000) s1)) as (e2 & s2 & H2).
  destruct (Hfail (log (EvDelay 2000) s2)) as (e3 & s3 & H3).
  exists e1, s1, e2, s2, e3, s3.
  change (1000 * 1)%Z with 1000%Z. change (1000 * 2)%Z with 2000%Z.
  change (1000 * 3)%Z with 3000%Z.
  repeat split; try assumption.
  rewrite retryOperation_unfold, H1, H2, H3. reflexivity.
Qed.

Lemma retryOperation_always_failing_witness :
  exists e1 s1 e2 s2 e3 s3,
    alwaysBoom initialState = (Throw e1, s1)
    /\ alwaysBoom (log (EvDelay (1000 * 1)) s1) = (Throw e2, s2)
    /\ alwaysBoom (log (EvDelay (1000 * 2)) s2) = (Throw e3, s3)
    /\ retryOperation alwaysBoom "label" initialState
       = (Throw (mkError ("label" ++ ": " ++ message e3)),
          log (EvDelay (1000 * 3)) s3).
Proof.
  apply (@retryOperation_always_failing unit alwaysBoom "label" initialState).
  intros s. exists (mkError "boom"), s. reflexivity.
Defined.

(** The run of the witness, spelled out. *)
Example retryOperation_alwaysBoom :
  retryOperation alwaysBoom "label" initialState
  = (Throw (mkError "label: boom"),
     mkState [EvDelay 1000; EvDelay 2000; EvDelay 3000] []).
Proof. reflexivity. Qed.



End RetryFacts.

Lemma count_app p d1 d2 : count p (d1 ++ d2) = count p d1 + count p d2.
Proof. unfold count. rewrite filter_app, List.length_app. reflexivity. Qed.

Lemma acted_app d1 d2 : acted (d1 ++ d2) = acted d1 ++ acted d2.
Proof.
  induction d1 as [| e d1 IH]; [reflexivity |].
  destruct e; cbn [app acted]; rewrite IH; reflexivity.
Qed.

Lemma acted_split pre action o post :
  In action (acted (pre ++ EvAct action o :: post)).
Proof.
  rewrite acted_app. apply in_or_app. right. left. reflexivity.
Qed.

Lemma PlannedFirst_no_acts d : acted d = [] -> PlannedFirst d.
Proof.
  intros Hnone pre action o post ->.
  pose proof (acted_split pre action o post) as Hin.
  rewrite Hnone in Hin. destruct Hin.
Qed.

Lemma split_app (d1 d2 pre post : Trace) (e : Event) :
  d1 ++ d2 = pre ++ e :: post ->
  (exists post1, d1 = pre ++ e :: post1)
  \/ (exists pre2, pre = d1 ++ pre2 /\ d2 = pre2 ++ e :: post).
Proof.
  revert pre. induction d1 as [| x d1 IH]; intros pre H.
  - right. exists pre. auto.
  - destruct pre as [| y pre]; cbn in H; inversion H; subst.
    + left. exists d1. reflexivity.
    + destruct (IH _ H2) as [(post1 & ->) | (pre2 & -> & ->)].
      * left. exists post1. reflexivity.
      * right. exists pre2. auto.
Qed.

Lemma PlannedFirst_app d1 d2 :
  PlannedFirst d1 -> PlannedFirst d2 -> PlannedFirst (d1 ++ d2).
Proof.
  intros H1 H2 pre action o post Heq.
  destruct (split_app _ _ _ _ _ Heq) as [(post1 & ->) | (pre2 & -> & ->)].
  - eapply H1. reflexivity.
  - apply in_or_app. right. eapply H2. reflexivity.
Qed.

(** Acting on an action that an earlier stretch appended. *)
Lemma PlannedFirst_act d1 d2 action :
  PlannedFirst d1 ->
  In (EvHistoryPush action) d1 ->
  Forall (eq action) (acted d2) ->
  PlannedFirst (d1 ++ d2).
Proof.
  intros H1 Hin Hall pre a o post Heq.
  destruct (split_app _ _ _ _ _ Heq) as [(post1 & ->) | (pre2 & -> & ->)].
  - eapply H1. reflexivity.
  - apply in_or_app. left.
    rewrite Forall_forall in Hall.
    rewrite <- (Hall a (acted_split pre2 a o post)). exact Hin.
Qed.

Lemma Tidy_nil : Tidy [].
Proof. split; cbn; auto. Qed.

Lemma Tidy_app d1 d2 : Tidy d1 -> Tidy d2 -> Tidy (d1 ++ d2).
Proof.
  intros [c1 x1 b1 s1] [c2 x2 b2 s2]. split.
  - rewrite count_app; lia.
  - rewrite count_app; lia.
  - rewrite count_app, pushed_app, List.length_app; lia.
  - rewrite pushed_app. apply Forall_app; auto.
Qed.

Lemma Tidy_delay ms : Tidy [EvDelay ms].
Proof. split; cbn; auto. Qed.

Lemma Tidy_cons e d :
  isClose e = false -> isExtract e = false -> isResponse e = false ->
  pushed [e] = [] -> Tidy d -> Tidy (e :: d).
Proof.
  intros Hc Hx Hr Hp Hd. change (Tidy ([e] ++ d)).
  apply Tidy_app; [| exact Hd].
  split; unfold count; cbn [filter]; rewrite ?Hc, ?Hx, ?Hr, ?Hp; cbn; auto.
Qed.

Create HintDb tidy.
#[local] Hint Resolve Tidy_nil Tidy_app Tidy_delay : tidy.

(** ** The planner, the executor and the loop, step by step *)

(** Closes a goal [st' = grow st d] between explicit states. *)
Ltac grown :=
  unfold grow, log; cbn [pushed trace actionHistory];
  rewrite <- ?app_assoc, ?app_nil_r; cbn [app]; reflexivity.

Section AgentFacts.

Variable world : World.
Variable config : WebAgentConfig.

Lemma emits_planOnce currentState :
  emits (planOnce world config currentState) (Planned config).
Proof.
  intros st r st' Hrun.
  unfold planOnce, bind, call, pushHistory, notify, ret in Hrun.
  cbn [trace actionHistory log] in Hrun.
  remember (systemPrompt config (actionHistory st) currentState) as prompt.
  destruct (generateObject world (trace st) prompt) as [p | e].
  - destruct (onAction config) as [sink |] eqn:Hsink.
    + unfold call in Hrun. cbn [trace actionHistory log] in Hrun.
      destruct (sink _ _) as [[] | e] eqn:Hsinks; inversion Hrun; subst st' r.
      * eexists; split; [| apply (@PlannedNotified config prompt p)]. grown.
      * eexists; split; [| apply (@PlannedSinkFailed config prompt p e sink _ Hsink Hsinks)].
        grown.
    + inversion Hrun; subst st' r.
      eexists; split; [| apply (@PlannedSilently config prompt p Hsink)]. grown.
  - inversion Hrun; subst st' r.
    eexists; split; [| apply (@PlannedModelFailed config prompt e)]. grown.
Qed.

Lemma emits_raceAct action : emits (raceAct world action) (Raced action).
Proof.
  intros st r st' Hrun. unfold raceAct in Hrun.
  destruct (pageAct world (trace st) action) as [| e |];
    inversion Hrun; subst st' r; eexists; (split; [| constructor]); grown.
Qed.

Lemma WellFormed_formatAction p : WellFormed (formatAction p).
Proof. exists (tool p), (instruction p). reflexivity. Qed.

Lemma Planned_Tidy r d : Planned config r d -> Tidy d.
Proof.
  intros H; destruct H; split; cbn; auto;
    repeat constructor; apply WellFormed_formatAction.
Qed.

Lemma Planned_no_acts r d : Planned config r d -> acted d = [].
Proof. intros H; destruct H; reflexivity. Qed.

Lemma Planned_ok_pushed action d :
  Planned config (Ok action) d -> In (EvHistoryPush action) d.
Proof.
  intros H. inversion H; subst; right; left; reflexivity.
Qed.

Lemma Raced_Tidy action r d : Raced action r d -> Tidy d.
Proof. intros H; destruct H; split; cbn; auto. Qed.

Lemma Raced_quiet action r d :
  Raced action r d ->
  pushed d = [] /\ count isResponse d = 0 /\ Forall (eq action) (acted d).
Proof. intros H; destruct H; cbn; auto. Qed.

(** The planner: no [page.act], and the action it answers is in the
    history. *)
Lemma emits_getNextAction currentState :
  emits (getNextAction world config currentState)
        (fun r d =>
           Tidy d /\ acted d = []
           /\ forall action, r = Ok action -> In (EvHistoryPush action) d).
Proof.
  eapply emits_weaken;
    [apply emits_retryOperation, emits_planOnce |].
  intros r d H. split; [| split].
  - revert H. apply Retried_all; auto with tidy. apply Planned_Tidy.
  - revert H.
    apply (@Retried_all _ (Planned config) (fun d => acted d = [])); auto.
    + intros d1 d2 H1 H2. rewrite acted_app, H1, H2. reflexivity.
    + apply Planned_no_acts.
  - intros action ->. revert H.
    apply (@Retried_ok _ (Planned config) (fun a d => In (EvHistoryPush a) d)).
    + apply Planned_ok_pushed.
    + intros v d1 d2 Hin. apply in_or_app. auto.
Qed.

(** The executor: it only calls [page.act], always with the action it was
    given; it never plans and never touches the history. *)
Lemma emits_executeAction action :
  emits (executeAction world action)
        (fun _ d =>
           Tidy d /\ pushed d = [] /\ count isResponse d = 0
           /\ Forall (eq action) (acted d)).
Proof.
  eapply emits_weaken;
    [apply emits_retryOperation, emits_raceAct |].
  intros r d H. split; [| split; [| split]].
  - revert H. apply Retried_all; auto with tidy. apply Raced_Tidy.
  - revert H.
    apply (@Retried_all _ (Raced action) (fun d => pushed d = [])); auto.
    + intros d1 d2 H1 H2. rewrite pushed_app, H1, H2. reflexivity.
    + intros r' d' H'. apply (Raced_quiet H').
  - revert H.
    apply (@Retried_all _ (Raced action) (fun d => count isResponse d = 0));
      auto.
    + intros d1 d2 H1 H2. rewrite count_app, H1, H2. reflexivity.
    + intros r' d' H'. apply (Raced_quiet H').
  - revert H.
    apply (@Retried_all _ (Raced action)
             (fun d => Forall (eq action) (acted d))); cbn; auto.
    + intros d1 d2 H1 H2. rewrite acted_app. apply Forall_app; auto.
    + intros r' d' H'. apply (Raced_quiet H').
Qed.

End AgentFacts.

Section LoopFacts.

Variable world : World.
Variable config : WebAgentConfig.

Lemma call_grow {T} (oracle : Trace -> Result T) (event : Result T -> Event)
    st r st' :
  (forall x, pushed [event x] = []) ->
  call oracle event st = (r, st') ->
  r = oracle (trace st) /\ st' = grow st [event r].
Proof.
  intros Hev Hrun. inversion Hrun; subst. split; [reflexivity |].
  apply log_grow, Hev.
Qed.

Lemma Looped_nil : Looped [].
Proof. split; [apply Tidy_nil | apply PlannedFirst_no_acts; reflexivity]. Qed.

Lemma Looped_app d1 d2 : Looped d1 -> Looped d2 -> Looped (d1 ++ d2).
Proof.
  intros [T1 P1] [T2 P2].
  split; [apply Tidy_app | apply PlannedFirst_app]; assumption.
Qed.

Lemma Looped_single e :
  isClose e = false -> isExtract e = false -> isResponse e = false ->
  pushed [e] = [] -> acted [e] = [] -> Looped [e].
Proof.
  intros Hc Hx Hr Hp Ha. split.
  - apply Tidy_cons; auto using Tidy_nil.
  - apply PlannedFirst_no_acts, Ha.
Qed.

Lemma emits_loopBody : emits (loopBody world config) (fun _ d => Looped d).
Proof.
  intros st r st' Hrun. unfold loopBody, bind in Hrun.
  destruct (observe world st) as [[pageState | e] s1] eqn:Hobs;
    apply call_grow in Hobs; try reflexivity; destruct Hobs as [_ ->].
  2:{ inversion Hrun; subst. eexists. split; [reflexivity |].
      apply Looped_single; reflexivity. }
  destruct (getNextAction world config pageState _)
    as [[nextAction | e] s2] eqn:Hplan;
    destruct (@emits_getNextAction _ _ _ _ _ _ Hplan) as (dP & -> & HT & Hacts & Hin).
  2:{ inversion Hrun; subst. rewrite grow_grow.
      eexists. split; [reflexivity |].
      apply Looped_app; [apply Looped_single; reflexivity |].
      split; [exact HT | apply PlannedFirst_no_acts, Hacts]. }
  assert (HlP : Looped ([EvObserve (Ok pageState)] ++ dP)).
  { apply Looped_app; [apply Looped_single; reflexivity |].
    split; [exact HT | apply PlannedFirst_no_acts, Hacts]. }
  rewrite grow_grow in Hrun.
  destruct (isCompletion nextAction).
  { inversion Hrun; subst. eexists. split; [reflexivity | exact HlP]. }
  destruct (executeAction world nextAction _) as [[[] | e] s3] eqn:Hact;
    destruct (@emits_executeAction _ _ _ _ _ Hact) as (dA & -> & HTA & _ & _ & Honly);
    rewrite grow_grow in Hrun.
  - assert (HlA : Looped (([EvObserve (Ok pageState)] ++ dP) ++ dA)).
    { split.
      - exact (@Tidy_app _ _ (proj1 HlP) HTA).
      - exact (@PlannedFirst_act _ _ _ (proj2 HlP)
                 (in_or_app _ _ _ (or_intror (Hin _ eq_refl))) Honly). }
    unfold bind, delay, ret in Hrun.
    rewrite (@log_grow (EvDelay 1000) _ eq_refl), grow_grow in Hrun.
    inversion Hrun; subst st' r.
    eexists. split; [reflexivity |].
    exact (@Looped_app _ _ HlA (@Looped_single (EvDelay 1000)
                             eq_refl eq_refl eq_refl eq_refl eq_refl)).
  - inversion Hrun; subst st' r. eexists. split; [reflexivity |].
    split.
    + exact (@Tidy_app _ _ (proj1 HlP) HTA).
    + exact (@PlannedFirst_act _ _ _ (proj2 HlP)
               (in_or_app _ _ _ (or_intror (Hin _ eq_refl))) Honly).
Qed.

Lemma iteration_grow consecutiveErrors st exit st' :
  iteration world config consecutiveErrors st = (exit, st') ->
  exists d, st' = grow st d /\ Looped d.
Proof.
  unfold iteration. intros Hrun.
  destruct (loopBody world config st) as [[[|] | e] s1] eqn:Hbody;
    destruct (@emits_loopBody _ _ _ Hbody) as (d & -> & Hd).
  - inversion Hrun; subst. eauto.
  - inversion Hrun; subst. eauto.
  - destruct (maxConsecutiveErrors <=? S consecutiveErrors)%nat.
    + inversion Hrun; subst. eauto.
    + destruct (screenshot world _) as [[[] | e'] s2] eqn:Hshot;
        apply call_grow in Hshot; try reflexivity; destruct Hshot as [_ ->];
        inversion Hrun; subst; rewrite grow_grow;
        eexists; (split; [reflexivity |]);
        (apply Looped_app; [exact Hd | apply Looped_single; reflexivity]).
Qed.

Lemma searchLoop_grow fuel :
  forall consecutiveErrors st exit st',
    searchLoop world config fuel consecutiveErrors st = Some (exit, st') ->
    exists d, st' = grow st d /\ Looped d.
Proof.
  induction fuel as [| fuel IH]; intros n st exit st' Hrun; [discriminate |].
  cbn [searchLoop] in Hrun.
  destruct (iteration world config n st) as [[n' | | e] s1] eqn:Hiter;
    destruct (@iteration_grow _ _ _ _ Hiter) as (d1 & -> & Hd1).
  - destruct (IH _ _ _ _ Hrun) as (d2 & -> & Hd2).
    rewrite grow_grow. eexists. split; [reflexivity |].
    apply Looped_app; assumption.
  - inversion Hrun; subst. eauto.
  - inversion Hrun; subst. eauto.
Qed.

(** The outer [try] block: the navigation, the loop, and the extraction
    when the loop was left by [break]. *)
Lemma searchBody_grow fuel st outcome st' :
  searchBody world config fuel st = Some (outcome, st') ->
  exists (g : Result unit) (d : Trace) (tail : Trace),
    st' = grow st (EvGoto (provider config) g :: d ++ tail)
    /\ Looped d
    /\ (tail = [] \/ exists x, tail = [EvExtract x]).
Proof.
  unfold searchBody, loopThenExtract. intros Hrun.
  destruct (call _ _ st) as [[[] | e] s1] eqn:Hgoto;
    apply call_grow in Hgoto; try reflexivity; destruct Hgoto as [Hg ->].
  2:{ inversion Hrun; subst. exists (Throw e), [], [].
      split; [rewrite Hg; reflexivity | split; [apply Looped_nil | auto]]. }
  destruct (searchLoop world config fuel 0 _) as [[[| e] s2] |] eqn:Hloop;
    [| | discriminate];
    destruct (@searchLoop_grow _ _ _ _ _ Hloop) as (d & -> & Hd);
    rewrite grow_grow in Hrun.
  - unfold extractResults, bind in Hrun.
    destruct (call (pageExtract world) EvExtract _) as [[v | e] s3] eqn:Hext;
      apply call_grow in Hext; try reflexivity; destruct Hext as [_ ->];
      rewrite grow_grow in Hrun; inversion Hrun; subst;
      eexists (Ok tt), d, [_];
      (split; [reflexivity | split; [exact Hd | right; eauto]]).
  - inversion Hrun; subst. exists (Ok tt), d, [].
    rewrite app_nil_r. split; [reflexivity | split; [exact Hd | auto]].
Qed.

(** [executeSearch]: whatever the outer [try] block did, the last event is
    the one and only call of [close]. *)
Lemma executeSearch_grow fuel st outcome st' :
  executeSearch world config fuel st = Some (outcome, st') ->
  exists (g : Result unit) (d tail : Trace) (c : Result unit),
    st' = grow st (EvGoto (provider config) g :: d ++ tail ++ [EvClose c])
    /\ Looped d
    /\ (tail = [] \/ exists x, tail = [EvExtract x]).
Proof.
  unfold executeSearch, closing. intros Hrun.
  destruct (searchBody world config fuel st) as [[r s1] |] eqn:Hbody;
    [| discriminate].
  destruct (@searchBody_grow _ _ _ _ Hbody) as (g & d & tail & -> & Hd & Htail).
  destruct (close world _) as [c s2] eqn:Hclose.
  apply call_grow in Hclose; try reflexivity. destruct Hclose as [_ ->].
  rewrite grow_grow in Hrun.
  exists g, d, tail, c. split; [| auto].
  destruct c as [[] | e]; inversion Hrun; subst;
    cbn [app]; rewrite <- app_assoc; reflexivity.
Qed.

End LoopFacts.

(** ** The scripted runs *)

Module ScenarioFacts.
Import Scenario.

(** The run of the spec's loop test: two actions are executed, three
    planning calls are made, and the extraction follows the third. *)
Example calm_search :
  exists st',
    executeSearch calm silent 5 initialState = Some (Ok ada, st')
    /\ brief (trace st')
       = [ EvGoto url (Ok tt);
           EvObserve (Ok "page");
           EvGenerateObject "" (Ok (plan ACT "click the guest access link"));
           EvHistoryPush "ACT: click the guest access link";
           EvAct "ACT: click the guest access link" ActResolved;
           EvDelay 1000;
           EvObserve (Ok "page");
           EvGenerateObject "" (Ok (plan ACT "type the specialty"));
           EvHistoryPush "ACT: type the specialty";
           EvAct "ACT: type the specialty" ActResolved;
           EvDelay 1000;
           EvObserve (Ok "page");
           EvGenerateObject "" (Ok (plan CLOSE "session complete"));
           EvHistoryPush "CLOSE: session complete";
           EvExtract (Ok oneProvider);
           EvClose (Ok tt) ]
    /\ actionHistory st'
       = [ "ACT: click the guest access link"; "ACT: type the specialty";
           "CLOSE: session complete" ].
Proof. eexists. split; [vm_compute; reflexivity |]. split; reflexivity. Qed.

(** Abort after three consecutive errors. *)
Example blind_search :
  executeSearch blind silent 5 initialState
  = Some (Throw tooManyErrors,
          mkState [ EvGoto url (Ok tt);
                    EvObserve (Throw down); EvScreenshot (Ok tt);
                    EvObserve (Throw down); EvScreenshot (Ok tt);
                    EvObserve (Throw down);
                    EvClose (Ok tt) ] []).
Proof. reflexivity. Qed.

(** Fatal extraction failure. *)
Example nameless_search :
  exists st',
    executeSearch nameless silent 5 initialState = Some (Throw zodError, st')
    /\ count isExtract (trace st') = 1 /\ count isClose (trace st') = 1.
Proof. eexists. split; [vm_compute; reflexivity |]. split; reflexivity. Qed.

(** The navigation to the provider's site fails. *)
Example unreachable_search :
  executeSearch unreachable silent 5 initialState
  = Some (Throw down, mkState [EvGoto url (Throw down); EvClose (Ok tt)] []).
Proof. reflexivity. Qed.

End ScenarioFacts.

(** ** The session teardown *)

Module Teardown.
Import Scenario.

Lemma init_throw_inv world st e st' :
  init world st = (Throw e, st') ->
  exists cause, st' = grow st [EvStagehandInit (Throw cause)].
Proof.
  unfold init, call. destruct (stagehandInit world (trace st)) as [[] | cause];
    intros H; inversion H; subst.
  exists cause. apply log_grow. reflexivity.
Qed.

(** When the stage-hand initialisation fails, the search process of the
    route never reaches [executeSearch]: the trace holds the start message,
    the failed initialisation, the failure message and the end of the
    response stream, and no call of [close]. *)
Lemma init_failure_never_closes :
  searchProcess noSession steadyWriter url ["Cardiologist"] here 5 initialState
  = Some (Ok tt,
          mkState [ EvWrite MsgStarting (Ok tt);
                    EvStagehandInit (Throw down);
                    EvWrite MsgFailed (Ok tt);
                    EvWriterClose (Ok tt) ] [])
  /\ count isClose [ EvWrite MsgStarting (Ok tt);
                     EvStagehandInit (Throw down);
                     EvWrite MsgFailed (Ok tt);
                     EvWriterClose (Ok tt) ] = 0.
Proof. split; reflexivity. Qed.

(** C1 (amended).  Every call of [executeSearch] that ends invokes the
    session teardown [close] exactly once, as its last step, on every exit
    path of [executeSearch]: normal completion, abort after the
    consecutive-error threshold, a fatal extraction failure, and a failed
    navigation to the provider's site.  An exception raised by [init] is
    outside [executeSearch]: the search process then ends without calling
    [executeSearch], and [close] is not invoked at all. *)
Theorem close_once_per_executeSearch :
  (forall world config fuel st outcome st',
      executeSearch world config fuel st = Some (outcome, st') ->
      exists d c,
        st' = grow st (d ++ [EvClose c]) /\ count isClose d = 0)
  /\
  (forall world writer providerUrl specialistTypes bodyLocation fuel
          st st1 e st2,
      write writer MsgStarting st = (Ok tt, st1) ->
      init world (newWebAgent st1) = (Throw e, st2) ->
      exists outcome st' d,
        searchProcess world writer providerUrl specialistTypes bodyLocation
                      fuel st = Some (outcome, st')
        /\ trace st' = trace st ++ d
        /\ count isClose d = 0).
Proof.
  split.
  - intros world config fuel st outcome st' Hrun.
    destruct (@executeSearch_grow _ _ _ _ _ _ Hrun)
      as (g & d & tail & c & -> & [Hd _] & Htail).
    exists (EvGoto (provider config) g :: d ++ tail), c.
    split; [cbn [app]; rewrite <- app_assoc; reflexivity |].
    change (count isClose ([EvGoto (provider config) g] ++ d ++ tail) = 0).
    rewrite !count_app, (tidy_close Hd).
    destruct Htail as [-> | [x ->]]; reflexivity.
  - intros world writer providerUrl specialistTypes bodyLocation fuel
           st st1 e st2 Hwrite Hinit.
    unfold searchProcess, searchProcessBody. rewrite Hwrite, Hinit.
    destruct (@init_throw_inv _ _ _ _ Hinit) as (cause & ->).
    apply call_grow in Hwrite; [| reflexivity]. destruct Hwrite as [_ ->].
    destruct (write writer MsgFailed _) as [handled s3] eqn:Hfail.
    apply call_grow in Hfail; [| reflexivity]. destruct Hfail as [_ ->].
    destruct (call (writerClose writer) EvWriterClose _) as [c s4] eqn:Hclose.
    apply call_grow in Hclose; [| reflexivity]. destruct Hclose as [_ ->].
    exists (match c with Ok _ => handled | Throw e' => Throw e' end).
    eexists.
    exists [ EvWrite MsgStarting (Ok tt); EvStagehandInit (Throw cause);
             EvWrite MsgFailed handled; EvWriterClose c ].
    split; [destruct c as [[] | e']; reflexivity |].
    split; [| reflexivity].
    cbn [trace grow newWebAgent]. rewrite <- !app_assoc. reflexivity.
Qed.

Lemma close_once_per_executeSearch_witness :
  (exists d c,
      finalStateOf (executeSearch calm silent 5 initialState)
      = grow initialState (d ++ [EvClose c])
      /\ count isClose d = 0)
  /\ (exists outcome st' d,
         searchProcess noSession steadyWriter url ["Cardiologist"] here 5
                       initialState = Some (outcome, st')
         /\ trace st' = trace initialState ++ d
         /\ count isClose d = 0).
Proof.
  split.
  - apply (proj1 close_once_per_executeSearch calm silent 5 initialState
             (Ok ada)).
    vm_compute. reflexivity.
  - apply (proj2 close_once_per_executeSearch noSession steadyWriter url
             ["Cardiologist"] here 5 initialState
             (mkState [EvWrite MsgStarting (Ok tt)] []) (mkError "Failed to initialize web agent")
             (mkState [EvWrite MsgStarting (Ok tt);
                       EvStagehandInit (Throw down)] []));
      reflexivity.
Defined.

End Teardown.

(** ** The completion test *)

Module Completion.

Lemma startsWith_spec s pat :
  Js.startsWith s pat = true <-> exists post, s = (pat ++ post)%string.
Proof.
  revert s. induction pat as [| p pat IH]; intros s; cbn.
  - split; [intros _; exists s; reflexivity | reflexivity].
  - destruct s as [| c s]; cbn.
    + split; [discriminate | intros [post H]; discriminate].
    + rewrite andb_true_iff, Ascii.eqb_eq, IH. split.
      * intros [-> [post ->]]. exists post. reflexivity.
      * intros [post H]. inversion H; subst. split; [reflexivity |].
        exists post. reflexivity.
Qed.

Lemma includes_spec s pat :
  Js.includes s pat = true
  <-> exists pre post, s = (pre ++ pat ++ post)%string.
Proof.
  induction s as [| c s IH]; cbn [Js.includes];
    rewrite orb_true_iff, startsWith_spec.
  - split.
    + intros [[post H] | H]; [| discriminate].
      exists "", post. exact H.
    + intros (pre & post & H). left.
      destruct pre; cbn in H; [exists post; exact H | discriminate].
  - rewrite IH. split.
    + intros [[post H] | (pre & post & H)].
      * exists "", post. exact H.
      * exists (String c pre), post. cbn. rewrite H. reflexivity.
    + intros (pre & post & H). destruct pre as [| c' pre]; cbn in H.
      * left. exists post. exact H.
      * right. inversion H; subst. exists pre, post. reflexivity.
Qed.

Lemma toLowerCase_app a b :
  Js.toLowerCase (a ++ b) = (Js.toLowerCase a ++ Js.toLowerCase b)%string.
Proof. induction a as [| c a IH]; cbn; [| rewrite IH]; reflexivity. Qed.

Lemma toLowerCase_split s :
  forall x y,
    Js.toLowerCase s = (x ++ y)%string ->
    exists a b,
      s = (a ++ b)%string /\ Js.toLowerCase a = x /\ Js.toLowerCase b = y.
Proof.
  induction s as [| c s IH]; intros x y H.
  - destruct x; cbn in H; [| discriminate].
    exists "", "". cbn. auto.
  - destruct x as [| cx x]; cbn in H.
    + exists "", (String c s). cbn. auto.
    + inversion H; subst.
      destruct (IH _ _ H2) as (a & b & -> & <- & <-).
      exists (String c a), b. cbn. auto.
Qed.

Lemma includes_toLowerCase marker s :
  Js.toLowerCase marker = marker ->
  (Js.includes (Js.toLowerCase s) marker = true
   <-> containsIgnoringCase marker s).
Proof.
  intros Hlow. rewrite includes_spec. unfold containsIgnoringCase. split.
  - intros (pre' & post' & H).
    destruct (toLowerCase_split _ _ _ H) as (pre & rest & -> & _ & Hrest).
    destruct (toLowerCase_split _ _ _ Hrest) as (mid & post & -> & Hmid & _).
    exists pre, mid, post. rewrite Hlow. auto.
  - intros (pre & mid & post & -> & Hmid).
    exists (Js.toLowerCase pre), (Js.toLowerCase post).
    rewrite !toLowerCase_app, Hmid, Hlow. reflexivity.
Qed.

Lemma isCompletion_spec nextAction :
  isCompletion nextAction = true
  <-> containsIgnoringCase "complete" nextAction
      \/ containsIgnoringCase "finished" nextAction.
Proof.
  unfold isCompletion.
  rewrite orb_true_iff, !includes_toLowerCase by reflexivity. reflexivity.
Qed.

Example completion_upper : isCompletion "CLOSE: Search COMPLETED" = true.
Proof. reflexivity. Qed.

Example completion_in_tool_text : isCompletion "ACT: click Finished" = true.
Proof. reflexivity. Qed.

Example completion_absent : isCompletion "ACT: click the search button" = false.
Proof. reflexivity. Qed.

(** C4.  In an iteration of the agent loop whose planning step answers an
    action string that contains "complete" or "finished", the case of
    letters ignored, the action is not executed: the iteration leaves the
    loop by [break] in the very state the planner left, and what runs next,
    on that state, is the extraction, whose first event is the call of
    [page.extract]. *)
Theorem completion_skips_execution :
  forall world config consecutiveErrors fuel st pageState s1 nextAction s2,
    observe world st = (Ok pageState, s1) ->
    getNextAction world config pageState s1 = (Ok nextAction, s2) ->
    containsIgnoringCase "complete" nextAction
    \/ containsIgnoringCase "finished" nextAction ->
    iteration world config consecutiveErrors st = (IterBreak, s2)
    /\ loopThenExtract world config (S fuel) consecutiveErrors st
       = Some (extractResults world s2)
    /\ exists x,
         trace (snd (extractResults world s2)) = trace s2 ++ [EvExtract x].
Proof.
  intros world config n fuel st pageState s1 nextAction s2 Hobs Hplan Hdone.
  apply isCompletion_spec in Hdone.
  assert (Hiter : iteration world config n st = (IterBreak, s2)).
  { unfold iteration, loopBody, bind. rewrite Hobs, Hplan, Hdone.
    reflexivity. }
  split; [exact Hiter |]. split.
  - unfold loopThenExtract. cbn [searchLoop]. rewrite Hiter. reflexivity.
  - unfold extractResults, bind, call.
    exists (pageExtract world (trace s2)).
    destruct (pageExtract world (trace s2)); reflexivity.
Qed.

Import Scenario.

Lemma completion_skips_execution_witness :
  iteration doneWorld silent 0 initialState
  = (IterBreak,
     snd (getNextAction doneWorld silent "page"
            (mkState [EvObserve (Ok "page")] []))).
Proof.
  apply (@completion_skips_execution doneWorld silent 0 0 initialState
           "page" (mkState [EvObserve (Ok "page")] [])
           "CLOSE: Search Complete").
  - reflexivity.
  - vm_compute. reflexivity.
  - left. exists "CLOSE: Search ", "Complete", "". split; reflexivity.
Defined.

End Completion.

(** ** The agent loop *)

Section LoopHeads.

Variable world : World.
Variable config : WebAgentConfig.

Lemma Reaches_searchLoop n st n' st' :
  Reaches world config n st n' st' ->
  exists k, forall fuel,
    searchLoop world config (k + fuel) n st
    = searchLoop world config fuel n' st'.
Proof.
  induction 1 as [| n st n1 st1 n2 st2 Hiter _ [k IH]].
  - exists 0. reflexivity.
  - exists (S k). intros fuel. cbn [Nat.add searchLoop].
    rewrite Hiter. apply IH.
Qed.

(** A run of [executeSearch] whose navigation succeeded and whose loop
    reaches a head is, with enough fuel, the run of the rest of the loop
    from that head, followed by the teardown. *)
Lemma executeSearch_from_head st0 st1 n st :
  call (fun t => pageGoto world t (provider config))
       (EvGoto (provider config)) st0 = (Ok tt, st1) ->
  Reaches world config 0 st1 n st ->
  exists k, forall fuel,
    executeSearch world config (k + fuel) st0
    = closing world (loopThenExtract world config fuel n st).
Proof.
  intros Hgoto Hreach.
  destruct (Reaches_searchLoop Hreach) as [k Hk].
  exists k. intros fuel.
  unfold executeSearch, searchBody. rewrite Hgoto.
  unfold loopThenExtract. rewrite Hk. reflexivity.
Qed.

(** The counter at a loop head is below the threshold. *)
Lemma iteration_counter_bound n st n' st' :
  iteration world config n st = (IterContinue n', st') ->
  n' < maxConsecutiveErrors.
Proof.
  unfold iteration.
  destruct (loopBody world config st) as [[[|] | e] s].
  - discriminate.
  - intros H; inversion H; subst. unfold maxConsecutiveErrors. lia.
  - destruct (maxConsecutiveErrors <=? S n)%nat eqn:Hle; [discriminate |].
    apply Nat.leb_gt in Hle.
    destruct (screenshot world s) as [[[] | e'] s'']; [| discriminate].
    intros H; inversion H; subst. exact Hle.
Qed.

Lemma Reaches_counter_bound n st n' st' :
  Reaches world config n st n' st' ->
  n < maxConsecutiveErrors -> n' < maxConsecutiveErrors.
Proof.
  induction 1 as [| n st n1 st1 n2 st2 Hiter _ IH]; [auto |].
  intros _. apply IH. eapply iteration_counter_bound, Hiter.
Qed.

(** The [try] block of the loop body ends normally, without [break], only
    after a successful execution of the planned action. *)
Lemma loopBody_done_inv st st' :
  loopBody world config st = (Ok BodyDone, st') ->
  exists pageState s1 nextAction s2 s3,
    observe world st = (Ok pageState, s1)
    /\ getNextAction world config pageState s1 = (Ok nextAction, s2)
    /\ isCompletion nextAction = false
    /\ executeAction world nextAction s2 = (Ok tt, s3)
    /\ st' = log (EvDelay 1000) s3.
Proof.
  unfold loopBody, bind.
  destruct (observe world st) as [[pageState | e] s1] eqn:Hobs;
    [| discriminate].
  destruct (getNextAction world config pageState s1)
    as [[nextAction | e] s2] eqn:Hplan; [| discriminate].
  destruct (isCompletion nextAction) eqn:Hdone; [discriminate |].
  destruct (executeAction world nextAction s2) as [[[] | e] s3] eqn:Hact;
    [| discriminate].
  unfold delay, ret. intros H; inversion H; subst.
  exists pageState, s1, nextAction, s2, s3.
  repeat split; assumption.
Qed.

End LoopHeads.

Module AgentLoop.
Import Scenario.

Lemma closing_throw world e s :
  closing world (Some (Throw e, s))
  = Some (Throw (rethrown e (stagehandClose world (trace s))),
          log (EvClose (stagehandClose world (trace s))) s).
Proof.
  unfold closing, close, call.
  destruct (stagehandClose world (trace s)) as [[] | e']; reflexivity.
Qed.

(** C3.  In every iteration of the agent loop, whatever the value [n] of
    the consecutive-error counter at the loop head:
    - when the planned action is executed successfully, the iteration goes
      back to the loop head with the counter at zero, the reset coming
      right after the execution and before the visibility delay;
    - an iteration that goes back to the loop head either did so after a
      successful execution, with the counter at zero, or left the counter
      at [n + 1]: no other transition lowers it;
    - when an error brings the counter to 3, the iteration throws 'Too many
      consecutive errors' in the state the error left, the loop ends, and
      [executeSearch] goes straight to the teardown and throws: the result
      extractor is not invoked. *)
Theorem consecutive_error_counter :
  forall world config (n : nat) (st : State),
    (forall pageState s1 nextAction s2 s3,
        observe world st = (Ok pageState, s1) ->
        getNextAction world config pageState s1 = (Ok nextAction, s2) ->
        isCompletion nextAction = false ->
        executeAction world nextAction s2 = (Ok tt, s3) ->
        iteration world config n st
        = (IterContinue 0, log (EvDelay 1000) s3))
    /\ (forall n' st',
           iteration world config n st = (IterContinue n', st') ->
           (n' = 0
            /\ exists pageState s1 nextAction s2 s3,
                 observe world st = (Ok pageState, s1)
                 /\ getNextAction world config pageState s1
                    = (Ok nextAction, s2)
                 /\ isCompletion nextAction = false
                 /\ executeAction world nextAction s2 = (Ok tt, s3)
                 /\ st' = log (EvDelay 1000) s3)
           \/ (n' = S n /\ n' < maxConsecutiveErrors))
    /\ (forall e s,
           loopBody world config st = (Throw e, s) ->
           maxConsecutiveErrors <= S n ->
           iteration world config n st = (IterThrow tooManyErrors, s)
           /\ (forall fuel,
                  loopThenExtract world config (S fuel) n st
                  = Some (Throw tooManyErrors, s))
           /\ (forall st0 st1,
                  call (fun t => pageGoto world t (provider config))
                       (EvGoto (provider config)) st0 = (Ok tt, st1) ->
                  Reaches world config 0 st1 n st ->
                  exists k, forall fuel,
                    executeSearch world config (k + S fuel) st0
                    = Some (Throw (rethrown tooManyErrors
                                     (stagehandClose world (trace s))),
                            log (EvClose (stagehandClose world (trace s)))
                                s))).
Proof.
  intros world config n st. split; [| split].
  - intros pageState s1 nextAction s2 s3 Hobs Hplan Hdone Hact.
    unfold iteration, loopBody, bind.
    rewrite Hobs, Hplan, Hdone, Hact. reflexivity.
  - intros n' st' Hiter.
    pose proof (@iteration_counter_bound _ _ _ _ _ _ Hiter) as Hbound.
    unfold iteration in Hiter.
    destruct (loopBody world config st) as [[[|] | e] s] eqn:Hbody.
    + discriminate.
    + inversion Hiter; subst. left. split; [reflexivity |].
      apply loopBody_done_inv. exact Hbody.
    + destruct (maxConsecutiveErrors <=? S n)%nat; [discriminate |].
      destruct (screenshot world s) as [[[] | e'] s'']; [| discriminate].
      inversion Hiter; subst. right. auto.
  - intros e s Hbody Hle.
    assert (Hiter : iteration world config n st = (IterThrow tooManyErrors, s)).
    { unfold iteration. rewrite Hbody.
      apply Nat.leb_le in Hle. rewrite Hle. reflexivity. }
    assert (Hrest : forall fuel,
               loopThenExtract world config (S fuel) n st
               = Some (Throw tooManyErrors, s)).
    { intros fuel. unfold loopThenExtract. cbn [searchLoop].
      rewrite Hiter. reflexivity. }
    split; [exact Hiter |]. split; [exact Hrest |].
    intros st0 st1 Hgoto Hreach.
    destruct (@executeSearch_from_head _ _ _ _ _ _ Hgoto Hreach) as [k Hk].
    exists k. intros fuel. rewrite Hk, Hrest. apply closing_throw.
Qed.

Lemma consecutive_error_counter_witness :
  iteration calm silent 2 initialState
  = (IterContinue 0,
     log (EvDelay 1000)
         (snd (executeAction calm "ACT: click the guest access link"
                 (snd (getNextAction calm silent "page"
                         (snd (observe calm initialState)))))))
  /\ iteration blind silent 2 initialState
     = (IterThrow tooManyErrors, mkState [EvObserve (Throw down)] []).
Proof.
  split.
  - apply (proj1 (consecutive_error_counter calm silent 2 initialState)
             "page" (snd (observe calm initialState))
             "ACT: click the guest access link"
             (snd (getNextAction calm silent "page"
                     (snd (observe calm initialState)))));
      vm_compute; reflexivity.
  - apply (proj2 (proj2 (consecutive_error_counter blind silent 2
                           initialState)) down);
      [reflexivity | unfold maxConsecutiveErrors; lia].
Defined.

(** Two failed observations raise the counter to 2; the third aborts. *)
Example blind_counter :
  Reaches blind silent 0 initialState 2
          (mkState [ EvObserve (Throw down); EvScreenshot (Ok tt);
                     EvObserve (Throw down); EvScreenshot (Ok tt) ] []).
Proof. repeat (eapply ReachesNext; [reflexivity |]). apply ReachesHere. Qed.

(** The search process in which the page can be neither observed nor
    captured: the first failed capture ends the loop after a single
    observation, and [executeSearch] throws the capture's error to its
    caller. *)
Lemma capture_failure_ends_search :
  executeSearch blindNoCapture silent 5 initialState
  = Some (Throw (mkError "capture failed"),
          mkState [ EvGoto url (Ok tt);
                    EvObserve (Throw down);
                    EvScreenshot (Throw (mkError "capture failed"));
                    EvClose (Ok tt) ] [])
  /\ count isObserve [ EvGoto url (Ok tt);
                       EvObserve (Throw down);
                       EvScreenshot (Throw (mkError "capture failed"));
                       EvClose (Ok tt) ] = 1.
Proof. split; reflexivity. Qed.

(** C7 (amended).  On the error-recovery path of an iteration, below the
    error threshold, the diagnostic screenshot is awaited inside the
    [catch] block without a guard of its own.  When the capture succeeds,
    the iteration goes back to the loop head (Observing) with the counter
    raised and without the visibility delay.  When the capture throws, its
    error is not ignored: it leaves the loop, no further observation is
    made, and [executeSearch] throws it to its caller after the
    teardown. *)
Theorem capture_failure_propagates :
  forall world config (n : nat) (st : State) e s,
    loopBody world config st = (Throw e, s) ->
    S n < maxConsecutiveErrors ->
    (forall s',
        screenshot world s = (Ok tt, s') ->
        iteration world config n st = (IterContinue (S n), s')
        /\ s' = log (EvScreenshot (Ok tt)) s
        /\ forall fuel,
             searchLoop world config (S fuel) n st
             = searchLoop world config fuel (S n) s')
    /\ (forall e' s',
           screenshot world s = (Throw e', s') ->
           iteration world config n st = (IterThrow e', s')
           /\ (forall fuel,
                  loopThenExtract world config (S fuel) n st
                  = Some (Throw e', s'))
           /\ (forall st0 st1,
                  call (fun t => pageGoto world t (provider config))
                       (EvGoto (provider config)) st0 = (Ok tt, st1) ->
                  Reaches world config 0 st1 n st ->
                  exists k, forall fuel,
                    executeSearch world config (k + S fuel) st0
                    = Some (Throw (rethrown e'
                                     (stagehandClose world (trace s'))),
                            log (EvClose (stagehandClose world (trace s')))
                                s'))).
Proof.
  intros world config n st e s Hbody Hlt.
  assert (Hgt : (maxConsecutiveErrors <=? S n)%nat = false)
    by (apply Nat.leb_gt; exact Hlt).
  split.
  - intros s' Hshot.
    assert (Hiter : iteration world config n st = (IterContinue (S n), s')).
    { unfold iteration. rewrite Hbody, Hgt, Hshot. reflexivity. }
    split; [exact Hiter |]. split.
    + unfold screenshot, call in Hshot. inversion Hshot as [[Hr Hs]].
      rewrite Hr. reflexivity.
    + intros fuel. cbn [searchLoop]. rewrite Hiter. reflexivity.
  - intros e' s' Hshot.
    assert (Hiter : iteration world config n st = (IterThrow e', s')).
    { unfold iteration. rewrite Hbody, Hgt, Hshot. reflexivity. }
    assert (Hrest : forall fuel,
               loopThenExtract world config (S fuel) n st
               = Some (Throw e', s')).
    { intros fuel. unfold loopThenExtract. cbn [searchLoop].
      rewrite Hiter. reflexivity. }
    split; [exact Hiter |]. split; [exact Hrest |].
    intros st0 st1 Hgoto Hreach.
    destruct (@executeSearch_from_head _ _ _ _ _ _ Hgoto Hreach) as [k Hk].
    exists k. intros fuel. rewrite Hk, Hrest. apply closing_throw.
Qed.

Lemma capture_failure_propagates_witness :
  iteration blind silent 0 initialState
  = (IterContinue 1,
     mkState [EvObserve (Throw down); EvScreenshot (Ok tt)] [])
  /\ iteration blindNoCapture silent 0 initialState
     = (IterThrow (mkError "capture failed"),
        mkState [ EvObserve (Throw down);
                  EvScreenshot (Throw (mkError "capture failed")) ] []).
Proof.
  split.
  - apply (proj1 (@capture_failure_propagates blind silent 0 initialState
                    down (mkState [EvObserve (Throw down)] [])
                    eq_refl ltac:(unfold maxConsecutiveErrors; lia))).
    reflexivity.
  - apply (proj2 (@capture_failure_propagates blindNoCapture silent 0
                    initialState down (mkState [EvObserve (Throw down)] [])
                    eq_refl ltac:(unfold maxConsecutiveErrors; lia))).
    reflexivity.
Defined.

End AgentLoop.

(** ** The action executor *)

Module Executor.
Import Scenario.

Lemma raceAct_pending world action st :
  pageAct world (trace st) action = ActPending ->
  raceAct world action st
  = (Throw (mkError "Action timeout"),
     grow st [EvAct action ActPending; EvTimeout 10000]).
Proof.
  intros H. unfold raceAct. rewrite H. f_equal. grown.
Qed.

Lemma Raced_head action r d :
  Raced action r d -> exists o rest, d = EvAct action o :: rest.
Proof. intros H; destruct H; eauto. Qed.

Lemma Raced_executor_events action r d :
  Raced action r d -> forallb (isExecutorEvent action) d = true.
Proof.
  intros H; destruct H; cbn; rewrite String.eqb_refl; reflexivity.
Qed.

(** C6.  For every planned action:
    - when the underlying [page.act] call does not settle, the race of the
      action executor rejects with the error 'Action timeout' once the
      timer of the configured timeout, 10000 ms, has fired;
    - when [page.act] rejects, the race fails the attempt at once, with the
      error of the rejection and without waiting for the timer; when
      [page.act] resolves, the attempt succeeds and the executor returns
      after this single call, without a retry;
    - when an attempt fails, by timeout or by a rejection of [page.act],
      the retry executor waits its backoff delay and calls [page.act] again
      with the same action;
    - whatever happens, the executor only calls [page.act] with the action
      it was given and sets timers: it asks for no new plan and leaves the
      action history as it is;
    - when [page.act] never settles, the executor makes three attempts on
      the same action and throws the composite error that ends with 'Action
      timeout'; when [page.act] rejects every call, it makes three attempts
      on the same action and throws the composite error that ends with the
      message of the last rejection. *)
Theorem action_timeout_and_retry :
  forall world (action : string) (st : State),
    (pageAct world (trace st) action = ActPending ->
     raceAct world action st
     = (Throw (mkError "Action timeout"),
        grow st [EvAct action ActPending; EvTimeout actionTimeout])
     /\ actionTimeout = 10000%Z
     /\ exists o rest,
          trace (snd (executeAction world action st))
          = trace st ++ EvAct action ActPending :: EvTimeout 10000
                     :: EvDelay 1000 :: EvAct action o :: rest)
    /\ (forall e,
           pageAct world (trace st) action = ActRejected e ->
           raceAct world action st
           = (Throw e, grow st [EvAct action (ActRejected e)])
           /\ exists o rest,
                trace (snd (executeAction world action st))
                = trace st ++ EvAct action (ActRejected e)
                           :: EvDelay 1000 :: EvAct action o :: rest)
    /\ (pageAct world (trace st) action = ActResolved ->
        raceAct world action st = (Ok tt, grow st [EvAct action ActResolved])
        /\ executeAction world action st
           = (Ok tt, grow st [EvAct action ActResolved]))
    /\ (forall e s1,
           raceAct world action st = (Throw e, s1) ->
           exists o rest,
             trace (snd (executeAction world action st))
             = trace s1 ++ EvDelay 1000 :: EvAct action o :: rest)
    /\ (forall r st',
           executeAction world action st = (r, st') ->
           exists d,
             st' = grow st d
             /\ forallb (isExecutorEvent action) d = true
             /\ actionHistory st' = actionHistory st)
    /\ ((forall t, pageAct world t action = ActPending) ->
        executeAction world action st
        = (Throw (mkError (("Failed to execute action: " ++ action)
                           ++ ": Action timeout")),
           grow st [ EvAct action ActPending; EvTimeout 10000; EvDelay 1000;
                     EvAct action ActPending; EvTimeout 10000; EvDelay 2000;
                     EvAct action ActPending; EvTimeout 10000;
                     EvDelay 3000 ]))
    /\ (forall e,
           (forall t, pageAct world t action = ActRejected e) ->
           executeAction world action st
           = (Throw (mkError (("Failed to execute action: " ++ action)
                              ++ ": " ++ message e)),
              grow st [ EvAct action (ActRejected e); EvDelay 1000;
                        EvAct action (ActRejected e); EvDelay 2000;
                        EvAct action (ActRejected e); EvDelay 3000 ])).
Proof.
  intros world action st.
  assert (Hretry : forall e s1,
             raceAct world action st = (Throw e, s1) ->
             exists o rest,
               trace (snd (executeAction world action st))
               = trace s1 ++ EvDelay 1000 :: EvAct action o :: rest).
  { intros e s1 H1. unfold executeAction.
    rewrite RetryFacts.retryOperation_unfold, H1.
    destruct (raceAct world action (log (EvDelay 1000) s1))
      as [[[] | e2] s2] eqn:H2;
      destruct (@emits_raceAct _ _ _ _ _ H2) as (d2 & -> & Hd2);
      destruct (Raced_head Hd2) as (o & rest & ->).
    + exists o, rest. cbn [snd grow log trace].
      rewrite <- app_assoc. reflexivity.
    + destruct (raceAct world action (log (EvDelay 2000) _))
        as [[[] | e3] s3] eqn:H3;
        destruct (@emits_raceAct _ _ _ _ _ H3) as (d3 & -> & Hd3);
        exists o; eexists; cbn [snd grow log trace];
        rewrite <- !app_assoc; cbn [app]; reflexivity. }
  split; [| split; [| split; [| split; [| split; [| split]]]]].
  - intros H. pose proof (raceAct_pending world action st H) as Hrace.
    split; [exact Hrace |]. split; [reflexivity |].
    destruct (Hretry _ _ Hrace) as (o & rest & Htrace).
    exists o, rest. rewrite Htrace. cbn [grow trace].
    rewrite <- app_assoc. reflexivity.
  - intros e H.
    assert (Hrace : raceAct world action st
                    = (Throw e, grow st [EvAct action (ActRejected e)])).
    { unfold raceAct. rewrite H. f_equal. grown. }
    split; [exact Hrace |].
    destruct (Hretry _ _ Hrace) as (o & rest & Htrace).
    exists o, rest. rewrite Htrace. cbn [grow trace].
    rewrite <- app_assoc. reflexivity.
  - intros H.
    assert (Hrace : raceAct world action st
                    = (Ok tt, grow st [EvAct action ActResolved])).
    { unfold raceAct. rewrite H. f_equal. grown. }
    split; [exact Hrace |]. unfold executeAction.
    rewrite RetryFacts.retryOperation_unfold, Hrace. reflexivity.
  - exact Hretry.
  - intros r st' Hrun.
    destruct (@emits_retryOperation _ _ _ _ (emits_raceAct world action)
                _ _ _ Hrun) as (d & -> & Hd).
    exists d. split; [reflexivity |]. split.
    + revert Hd.
      apply (@Retried_all _ (Raced action)
               (fun d => forallb (isExecutorEvent action) d = true)); auto.
      * intros d1 d2 H1 H2. rewrite forallb_app, H1, H2. reflexivity.
      * intros r' d'. apply Raced_executor_events.
    + assert (Hp : pushed d = []).
      { revert Hd.
        apply (@Retried_all _ (Raced action) (fun d => pushed d = [])); auto.
        - intros d1 d2 H1 H2. rewrite pushed_app, H1, H2. reflexivity.
        - intros r' d' H'. apply (Raced_quiet H'). }
      cbn [grow actionHistory]. rewrite Hp, app_nil_r. reflexivity.
  - intros Hpending. unfold executeAction.
    rewrite RetryFacts.retryOperation_unfold.
    rewrite !raceAct_pending by apply Hpending.
    f_equal. grown.
  - intros e Hrejected.
    assert (Hrace : forall s, raceAct world action s
                              = (Throw e, log (EvAct action (ActRejected e)) s)).
    { intros s. unfold raceAct. rewrite Hrejected. reflexivity. }
    unfold executeAction.
    rewrite RetryFacts.retryOperation_unfold, !Hrace.
    f_equal. grown.
Qed.

Lemma action_timeout_and_retry_witness :
  (raceAct stuck "ACT: click" initialState
   = (Throw (mkError "Action timeout"),
      mkState [EvAct "ACT: click" ActPending; EvTimeout 10000] [])
   /\ executeAction stuck "ACT: click" initialState
      = (Throw (mkError "Failed to execute action: ACT: click: Action timeout"),
         mkState [ EvAct "ACT: click" ActPending; EvTimeout 10000;
                   EvDelay 1000;
                   EvAct "ACT: click" ActPending; EvTimeout 10000;
                   EvDelay 2000;
                   EvAct "ACT: click" ActPending; EvTimeout 10000;
                   EvDelay 3000 ] []))
  /\ (raceAct flaky "ACT: click" initialState
      = (Throw (mkError "element not found"),
         mkState [EvAct "ACT: click"
                        (ActRejected (mkError "element not found"))] [])
      /\ executeAction broken "ACT: click" initialState
         = (Throw (mkError
                     "Failed to execute action: ACT: click: element not found"),
            mkState [ EvAct "ACT: click"
                            (ActRejected (mkError "element not found"));
                      EvDelay 1000;
                      EvAct "ACT: click"
                            (ActRejected (mkError "element not found"));
                      EvDelay 2000;
                      EvAct "ACT: click"
                            (ActRejected (mkError "element not found"));
                      EvDelay 3000 ] [])).
Proof.
  split; split.
  - apply (proj1 (proj1 (action_timeout_and_retry stuck "ACT: click"
                           initialState) eq_refl)).
  - apply (proj1 (proj2 (proj2 (proj2 (proj2 (proj2
             (action_timeout_and_retry stuck "ACT: click" initialState))))))).
    intros t. reflexivity.
  - apply (proj1 (proj1 (proj2 (action_timeout_and_retry flaky "ACT: click"
                                  initialState))
                    (mkError "element not found") eq_refl)).
  - apply (proj2 (proj2 (proj2 (proj2 (proj2 (proj2
             (action_timeout_and_retry broken "ACT: click" initialState))))))
             (mkError "element not found")).
    intros t. reflexivity.
Defined.

(** A rejected first attempt is followed by a second attempt on the same
    action, after the first backoff delay and without a timer. *)
Example flaky_retry :
  executeAction flaky "ACT: click" initialState
  = (Ok tt,
     mkState [ EvAct "ACT: click" (ActRejected (mkError "element not found"));
               EvDelay 1000;
               EvAct "ACT: click" ActResolved ] []).
Proof. reflexivity. Qed.

Example slowStart_retry :
  executeAction slowStart "ACT: click" initialState
  = (Ok tt,
     mkState [ EvAct "ACT: click" ActPending; EvTimeout 10000; EvDelay 1000;
               EvAct "ACT: click" ActResolved ] []).
Proof. reflexivity. Qed.

End Executor.

(** ** The action planner and the progress sink *)

Module Planner.
Import Scenario.

Section WithConfig.

Variable world : World.
Variable config : WebAgentConfig.






(** The entries one run of the retry executor appends when a failed
    attempt appends none: those of the attempt that succeeded. *)
Lemma Retried_pushed {T} (P : Result T -> Trace -> Prop) errorMessage :
  (forall e d, P (Throw e) d -> pushed d = []) ->
  forall remaining i lastError r d,
    Retried P errorMessage remaining i lastError r d ->
    match r with
    | Ok v => exists d1 d2, d = d1 ++ d2 /\ pushed d1 = [] /\ P (Ok v) d2
    | Throw _ => pushed d = []
    end.
Proof.
  intros Hfail remaining.
  induction remaining as [| n IH]; intros i lastError r d H; cbn in H.
  - destruct H as [-> ->]. reflexivity.
  - destruct H as [(v & -> & H) | (e & d1 & d2 & H1 & -> & H2)].
    + exists [], d. auto.
    + specialize (IH _ _ _ _ H2). destruct r as [v | e'].
      * destruct IH as (d3 & d4 & -> & Hd3 & Hd4).
        exists (d1 ++ EvDelay (1000 * (Z.of_nat i + 1)) :: d3), d4.
        rewrite <- app_assoc. cbn [app]. split; [reflexivity |].
        split; [| exact Hd4].
        rewrite pushed_app, (Hfail _ _ H1). cbn [pushed app]. exact Hd3.
      * rewrite pushed_app, (Hfail _ _ H1). cbn [pushed app]. exact IH.
Qed.

Lemma Planned_reliable r d :
  SinkReliable config -> Planned config r d ->
  match r with
  | Ok action => pushed d = [action] /\ WellFormed action
  | Throw _ => pushed d = []
  end.
Proof.
  intros Hrel H. destruct H as [prompt e | prompt p e sink t Hsink Hthrow
                                | prompt p | prompt p Hnone].
  - reflexivity.
  - exfalso. destruct Hrel as [Hnone | (sink' & Hsink' & Hok)].
    + congruence.
    + rewrite Hsink in Hsink'. inversion Hsink'; subst.
      rewrite Hok in Hthrow. discriminate.
  - split; [reflexivity | apply WellFormed_formatAction].
  - split; [reflexivity | apply WellFormed_formatAction].
Qed.

End WithConfig.

End Planner.

Module Sink.
Import Scenario Planner.




End Sink.

(** ** The action history *)

Module History.
Import Scenario Planner.

(** One completed planning call, two entries: the sink failed after the
    first answer was appended, the retry appended the second answer.  The
    first entry is an action that was neither answered by the planner nor
    executed. *)
Lemma retried_planning_appends_twice :
  exists st',
    getNextAction calm hiccup "page" initialState
    = (Ok "ACT: type the specialty", st')
    /\ actionHistory st'
       = ["ACT: click the guest access link"; "ACT: type the specialty"]
    /\ List.length (actionHistory st') = 2.
Proof.
  eexists. split; [vm_compute; reflexivity |]. split; reflexivity.
Qed.

(** C2 (amended).  Over a whole search, the action history grows by
    exactly one entry per answer received from the language model: every
    planning attempt whose model call completed appended its action, of
    the shape "TOOL: instruction", and every call of [page.act] comes after
    the append of its action, so that a failed execution leaves the planned
    action on record.  When the progress sink cannot fail, a planning call
    that completes appended exactly the one action it answers and a
    planning call that fails appended nothing, so that N completed
    planning calls leave N entries. *)
Theorem history_records_every_answer :
  forall world config,
    (forall fuel st outcome st',
        executeSearch world config fuel st = Some (outcome, st') ->
        exists d,
          st' = grow st d
          /\ actionHistory st' = actionHistory st ++ pushed d
          /\ List.length (pushed d) = count isResponse d
          /\ Forall WellFormed (pushed d)
          /\ PlannedFirst d)
    /\ (SinkReliable config ->
        forall currentState st r st',
          getNextAction world config currentState st = (r, st') ->
          match r with
          | Ok action =>
              actionHistory st' = actionHistory st ++ [action]
              /\ WellFormed action
          | Throw _ => actionHistory st' = actionHistory st
          end).
Proof.
  intros world config. split.
  - intros fuel st outcome st' Hrun.
    destruct (@executeSearch_grow _ _ _ _ _ _ Hrun)
      as (g & d & tail & c & -> & [Hd Hfirst] & Htail).
    eexists. split; [reflexivity |]. split; [reflexivity |].
    remember (tail ++ [EvClose c]) as rest eqn:Hrest.
    assert (Htl : pushed rest = [] /\ count isResponse rest = 0
                  /\ acted rest = []).
    { subst rest. destruct Htail as [-> | [x ->]]; repeat split; reflexivity. }
    clear Hrest. destruct Htl as (Hp & Hr & Ha).
    change (EvGoto (provider config) g :: d ++ rest)
      with ([EvGoto (provider config) g] ++ d ++ rest).
    rewrite !pushed_app, !count_app, Hp, Hr, app_nil_r.
    cbn [pushed app]. split; [| split].
    + rewrite (tidy_booked Hd).
      change (count isResponse [EvGoto (provider config) g]) with 0. lia.
    + apply (tidy_shape Hd).
    + apply (@PlannedFirst_app [EvGoto (provider config) g] (d ++ rest));
        [apply PlannedFirst_no_acts; reflexivity |].
      apply (@PlannedFirst_app d rest); [exact Hfirst |].
      apply PlannedFirst_no_acts, Ha.
  - intros Hrel currentState st r st' Hrun.
    destruct (@emits_retryOperation _ _ _ _
                (emits_planOnce world config currentState) _ _ _ Hrun)
      as (d & -> & Hd).
    apply (@Retried_pushed _ (Planned config)) in Hd.
    2:{ intros e d' H'. apply (Planned_reliable Hrel H'). }
    cbn [grow actionHistory]. destruct r as [action | e].
    + destruct Hd as (d1 & d2 & -> & H1 & H2).
      destruct (Planned_reliable Hrel H2) as [Hp Hw].
      rewrite pushed_app, H1, Hp. auto.
    + rewrite Hd, app_nil_r. reflexivity.
Qed.

Lemma history_records_every_answer_witness :
  (exists d,
      finalStateOf (executeSearch calm silent 5 initialState)
      = grow initialState d
      /\ List.length (pushed d) = count isResponse d
      /\ PlannedFirst d)
  /\ actionHistory (snd (getNextAction calm silent "page" initialState))
     = [] ++ ["ACT: click the guest access link"].
Proof.
  split.
  - destruct (proj1 (history_records_every_answer calm silent)
                5 initialState (Ok ada)
                (finalStateOf (executeSearch calm silent 5 initialState)))
      as (d & Hst & _ & Hlen & _ & Hfirst).
    + vm_compute. reflexivity.
    + exists d. auto.
  - apply (proj2 (history_records_every_answer calm silent)
             (or_introl eq_refl) "page" initialState
             (Ok "ACT: click the guest access link")).
    vm_compute. reflexivity.
Defined.

End History.

(** * Properties of the rest of the code *)

(** ** Strings *)

Lemma append_empty_r (s : string) : (s ++ "")%string = s.
Proof. induction s as [| c s IH]; cbn; [| rewrite IH]; reflexivity. Qed.

Lemma append_assoc (a b c : string) :
  ((a ++ b) ++ c)%string = (a ++ b ++ c)%string.
Proof. induction a as [| x a IH]; cbn; [| rewrite IH]; reflexivity. Qed.

Lemma join_cons separator x y rest :
  Js.join separator (x :: y :: rest)
  = (x ++ separator ++ Js.join separator (y :: rest))%string.
Proof. reflexivity. Qed.

(** ** The request handler *)

Module PostFacts.
Import Route Post.

Lemma splitChar_nonempty sep s : splitChar sep s <> [].
Proof.
  destruct s as [| c rest]; cbn; [discriminate |].
  destruct (Ascii.eqb c sep); [discriminate |].
  destruct (splitChar sep rest); discriminate.
Qed.

(** Joining the pieces of a split with the separator gives the string
    back. *)
Lemma join_splitChar :
  forall (sep : ascii) (s : string),
    Js.join (String sep "") (splitChar sep s) = s.
Proof.
  intros sep s. induction s as [| c rest IH]; [reflexivity |].
  cbn [splitChar]. destruct (Ascii.eqb c sep) eqn:Hc.
  - apply Ascii.eqb_eq in Hc. subst c.
    destruct (splitChar sep rest) as [| piece pieces] eqn:Hsplit;
      [exfalso; eapply splitChar_nonempty, Hsplit |].
    rewrite join_cons, IH. reflexivity.
  - destruct (splitChar sep rest) as [| piece pieces] eqn:Hsplit;
      [exfalso; eapply splitChar_nonempty, Hsplit |].
    destruct pieces as [| piece' pieces].
    + cbn [Js.join] in *. rewrite IH. reflexivity.
    + rewrite join_cons in *. rewrite <- IH. reflexivity.
Qed.

(** A split has one piece more than the separator has occurrences. *)
Lemma length_splitChar sep s :
  List.length (splitChar sep s) = S (occurrences sep s).
Proof.
  induction s as [| c rest IH]; [reflexivity |].
  cbn [splitChar occurrences]. destruct (Ascii.eqb c sep).
  - cbn [List.length]. rewrite IH. reflexivity.
  - destruct (splitChar sep rest) as [| piece pieces];
      cbn [List.length] in *; lia.
Qed.

(** Splitting the join of pieces that do not hold the separator gives the
    pieces back. *)
Theorem splitChar_join :
  forall (sep : ascii) (pieces : list string),
    pieces <> [] ->
    Forall (fun piece => occurrences sep piece = 0) pieces ->
    splitChar sep (Js.join (String sep "") pieces) = pieces.
Proof.
  intros sep pieces Hne Hclean.
  induction pieces as [| piece rest IH]; [congruence |]. clear Hne.
  inversion Hclean as [| ? ? Hpiece Hrest]; subst.
  assert (Hhead : forall tail,
             splitChar sep (piece ++ tail)
             = match splitChar sep tail with
               | first :: others => (piece ++ first)%string :: others
               | [] => [piece]
               end).
  { clear IH Hclean Hrest. induction piece as [| c piece IHp]; intros tail.
    - cbn. destruct (splitChar sep tail) eqn:H; [| reflexivity].
      exfalso. eapply splitChar_nonempty, H.
    - cbn [occurrences] in Hpiece.
      destruct (Ascii.eqb c sep) eqn:Hc; [discriminate |].
      cbn [append splitChar]. rewrite Hc, IHp by exact Hpiece.
      destruct (splitChar sep tail); reflexivity. }
  destruct rest as [| next rest].
  - cbn [Js.join]. rewrite <- (append_empty_r piece) at 1.
    rewrite Hhead. cbn. rewrite append_empty_r. reflexivity.
  - rewrite join_cons, Hhead. cbn [append splitChar].
    rewrite Ascii.eqb_refl, IH by (discriminate || assumption).
    rewrite append_empty_r. reflexivity.
Qed.

Lemma splitChar_join_witness :
  splitChar "|" (Js.join "|" ["Primary Care Physician"; "Orthopedist";
                              "Orthopedic Spine Specialist"])
  = ["Primary Care Physician"; "Orthopedist"; "Orthopedic Spine Specialist"].
Proof.
  apply (@splitChar_join "|"%char); [discriminate |].
  repeat constructor.
Defined.

Lemma isProviderKey_inv v :
  isProviderKey v = true ->
  exists key url,
    v = Js.Str key /\ providerUrlOf key = Some url /\ Js.truthy v = true.
Proof.
  destruct v as [| | b | x | key | items | fields]; try discriminate.
  unfold isProviderKey, providerUrlOf, PROVIDER_URLS.
  cbn [map fst existsb urlIn].
  rewrite !orb_true_iff.
  intros [H | [H | [H | H]]]; try discriminate;
    apply String.eqb_eq in H; subst key; eexists _, _;
    (split; [reflexivity | split; reflexivity]).
Qed.

(** Closes a goal whose run ended in a rejection or an exception although
    it is assumed to have been accepted. *)
Ltac rejected Hrun :=
  first [ discriminate Hrun
        | inversion Hrun; subst; discriminate ].

Lemma accepted_iff :
  forall body,
    (exists verdict,
        validateRequest body = Ok verdict /\ isValid verdict = true)
    <-> Acceptable body.
Proof.
  intros body. split.
  - intros (verdict & Hrun & Hvalid). unfold validateRequest in Hrun.
    destruct body as [| | b | x | s | items | fields];
      cbn [Js.getProp bindResult Js.truthy negb] in Hrun;
      try rejected Hrun.
    destruct (Js.truthy (Js.lookup "query" fields)) eqn:Hq;
      cbn [negb] in Hrun; [| rejected Hrun].
    destruct (Js.truthy (Js.lookup "provider" fields)) eqn:Hp;
      cbn [negb] in Hrun; [| rejected Hrun].
    destruct (Js.lookup "location" fields)
      as [| | b | x | s | items | locFields] eqn:Hloc.
    7:{ cbn [Js.getProp bindResult Js.truthy negb] in Hrun.
        destruct (Js.truthy (Js.lookup "lat" locFields)) eqn:Hlat;
          cbn [negb] in Hrun; [| rejected Hrun].
        destruct (Js.truthy (Js.lookup "lng" locFields)) eqn:Hlng;
          cbn [negb] in Hrun; [| rejected Hrun].
        destruct (Js.truthy (Js.lookup "address" locFields)) eqn:Haddr;
          cbn [negb] in Hrun; [| rejected Hrun].
        destruct (isProviderKey (Js.lookup "provider" fields)) eqn:Hkey;
          cbn [negb] in Hrun; [| rejected Hrun].
        exists fields, locFields. repeat split; assumption || reflexivity. }
    all: destruct (Js.truthy _) in Hrun;
      cbn [negb Js.getProp bindResult Js.truthy] in Hrun; rejected Hrun.
  - intros (fields & locFields & -> & Hloc & Hq & Hkey & Hlat & Hlng & Haddr).
    destruct (isProviderKey_inv _ Hkey) as (key & url & _ & _ & Hp).
    exists (mkValidation true None). split; [| reflexivity].
    unfold validateRequest. cbn [Js.getProp bindResult].
    rewrite Hq, Hp, Hloc. cbn [negb Js.truthy Js.getProp bindResult].
    rewrite Hlat, Hlng, Haddr, Hkey. reflexivity.
Qed.

(** X1.  The validator accepts exactly the requests described by
    [Acceptable], and its verdict on them carries no error message. *)
Theorem validateRequest_accepts_iff :
  forall body,
    validateRequest body = Ok (mkValidation true None) <-> Acceptable body.
Proof.
  intros body. rewrite <- accepted_iff. split.
  - intros H. eexists. split; [exact H | reflexivity].
  - intros (verdict & Hrun & Hvalid). rewrite Hrun. f_equal.
    unfold validateRequest in Hrun.
    destruct body as [| | b | x | s | items | fields];
      cbn [Js.getProp bindResult Js.truthy negb] in Hrun;
      try rejected Hrun.
    repeat (destruct (Js.truthy _) in Hrun; cbn [negb] in Hrun;
            [| rejected Hrun]).
    repeat (destruct (Js.getProp _ _) as [? | ?] in Hrun;
            cbn [bindResult] in Hrun; [| rejected Hrun];
            destruct (Js.truthy _) in Hrun; cbn [negb] in Hrun;
            [| rejected Hrun]).
    destruct (isProviderKey _) in Hrun; cbn [negb] in Hrun;
      [| rejected Hrun].
    inversion Hrun. reflexivity.
Qed.

Lemma validateRequest_accepts_iff_witness :
  validateRequest goodRequest = Ok (mkValidation true None).
Proof.
  apply (proj2 (validateRequest_accepts_iff goodRequest)).
  eexists _, _. repeat split; reflexivity.
Defined.

(** X2.  The validator throws on [null] and on [undefined], and on nothing
    else: every other JSON value gets a verdict. *)
Theorem validateRequest_throws_iff :
  forall body,
    (exists e, validateRequest body = Throw e)
    <-> body = Js.Null \/ body = Js.Undefined.
Proof.
  intros body. split.
  - intros [e Hrun]. unfold validateRequest in Hrun.
    destruct body as [| | b | x | s | items | fields]; auto;
      cbn [Js.getProp bindResult Js.truthy negb] in Hrun;
      try discriminate.
    destruct (Js.truthy (Js.lookup "query" fields));
      cbn [negb] in Hrun; [| discriminate].
    destruct (Js.truthy (Js.lookup "provider" fields));
      cbn [negb] in Hrun; [| discriminate].
    destruct (Js.lookup "location" fields)
      as [| | b | x | s | items | locFields].
    7:{ cbn [Js.getProp bindResult Js.truthy negb] in Hrun.
        repeat (destruct (Js.truthy _) in Hrun; cbn [negb] in Hrun;
                [| discriminate]).
        destruct (isProviderKey _) in Hrun; discriminate. }
    1, 2: cbn [Js.truthy negb Js.getProp bindResult] in Hrun; discriminate.
    all: destruct (Js.truthy _) in Hrun;
      cbn [Js.truthy negb Js.getProp bindResult] in Hrun; discriminate.
  - intros [-> | ->]; eexists; reflexivity.
Qed.

Lemma validateRequest_throws_iff_witness :
  exists e, validateRequest Js.Null = Throw e.
Proof.
  apply (proj2 (validateRequest_throws_iff Js.Null)). left. reflexivity.
Defined.

(** A split is never empty, so only a [null] content gives no
    specialists. *)
Lemma processQuery_no_specialists chat query :
  processQuery chat query = Ok (QuerySpecialists []) -> chat query = Ok None.
Proof.
  unfold processQuery. destruct (chat query) as [[text |] | e];
    cbn [bindResult]; [| reflexivity | discriminate].
  destruct (String.eqb text "NOT_MEDICAL_QUERY"); [discriminate |].
  intros H. inversion H as [Hsplit].
  exfalso. eapply splitChar_nonempty, Hsplit.
Qed.

Lemma splitChar_pieces sep s :
  Forall (fun piece => occurrences sep piece = 0) (splitChar sep s).
Proof.
  induction s as [| c rest IH]; [repeat constructor |].
  cbn [splitChar]. destruct (Ascii.eqb c sep) eqn:Hc.
  - constructor; [reflexivity | exact IH].
  - destruct (splitChar sep rest) as [| piece pieces];
      [repeat constructor; cbn [occurrences]; rewrite Hc; reflexivity |].
    inversion IH as [| ? ? Hpiece Hpieces]; subst.
    constructor; [| exact Hpieces].
    cbn [occurrences]. rewrite Hc, Hpiece. reflexivity.
Qed.

(** X3.  The specialist types [processQuery] returns are the model's text
    cut at every bar and nothing else: joined with bars they give the text
    back, untrimmed, and there is one more of them than there are bars in
    the text, whether that makes three or not. *)
Theorem processQuery_specialists :
  forall chat query specialists,
    processQuery chat query = Ok (QuerySpecialists specialists) ->
    specialists <> [] ->
    exists text,
      chat query = Ok (Some text)
      /\ text <> "NOT_MEDICAL_QUERY"
      /\ Js.join "|" specialists = text
      /\ List.length specialists = S (occurrences "|" text)
      /\ Forall (fun piece => occurrences "|" piece = 0) specialists.
Proof.
  intros chat query specialists Hrun Hsome. unfold processQuery in Hrun.
  destruct (chat query) as [[text |] | e]; cbn [bindResult] in Hrun;
    [| inversion Hrun; congruence | discriminate].
  destruct (String.eqb text "NOT_MEDICAL_QUERY") eqn:Htext; [discriminate |].
  inversion Hrun; subst specialists. exists text.
  split; [reflexivity |].
  split; [apply String.eqb_neq, Htext |].
  split; [apply join_splitChar |].
  split; [apply length_splitChar | apply splitChar_pieces].
Qed.

Lemma processQuery_specialists_witness :
  exists text,
    (fun _ : Js.Value => Ok (Some "Primary Care Physician|Orthopedist")) Js.Null
    = Ok (Some text)
    /\ text <> "NOT_MEDICAL_QUERY"
    /\ Js.join "|" ["Primary Care Physician"; "Orthopedist"] = text
    /\ List.length ["Primary Care Physician"; "Orthopedist"]
       = S (occurrences "|" text)
    /\ Forall (fun piece => occurrences "|" piece = 0)
              ["Primary Care Physician"; "Orthopedist"].
Proof.
  apply (@processQuery_specialists
           (fun _ => Ok (Some "Primary Care Physician|Orthopedist"%string))
           Js.Null ["Primary Care Physician"%string; "Orthopedist"%string]).
  - reflexivity.
  - discriminate.
Defined.

(** X4.  [POST] starts the search process, and answers with the event
    stream, exactly when the request is acceptable, the model answered the
    query with a text other than NOT_MEDICAL_QUERY, and both Browserbase
    variables are set; the process then gets a directory address that
    exists in the provider table and the pieces of the model's text. *)
Theorem POST_streams_iff :
  forall requestJson chat env url specialists location,
    POST requestJson chat env = EventStream url specialists location
    <-> exists body query text provider directory,
          requestJson = Ok body
          /\ Acceptable body
          /\ Js.getProp body "query" = Ok query
          /\ chat query = Ok (Some text)
          /\ text <> "NOT_MEDICAL_QUERY"
          /\ specialists = splitChar "|" text
          /\ isSet (BROWSERBASE_API_KEY env) = true
          /\ isSet (BROWSERBASE_PROJECT_ID env) = true
          /\ Js.getProp body "provider" = Ok (Js.Str provider)
          /\ providerUrlOf provider = Some directory
          /\ url = Some directory
          /\ Js.getProp body "location" = Ok location.
Proof.
  intros requestJson chat env url specialists location. split.
  - unfold POST, handle. intros Hrun.
    destruct requestJson as [body | e]; cbn [bindResult] in Hrun;
      [| discriminate].
    destruct (validateRequest body) as [verdict | e] eqn:Hverdict;
      cbn [bindResult] in Hrun; [| discriminate].
    destruct (isValid verdict) eqn:Hvalid; cbn [negb] in Hrun;
      [| discriminate].
    assert (Hok : Acceptable body).
    { apply accepted_iff. eauto. }
    pose proof Hok as (fields & locFields & -> & Hloc & Hq & Hkey & Hrest).
    destruct (isProviderKey_inv _ Hkey) as (key & directory & Hp & Hurl & _).
    cbn [Js.getProp bindResult] in Hrun.
    unfold processQuery in Hrun.
    destruct (chat (Js.lookup "query" fields)) as [[text |] | e] eqn:Hchat;
      cbn [bindResult] in Hrun; try discriminate.
    destruct (String.eqb text "NOT_MEDICAL_QUERY") eqn:Htext;
      [discriminate |].
    destruct (splitChar "|" text) as [| piece pieces] eqn:Hsplit;
      [discriminate |].
    destruct (isSet (BROWSERBASE_API_KEY env)) eqn:Hapi;
      cbn [negb orb] in Hrun; [| discriminate].
    destruct (isSet (BROWSERBASE_PROJECT_ID env)) eqn:Hproject;
      cbn [negb orb] in Hrun; [| discriminate].
    inversion Hrun; subst.
    exists (Js.Object fields), (Js.lookup "query" fields), text, key,
      directory.
    rewrite Hp. cbn [providerUrlOfValue Js.getProp].
    repeat split; try assumption; try reflexivity.
    + apply String.eqb_neq. exact Htext.
    + symmetry. exact Hsplit.
    + rewrite Hp. reflexivity.
  - intros (body & query & text & provider & directory & -> & Hok & Hquery
            & Hchat & Htext & -> & Hapi & Hproject & Hprov & Hurl & ->
            & Hloc).
    apply accepted_iff in Hok.
    destruct Hok as (verdict & Hverdict & Hvalid).
    unfold POST, handle. cbn [bindResult].
    rewrite Hverdict. cbn [bindResult]. rewrite Hvalid. cbn [negb].
    rewrite Hquery. cbn [bindResult]. unfold processQuery.
    rewrite Hchat. cbn [bindResult].
    apply String.eqb_neq in Htext. rewrite Htext.
    destruct (splitChar "|" text) as [| piece pieces] eqn:Hsplit;
      [exfalso; eapply splitChar_nonempty, Hsplit |].
    rewrite Hapi, Hproject. cbn [negb orb].
    rewrite Hprov, Hloc. cbn [bindResult providerUrlOfValue].
    rewrite Hurl. reflexivity.
Qed.

Lemma POST_streams_iff_witness :
  POST (Ok goodRequest)
       (fun _ => Ok (Some "Primary Care Physician|Orthopedist")) credentials
  = EventStream (Some "https://www.aetna.com/dsepublic/#/contentPage?page=providerSearchLanding")
                ["Primary Care Physician"; "Orthopedist"]
                (Js.Object [ ("lat", Js.Number (S754_finite false 3 2));
                             ("lng", Js.Number (S754_finite true 5 4));
                             ("address", Js.Str "1 Main Street") ]).
Proof.
  apply (proj2 (POST_streams_iff _ _ _ _ _ _)).
  exists goodRequest, (Js.Str "my knee hurts"),
    "Primary Care Physician|Orthopedist", "aetna",
    "https://www.aetna.com/dsepublic/#/contentPage?page=providerSearchLanding".
  repeat split; try reflexivity.
  - eexists _, _. repeat split; reflexivity.
  - discriminate.
Defined.

(** X5.  A request the validator rejects is answered with status 400 and
    the validator's message, whatever the language model and the
    environment: neither is consulted. *)
Theorem POST_rejected_request :
  forall body verdict chat env,
    validateRequest body = Ok verdict ->
    isValid verdict = false ->
    POST (Ok body) chat env = JsonError 400 (error verdict).
Proof.
  intros body verdict chat env Hverdict Hvalid.
  unfold POST, handle. cbn [bindResult].
  rewrite Hverdict. cbn [bindResult]. rewrite Hvalid. reflexivity.
Qed.

Lemma POST_rejected_request_witness :
  POST (Ok (Js.Object equatorRequest)) (fun _ => Throw (mkError "unused"))
       (mkEnvironment None None)
  = JsonError 400 (Some invalidLocation).
Proof.
  apply (@POST_rejected_request (Js.Object equatorRequest)
           (mkValidation false (Some invalidLocation))); reflexivity.
Defined.

(** X6.  [POST] answers 'Cannot identify specialist types' only when the
    content of the model's answer is [null]: an empty content is split
    into one empty specialist type and passes. *)
Theorem POST_cannot_identify :
  forall requestJson chat env,
    POST requestJson chat env
    = JsonError 400 (Some "Cannot identify specialist types") ->
    exists body query,
      requestJson = Ok body
      /\ Js.getProp body "query" = Ok query
      /\ chat query = Ok None.
Proof.
  intros requestJson chat env. unfold POST, handle. intros Hrun.
  destruct requestJson as [body | e]; cbn [bindResult] in Hrun;
    [| discriminate].
  destruct (validateRequest body) as [verdict | e] eqn:Hverdict;
    cbn [bindResult] in Hrun; [| discriminate].
  destruct (isValid verdict) eqn:Hvalid; cbn [negb] in Hrun.
  2:{ exfalso. unfold validateRequest in Hverdict.
      destruct body as [| | b | x | s | items | fields];
        cbn [Js.getProp bindResult Js.truthy negb] in Hverdict;
        try discriminate;
        try (inversion Hverdict; subst verdict; discriminate).
      repeat (destruct (Js.truthy _) in Hverdict; cbn [negb] in Hverdict;
              [| inversion Hverdict; subst verdict; discriminate]).
      destruct (Js.getProp _ "lat") as [lat | e];
        cbn [bindResult] in Hverdict; [| discriminate].
      destruct (Js.truthy lat); cbn [negb] in Hverdict;
        [| inversion Hverdict; subst verdict; discriminate].
      destruct (Js.getProp _ "lng") as [lng | e];
        cbn [bindResult] in Hverdict; [| discriminate].
      destruct (Js.truthy lng); cbn [negb] in Hverdict;
        [| inversion Hverdict; subst verdict; discriminate].
      destruct (Js.getProp _ "address") as [addr | e];
        cbn [bindResult] in Hverdict; [| discriminate].
      destruct (Js.truthy addr); cbn [negb] in Hverdict;
        [| inversion Hverdict; subst verdict; discriminate].
      destruct (isProviderKey _); cbn [negb] in Hverdict;
        inversion Hverdict; subst verdict; discriminate. }
  destruct (Js.getProp body "query") as [query | e] eqn:Hquery;
    cbn [bindResult] in Hrun; [| discriminate].
  destruct (processQuery chat query) as [[message | specialists] | e]
    eqn:Hresult; cbn [bindResult] in Hrun; try discriminate.
  - exfalso. unfold processQuery in Hresult.
    destruct (chat query) as [[text |] | e]; cbn [bindResult] in Hresult;
      try discriminate.
    destruct (String.eqb text "NOT_MEDICAL_QUERY"); inversion Hresult; subst.
    discriminate.
  - destruct specialists as [| piece pieces].
    + exists body, query. repeat split; [exact Hquery |].
      apply processQuery_no_specialists, Hresult.
    + exfalso.
      destruct (negb (isSet (BROWSERBASE_API_KEY env))
                || negb (isSet (BROWSERBASE_PROJECT_ID env)));
        [discriminate |].
      destruct (Js.getProp body "provider"); cbn [bindResult] in Hrun;
        [| discriminate].
      destruct (Js.getProp body "location"); cbn [bindResult] in Hrun;
        discriminate.
Qed.

Lemma POST_cannot_identify_witness :
  exists body query,
    Ok goodRequest = Ok body
    /\ Js.getProp body "query" = Ok query
    /\ (fun _ : Js.Value => Ok None) query = @Ok (option string) None.
Proof.
  apply (@POST_cannot_identify (Ok goodRequest) (fun _ => Ok None)
           credentials).
  reflexivity.
Defined.

(** An empty content passes: the search is started with one empty
    specialist type. *)
Example POST_empty_content :
  POST (Ok goodRequest) (fun _ => Ok (Some "")) credentials
  = EventStream (Some "https://www.aetna.com/dsepublic/#/contentPage?page=providerSearchLanding")
                [""]
                (Js.Object [ ("lat", Js.Number (S754_finite false 3 2));
                             ("lng", Js.Number (S754_finite true 5 4));
                             ("address", Js.Str "1 Main Street") ]).
Proof. reflexivity. Qed.

End PostFacts.

(** ** The result extractor *)

Module ExtractorFacts.

Lemma parseProvider_ok_iff v :
  (exists p, parseProvider v = Ok p) <-> ValidProvider v.
Proof.
  split.
  - intros [p Hp]. unfold parseProvider in Hp.
    destruct v as [| | b | x | s | items | fields]; try discriminate.
    destruct (Js.lookup "name" fields) eqn:Hn;
      cbn [parseString bindResult] in Hp; try discriminate.
    destruct (Js.lookup "specialty" fields) eqn:Hs;
      cbn [parseString bindResult] in Hp; try discriminate.
    destruct (Js.lookup "address" fields) eqn:Ha;
      cbn [parseString bindResult] in Hp; try discriminate.
    exists fields. do 3 eexists.
    split; [reflexivity |]. split; [exact Hn |].
    split; [exact Hs |]. split; [exact Ha |].
    destruct (Js.lookup "phone" fields);
      cbn [parseOptionalString bindResult] in Hp; try discriminate;
      [left | right]; eauto.
  - intros (fields & n & s & a & -> & Hn & Hs & Ha & Hphone).
    unfold parseProvider. rewrite Hn, Hs, Ha. cbn [parseString bindResult].
    destruct Hphone as [-> | [p ->]]; eexists; reflexivity.
Qed.

Lemma parseProviders_ok_iff items :
  (exists ps, parseProviders items = Ok ps) <-> Forall ValidProvider items.
Proof.
  induction items as [| v rest IH]; cbn [parseProviders].
  - split; [constructor | eexists; reflexivity].
  - split.
    + intros [ps Hps].
      destruct (parseProvider v) as [p | e] eqn:Hp; [| discriminate].
      cbn [bindResult] in Hps.
      destruct (parseProviders rest) as [ps' | e] eqn:Hrest; [| discriminate].
      constructor; [apply parseProvider_ok_iff | apply IH]; eauto.
    + intros H. inversion H as [| ? ? Hv Hrest]; subst.
      apply parseProvider_ok_iff in Hv. destruct Hv as [p ->].
      apply IH in Hrest. destruct Hrest as [ps ->].
      eexists. reflexivity.
Qed.

(** X7.  [SearchResultsSchema.parse] succeeds exactly on an object whose
    [providers] is an array of valid providers: one item that lacks a
    string name, specialty or address, or whose phone is not a string,
    makes the whole parse fail. *)
Theorem parseSearchResults_ok_iff :
  forall v,
    (exists r, parseSearchResults v = Ok r)
    <-> exists fields items,
          v = Js.Object fields
          /\ Js.lookup "providers" fields = Js.Array items
          /\ Forall ValidProvider items.
Proof.
  intros v. split.
  - intros [r Hr]. unfold parseSearchResults in Hr.
    destruct v as [| | b | x | s | items | fields]; try discriminate.
    destruct (Js.lookup "providers" fields) as [| | b | x | s | items | fs]
      eqn:Hproviders; try discriminate.
    exists fields, items.
    split; [reflexivity |]. split; [exact Hproviders |].
    apply parseProviders_ok_iff.
    destruct (parseProviders items) as [ps | e]; [eauto | discriminate].
  - intros (fields & items & -> & Hproviders & Hvalid).
    apply parseProviders_ok_iff in Hvalid. destruct Hvalid as [ps Hps].
    unfold parseSearchResults. rewrite Hproviders, Hps.
    eexists. reflexivity.
Qed.

Lemma parseSearchResults_ok_iff_witness :
  exists r, parseSearchResults Scenario.oneProvider = Ok r.
Proof.
  apply (proj2 (parseSearchResults_ok_iff Scenario.oneProvider)).
  eexists _, _. split; [reflexivity |]. split; [reflexivity |].
  repeat constructor.
  eexists _, _, _, _. repeat split; try reflexivity. left. reflexivity.
Defined.

Lemma parseProviders_each items :
  forall ps,
    parseProviders items = Ok ps ->
    Forall2 (fun v p => parseProvider v = Ok p) items ps.
Proof.
  induction items as [| v rest IH]; intros ps Hps; cbn [parseProviders] in Hps.
  - inversion Hps. constructor.
  - destruct (parseProvider v) as [p | e] eqn:Hp; [| discriminate].
    cbn [bindResult] in Hps.
    destruct (parseProviders rest) as [ps' | e] eqn:Hrest; [| discriminate].
    inversion Hps; subst. constructor; auto.
Qed.

(** X8.  A successful parse keeps every item, in order: the result has one
    provider per item of the array, each the parse of its item. *)
Theorem parseSearchResults_keeps_items :
  forall fields items r,
    Js.lookup "providers" fields = Js.Array items ->
    parseSearchResults (Js.Object fields) = Ok r ->
    Forall2 (fun v p => parseProvider v = Ok p) items (providers r)
    /\ List.length (providers r) = List.length items.
Proof.
  intros fields items r Hproviders Hr.
  unfold parseSearchResults in Hr. rewrite Hproviders in Hr.
  destruct (parseProviders items) as [ps | e] eqn:Hps; [| discriminate].
  inversion Hr; subst. cbn [providers].
  pose proof (parseProviders_each _ Hps) as Heach.
  split; [exact Heach |]. symmetry. eapply Forall2_length, Heach.
Qed.

Lemma parseSearchResults_keeps_items_witness :
  List.length (providers Scenario.ada) = 1.
Proof.
  apply (@parseSearchResults_keeps_items
           [ ("providers",
              Js.Array
                [ Js.Object [ ("name", Js.Str "Dr. Ada");
                              ("specialty", Js.Str "Cardiologist");
                              ("address", Js.Str "1 Main Street") ] ]) ]
           _ Scenario.ada eq_refl eq_refl).
Defined.

(** X9.  Parsing the JSON value of parsed results gives them back. *)
Theorem parseSearchResults_encodeResults :
  forall r, parseSearchResults (encodeResults r) = Ok r.
Proof.
  intros [ps]. unfold encodeResults, parseSearchResults.
  cbn [providers Js.lookup String.eqb Ascii.eqb Bool.eqb].
  assert (H : parseProviders (map encodeProvider ps) = Ok ps).
  { induction ps as [| [n s a ph] ps IH]; [reflexivity |].
    cbn [map parseProviders]. rewrite IH.
    destruct ph as [number |]; reflexivity. }
  rewrite H. reflexivity.
Qed.

End ExtractorFacts.

(** ** More on the planner, the executor and the loop *)

Section AgentMore.

Variable world : World.
Variable config : WebAgentConfig.

Lemma Planned_loop_events r d :
  Planned config r d -> forallb isLoopEvent d = true.
Proof. intros H; destruct H; reflexivity. Qed.

Lemma Raced_loop_events action r d :
  Raced action r d -> forallb isLoopEvent d = true.
Proof. intros H; destruct H; reflexivity. Qed.

Lemma Retried_loop_events {T} (P : Result T -> Trace -> Prop) errorMessage :
  (forall r d, P r d -> forallb isLoopEvent d = true) ->
  forall remaining i lastError r d,
    Retried P errorMessage remaining i lastError r d ->
    forallb isLoopEvent d = true.
Proof.
  intros HP. apply Retried_all; auto.
  intros d1 d2 H1 H2. rewrite forallb_app, H1, H2. reflexivity.
Qed.

Lemma Planned_ok_last action d :
  Planned config (Ok action) d ->
  pushed d = [action] /\ WellFormed action.
Proof.
  intros H. inversion H; subst;
    (split; [reflexivity | apply WellFormed_formatAction]).
Qed.

Lemma getNextAction_ok_inv :
  forall currentState st action st',
    getNextAction world config currentState st = (Ok action, st') ->
    WellFormed action
    /\ exists earlier,
         actionHistory st' = actionHistory st ++ earlier ++ [action].
Proof.
  intros currentState st action st' Hrun.
  destruct (@emits_retryOperation _ _ _ _
              (emits_planOnce world config currentState) _ _ _ Hrun)
    as (d & -> & Hd).
  assert (H : WellFormed action /\ exists earlier, pushed d = earlier ++ [action]).
  { revert Hd.
    apply (@Retried_ok _ (Planned config)
             (fun a d => WellFormed a /\ exists earlier, pushed d = earlier ++ [a])).
    - intros v d' H'. destruct (Planned_ok_last H') as [Hp Hw].
      split; [exact Hw |]. exists []. exact Hp.
    - intros v d1 d2 [Hw [earlier Hp]]. split; [exact Hw |].
      exists (pushed d1 ++ earlier).
      rewrite pushed_app, Hp, app_assoc. reflexivity. }
  destruct H as [Hw [earlier Hp]]. split; [exact Hw |].
  exists earlier. cbn [grow actionHistory]. rewrite Hp. reflexivity.
Qed.

Lemma getNextAction_loop_events currentState st r st' :
  getNextAction world config currentState st = (r, st') ->
  exists d, st' = grow st d /\ forallb isLoopEvent d = true.
Proof.
  intros Hrun.
  destruct (@emits_retryOperation _ _ _ _
              (emits_planOnce world config currentState) _ _ _ Hrun)
    as (d & -> & Hd).
  exists d. split; [reflexivity |].
  revert Hd. apply Retried_loop_events. apply Planned_loop_events.
Qed.

Lemma executeAction_loop_events action st r st' :
  executeAction world action st = (r, st') ->
  exists d,
    st' = grow st d /\ forallb isLoopEvent d = true /\ pushed d = [].
Proof.
  intros Hrun.
  destruct (@emits_executeAction _ _ _ _ _ Hrun) as (d' & Hst & _ & Hp & _).
  destruct (@emits_retryOperation _ _ _ _ (emits_raceAct world action)
              _ _ _ Hrun) as (d & -> & Hd).
  exists d. split; [reflexivity |]. split.
  - revert Hd. apply Retried_loop_events. apply Raced_loop_events.
  - revert Hd.
    apply (@Retried_all _ (Raced action) (fun d => pushed d = [])); auto.
    + intros d1 d2 H1 H2. rewrite pushed_app, H1, H2. reflexivity.
    + intros r' d0 H'. apply (Raced_quiet H').
Qed.

(** What the [try] block of the loop body leaves: loop events only, and
    on [break] a completion action as the newest entry of the history. *)
Lemma loopBody_inv st r st' :
  loopBody world config st = (r, st') ->
  exists d,
    st' = grow st d
    /\ forallb isLoopEvent d = true
    /\ (r = Ok BodyBreak ->
        exists earlier action,
          actionHistory st' = earlier ++ [action]
          /\ isCompletion action = true).
Proof.
  intros Hrun. unfold loopBody, bind in Hrun.
  destruct (observe world st) as [[pageState | e] s1] eqn:Hobs;
    apply call_grow in Hobs; try reflexivity; destruct Hobs as [_ ->].
  2:{ inversion Hrun; subst. eexists. split; [reflexivity |].
      split; [reflexivity | discriminate]. }
  destruct (getNextAction world config pageState _)
    as [[nextAction | e] s2] eqn:Hplan;
    destruct (getNextAction_loop_events _ _ Hplan) as (dP & Hs2 & HdP).
  2:{ inversion Hrun; subst. rewrite grow_grow.
      eexists. split; [reflexivity |].
      split; [| discriminate]. cbn [app forallb isLoopEvent andb]. exact HdP. }
  destruct (isCompletion nextAction) eqn:Hdone.
  { inversion Hrun; subst r st'.
    destruct (getNextAction_ok_inv _ _ Hplan)
      as [_ [earlier Hhist]].
    subst s2. rewrite grow_grow.
    eexists. split; [reflexivity |]. split.
    - cbn [app forallb isLoopEvent andb]. exact HdP.
    - intros _. rewrite grow_grow in Hhist.
      exists (actionHistory (grow st [EvObserve (Ok pageState)]) ++ earlier),
        nextAction.
      split; [| exact Hdone].
      rewrite Hhist, <- app_assoc. reflexivity. }
  subst s2. rewrite grow_grow in Hrun.
  destruct (executeAction world nextAction _) as [[[] | e] s3] eqn:Hact;
    destruct (executeAction_loop_events _ _ Hact) as (dA & -> & HdA & _);
    rewrite grow_grow in Hrun.
  - unfold bind, delay, ret in Hrun.
    rewrite (@log_grow (EvDelay 1000) _ eq_refl), grow_grow in Hrun.
    inversion Hrun; subst r st'.
    eexists. split; [reflexivity |]. split; [| discriminate].
    cbn [app forallb isLoopEvent andb].
    rewrite !forallb_app, HdP, HdA. reflexivity.
  - inversion Hrun; subst r st'.
    eexists. split; [reflexivity |]. split; [| discriminate].
    cbn [app forallb isLoopEvent andb].
    rewrite !forallb_app, HdP, HdA. reflexivity.
Qed.

Lemma iteration_inv n st exit st' :
  iteration world config n st = (exit, st') ->
  exists d,
    st' = grow st d
    /\ forallb isLoopEvent d = true
    /\ (exit = IterBreak ->
        exists earlier action,
          actionHistory st' = earlier ++ [action]
          /\ isCompletion action = true).
Proof.
  unfold iteration. intros Hrun.
  destruct (loopBody world config st) as [[[|] | e] s1] eqn:Hbody;
    destruct (loopBody_inv _ Hbody) as (d & -> & Hd & Hbreak).
  - inversion Hrun; subst. eauto.
  - inversion Hrun; subst. exists d.
    split; [reflexivity |]. split; [exact Hd | discriminate].
  - destruct (maxConsecutiveErrors <=? S n)%nat.
    + inversion Hrun; subst. exists d.
      split; [reflexivity |]. split; [exact Hd | discriminate].
    + destruct (screenshot world _) as [[[] | e'] s2] eqn:Hshot;
        apply call_grow in Hshot; try reflexivity; destruct Hshot as [_ ->];
        inversion Hrun; subst; rewrite grow_grow;
        eexists; (split; [reflexivity |]);
        (split; [rewrite forallb_app, Hd; reflexivity | discriminate]).
Qed.

Lemma searchLoop_inv fuel :
  forall n st exit st',
    searchLoop world config fuel n st = Some (exit, st') ->
    exists d,
      st' = grow st d
      /\ forallb isLoopEvent d = true
      /\ (exit = LoopBreak ->
          exists earlier action,
            actionHistory st' = earlier ++ [action]
            /\ isCompletion action = true).
Proof.
  induction fuel as [| fuel IH]; intros n st exit st' Hrun; [discriminate |].
  cbn [searchLoop] in Hrun.
  destruct (iteration world config n st) as [[n' | | e] s1] eqn:Hiter;
    destruct (iteration_inv _ _ Hiter) as (d1 & -> & Hd1 & Hbreak).
  - destruct (IH _ _ _ _ Hrun) as (d2 & -> & Hd2 & Hb2).
    rewrite grow_grow. eexists. split; [reflexivity |]. split.
    + rewrite forallb_app, Hd1, Hd2. reflexivity.
    + intros Hexit. rewrite grow_grow in Hb2. apply Hb2, Hexit.
  - inversion Hrun; subst. exists d1.
    split; [reflexivity |]. split; [exact Hd1 |]. intros _. apply Hbreak.
    reflexivity.
  - inversion Hrun; subst. exists d1.
    split; [reflexivity |]. split; [exact Hd1 | discriminate].
Qed.

End AgentMore.

(** ** Bounds on attempts and timers *)

Module Bounds.

Lemma timers_app d1 d2 : timers (d1 ++ d2) = (timers d1 + timers d2)%Z.
Proof.
  induction d1 as [| e d1 IH]; [reflexivity |].
  destruct e; cbn [app timers]; rewrite IH; lia.
Qed.

(** The attempts and the timers of a run of the retry executor, from the
    attempts and the timers of one attempt: [calls] counts the events that
    mark an attempt, [limit] bounds the timers of one attempt. *)
Lemma Retried_bounds {T} (P : Result T -> Trace -> Prop) errorMessage
    (calls : Event -> bool) (limit : Z) :
  (forall ms, calls (EvDelay ms) = false) ->
  (forall r d, P r d ->
               count calls d = 1 /\ (0 <= timers d <= limit)%Z) ->
  forall remaining i lastError r d,
    Retried P errorMessage remaining i lastError r d ->
    count calls d <= remaining
    /\ (0 <= timers d
        <= Z.of_nat remaining * limit + backoffSum remaining i)%Z
    /\ (0 < remaining -> 1 <= count calls d)
    /\ (forall e, r = Throw e ->
                  count calls d = remaining
                  /\ (backoffSum remaining i <= timers d)%Z).
Proof.
  intros Hdelay HP remaining.
  induction remaining as [| n IH]; intros i lastError r d H; cbn [Retried] in H.
  - destruct H as [-> ->]. cbn. repeat split; try lia.
  - rewrite Nat2Z.inj_succ, Z.mul_succ_l.
    destruct H as [(v & -> & H) | (e & d1 & d2 & H1 & -> & H2)].
    + destruct (HP _ _ H) as [Hc Ht].
      assert (0 <= backoffSum (S n) i)%Z.
      { clear. revert i. induction (S n) as [| k IHk]; intros i;
          cbn [backoffSum]; [lia |].
        specialize (IHk (S i)). lia. }
      assert (0 <= Z.of_nat n * limit)%Z
        by (apply Z.mul_nonneg_nonneg; lia).
      split; [lia |]. split; [lia |]. split; [lia |]. discriminate.
    + destruct (HP _ _ H1) as [Hc1 Ht1].
      destruct (IH _ _ _ _ H2) as (Hc2 & Ht2 & _ & Hthrow).
      change (d1 ++ EvDelay (1000 * (Z.of_nat i + 1)) :: d2)
        with (d1 ++ [EvDelay (1000 * (Z.of_nat i + 1))] ++ d2).
      rewrite !count_app, !timers_app.
      assert (Hd : count calls [EvDelay (1000 * (Z.of_nat i + 1))] = 0).
      { unfold count. cbn [filter]. rewrite Hdelay. reflexivity. }
      rewrite Hd. cbn [timers backoffSum].
      split; [lia |]. split; [lia |]. split; [lia |].
      intros e' He'. destruct (Hthrow _ He') as [Hc3 Ht3]. split; lia.
Qed.

Lemma Raced_bounds action r d :
  Raced action r d ->
  count isAct d = 1 /\ (0 <= timers d <= 10000)%Z.
Proof. intros H; destruct H; cbn; unfold actionTimeout; lia. Qed.

Lemma Planned_bounds config r d :
  Planned config r d ->
  count isModelCall d = 1 /\ (0 <= timers d <= 0)%Z.
Proof. intros H; destruct H; cbn; lia. Qed.

(** X10.  One call of the action executor calls [page.act] at least once
    and at most three times, and the timers it waits for (timeouts that
    fire and backoff delays) add up to at most 36000 ms; when it throws,
    it made all three attempts and waited at least the 6000 ms of backoff. *)
Theorem executeAction_bounds :
  forall world action st r st',
    executeAction world action st = (r, st') ->
    exists d,
      st' = grow st d
      /\ 1 <= count isAct d <= 3
      /\ (0 <= timers d <= 36000)%Z
      /\ (forall e, r = Throw e ->
                    count isAct d = 3 /\ (6000 <= timers d)%Z).
Proof.
  intros world action st r st' Hrun.
  destruct (@emits_retryOperation _ _ _ _ (emits_raceAct world action)
              _ _ _ Hrun) as (d & -> & Hd).
  exists d. split; [reflexivity |].
  apply (@Retried_bounds _ (Raced action) _ isAct 10000%Z) in Hd;
    [| reflexivity | apply Raced_bounds].
  destruct Hd as (Hmax & Ht & Hmin & Hthrow).
  unfold maxRetries in *. cbn [backoffSum Z.of_nat] in *.
  split; [split; [apply Hmin; lia | lia] |]. split; [lia |].
  intros e He. destruct (Hthrow _ He). split; lia.
Qed.

Lemma executeAction_bounds_witness :
  exists d,
    snd (executeAction Scenario.stuck "ACT: click" initialState)
    = grow initialState d
    /\ 1 <= count isAct d <= 3
    /\ (0 <= timers d <= 36000)%Z
    /\ (forall e,
           fst (executeAction Scenario.stuck "ACT: click" initialState)
           = Throw e ->
           count isAct d = 3 /\ (6000 <= timers d)%Z).
Proof.
  apply (@executeAction_bounds Scenario.stuck "ACT: click" initialState).
  reflexivity.
Defined.

(** X11.  One call of the planner asks the language model at least once
    and at most three times, appends at most three entries to the history,
    and waits at most 6000 ms of backoff. *)
Theorem getNextAction_bounds :
  forall world config currentState st r st',
    getNextAction world config currentState st = (r, st') ->
    exists d,
      st' = grow st d
      /\ 1 <= count isModelCall d <= 3
      /\ List.length (pushed d) <= 3
      /\ (0 <= timers d <= 6000)%Z.
Proof.
  intros world config currentState st r st' Hrun.
  destruct (@emits_retryOperation _ _ _ _
              (emits_planOnce world config currentState) _ _ _ Hrun)
    as (d & -> & Hd).
  exists d. split; [reflexivity |].
  assert (Hbooked : Tidy d).
  { revert Hd. apply (@Retried_all _ (Planned config) Tidy).
    - apply Tidy_nil.
    - apply Tidy_app.
    - apply Tidy_delay.
    - apply Planned_Tidy. }
  apply (@Retried_bounds _ (Planned config) _ isModelCall 0%Z) in Hd;
    [| reflexivity | apply Planned_bounds].
  destruct Hd as (Hmax & Ht & Hmin & _).
  unfold maxRetries in *. cbn [backoffSum Z.of_nat] in *.
  assert (Hle : count isResponse d <= count isModelCall d).
  { clear. induction d as [| e d IH]; [reflexivity |].
    change (e :: d) with ([e] ++ d). rewrite !count_app.
    destruct e as [| | | prompt [p | e] | | | | | | | | | |];
      cbn; unfold count in *; lia. }
  rewrite <- (tidy_booked Hbooked).
  split; [split; [apply Hmin; lia | lia] |]. split; lia.
Qed.

Lemma getNextAction_bounds_witness :
  exists d,
    snd (getNextAction Scenario.calm Scenario.deaf "page" initialState)
    = grow initialState d
    /\ 1 <= count isModelCall d <= 3
    /\ List.length (pushed d) <= 3
    /\ (0 <= timers d <= 6000)%Z.
Proof.
  apply (@getNextAction_bounds Scenario.calm Scenario.deaf "page"
           initialState
           (fst (getNextAction Scenario.calm Scenario.deaf "page"
                   initialState))).
  apply surjective_pairing.
Defined.

End Bounds.

(** ** The anatomy of a search *)

Module SearchFacts.

Lemma loop_events_count (p : Event -> bool) d :
  (forall e, isLoopEvent e = true -> p e = false) ->
  forallb isLoopEvent d = true ->
  count p d = 0.
Proof.
  intros Hp. induction d as [| e d IH]; [reflexivity |].
  cbn [forallb]. rewrite andb_true_iff. intros [He Hd].
  unfold count in *. cbn [filter]. rewrite (Hp _ He). apply IH, Hd.
Qed.

Lemma count_cons p e d :
  count p (e :: d) = (if p e then 1 else 0) + count p d.
Proof. unfold count. cbn [filter]. destruct (p e); reflexivity. Qed.

(** Every run of [executeSearch] that ends has one of three forms.  The
    navigation failed: nothing else happened before the teardown.  The
    loop threw: the navigation is followed by loop events only, then the
    teardown.  The loop was left by [break]: the extraction follows the
    loop events, then the teardown, and the newest entry of the history
    is a completion action.  In the three cases the navigation is the
    first event and the teardown the last, and the outcome is the error
    or the parsed extraction, unless the teardown itself threw. *)
Lemma executeSearch_inv :
  forall world config fuel st outcome st',
    executeSearch world config fuel st = Some (outcome, st') ->
    exists (g : Result unit) (d tail : Trace) (c : Result unit),
      st' = grow st (EvGoto (provider config) g :: d ++ tail ++ [EvClose c])
      /\ forallb isLoopEvent d = true
      /\ c = stagehandClose world (trace st ++ EvGoto (provider config) g :: d ++ tail)
      /\ ((exists e, g = Throw e /\ d = [] /\ tail = []
                     /\ outcome = Throw (rethrown e c))
          \/ (exists e, g = Ok tt /\ tail = []
                        /\ outcome = Throw (rethrown e c))
          \/ (exists x earlier action,
                 g = Ok tt /\ tail = [EvExtract x]
                 /\ outcome = extracted x c
                 /\ actionHistory st' = earlier ++ [action]
                 /\ isCompletion action = true)).
Proof.
  intros world config fuel st outcome st' Hrun.
  unfold executeSearch, closing, searchBody, loopThenExtract in Hrun.
  destruct (call _ _ st) as [g s1] eqn:Hgoto.
  apply call_grow in Hgoto; [| reflexivity]. destruct Hgoto as [Hg ->].
  destruct g as [[] | eg].
  - destruct (searchLoop world config fuel 0 _) as [[[| e] s2] |] eqn:Hloop;
      [| | discriminate];
      destruct (@searchLoop_inv _ _ _ _ _ _ _ Hloop)
        as (d & -> & Hd & Hbreak); rewrite grow_grow in *.
    + destruct (Hbreak eq_refl) as (earlier & action & Hhist & Hdone).
      unfold extractResults, bind in Hrun.
      destruct (call (pageExtract world) EvExtract _) as [x s3] eqn:Hext.
      apply call_grow in Hext; [| reflexivity]. destruct Hext as [_ ->].
      rewrite grow_grow in Hrun.
      remember (grow st (([EvGoto (provider config) (Ok tt)] ++ d)
                         ++ [EvExtract x])) as s3 eqn:Hs3.
      destruct (close world s3) as [c s4] eqn:Hclose.
      assert (Hend : Some (extracted x c, s4) = Some (outcome, st')).
      { rewrite <- Hrun.
        destruct x as [v | ex]; rewrite Hclose;
          destruct c as [[] | ec]; reflexivity. }
      clear Hrun. inversion Hend; subst outcome st'. clear Hend.
      apply call_grow in Hclose; [| reflexivity]. destruct Hclose as [Hc ->].
      subst s3. rewrite grow_grow.
      exists (Ok tt), d, [EvExtract x], c.
      split; [cbn [app]; rewrite <- ?app_assoc; cbn [app]; reflexivity |].
      split; [exact Hd |]. split.
      { rewrite Hc. cbn [grow trace app]. rewrite <- ?app_assoc.
        cbn [app]. reflexivity. }
      right. right. exists x, earlier, action.
      repeat split; try assumption; try reflexivity.
      cbn [grow actionHistory] in *.
      rewrite !pushed_app in *. cbn [pushed] in *.
      rewrite !app_nil_r in *. exact Hhist.
    + destruct (close world _) as [c s4] eqn:Hclose.
      apply call_grow in Hclose; [| reflexivity]. destruct Hclose as [Hc ->].
      rewrite grow_grow in Hrun.
      exists (Ok tt), d, [], c.
      assert (Hst : st' = grow st (([EvGoto (provider config) (Ok tt)] ++ d)
                                    ++ [EvClose c])
                    /\ outcome = Throw (rethrown e c)).
      { destruct c as [[] | ec]; inversion Hrun; subst; split; reflexivity. }
      destruct Hst as [-> ->].
      split; [reflexivity |]. split; [exact Hd |]. split.
      { rewrite Hc. cbn [grow trace app]. rewrite app_nil_r. reflexivity. }
      right. left. exists e. auto.
  - destruct (close world _) as [c s4] eqn:Hclose.
    apply call_grow in Hclose; [| reflexivity]. destruct Hclose as [Hc ->].
    rewrite grow_grow in Hrun.
    exists (Throw eg), [], [], c.
    assert (Hst : st' = grow st ([EvGoto (provider config) (Throw eg)]
                                  ++ [EvClose c])
                  /\ outcome = Throw (rethrown eg c)).
    { destruct c as [[] | ec]; inversion Hrun; subst; split; reflexivity. }
    destruct Hst as [-> ->].
    split; [reflexivity |]. split; [reflexivity |]. split.
    { rewrite Hc. reflexivity. }
    left. exists eg. auto.
Qed.

(** X12.  [executeSearch] returns a value only after the loop was left on
    a completion action: the value is the parse of what [page.extract]
    answered, the extraction and a successful teardown are the last two
    events, and the completion action is the newest entry of the history. *)
Theorem executeSearch_value :
  forall world config fuel st results st',
    executeSearch world config fuel st = Some (Ok results, st') ->
    exists d v earlier action,
      st' = grow st (EvGoto (provider config) (Ok tt)
                       :: d ++ [EvExtract (Ok v); EvClose (Ok tt)])
      /\ forallb isLoopEvent d = true
      /\ parseSearchResults v = Ok results
      /\ actionHistory st' = earlier ++ [action]
      /\ isCompletion action = true.
Proof.
  intros world config fuel st results st' Hrun.
  destruct (executeSearch_inv _ _ _ _ Hrun)
    as (g & d & tail & c & Hst & Hd & _ & Hcase).
  destruct Hcase as [(e & _ & _ & _ & Hout) | [(e & _ & _ & Hout) | Hcase]];
    try discriminate.
  destruct Hcase as (x & earlier & action & -> & -> & Hout & Hhist & Hdone).
  unfold extracted in Hout.
  destruct c as [[] | ec]; [| discriminate].
  destruct x as [v | ex]; [| discriminate].
  exists d, v, earlier, action. auto.
Qed.

Lemma executeSearch_value_witness :
  exists d v earlier action,
    finalStateOf (executeSearch Scenario.calm Scenario.silent 5 initialState)
    = grow initialState
           (EvGoto (provider Scenario.silent) (Ok tt)
              :: d ++ [EvExtract (Ok v); EvClose (Ok tt)])
    /\ forallb isLoopEvent d = true
    /\ parseSearchResults v = Ok Scenario.ada
    /\ actionHistory
         (finalStateOf (executeSearch Scenario.calm Scenario.silent 5
                          initialState))
       = earlier ++ [action]
    /\ isCompletion action = true.
Proof.
  apply (@executeSearch_value Scenario.calm Scenario.silent 5 initialState).
  vm_compute. reflexivity.
Defined.

(** What holds of every attempt of the planner and of the executor and of
    the single events of the loop, and is kept by concatenation, holds of
    the events of the loop of every run of [executeSearch]. *)
Section LoopTraces.

Variable world : World.
Variable config : WebAgentConfig.
Variable F : Trace -> Prop.

Hypothesis F_nil : F [].
Hypothesis F_app : forall d1 d2, F d1 -> F d2 -> F (d1 ++ d2).
Hypothesis F_observe : forall r, F [EvObserve r].
Hypothesis F_screenshot : forall r, F [EvScreenshot r].
Hypothesis F_delay : forall ms, F [EvDelay ms].
Hypothesis F_planned : forall r d, Planned config r d -> F d.
Hypothesis F_raced : forall action r d, Raced action r d -> F d.

Lemma F_cons e d : F [e] -> F d -> F (e :: d).
Proof. apply (@F_app [e] d). Qed.

Ltac pieces :=
  repeat match goal with
         | |- F (_ :: ?d) =>
             lazymatch d with [] => fail | _ => apply F_cons end
         | |- F (_ ++ _) => apply F_app
         end;
  auto.

Lemma getNextAction_all currentState st r st' :
  getNextAction world config currentState st = (r, st') ->
  exists d, st' = grow st d /\ F d.
Proof.
  intros Hrun.
  destruct (@emits_retryOperation _ _ _ _
              (emits_planOnce world config currentState) _ _ _ Hrun)
    as (d & -> & Hd).
  exists d. split; [reflexivity |].
  revert Hd. apply (@Retried_all _ (Planned config) F); auto.
Qed.

Lemma executeAction_all action st r st' :
  executeAction world action st = (r, st') ->
  exists d, st' = grow st d /\ F d.
Proof.
  intros Hrun.
  destruct (@emits_retryOperation _ _ _ _ (emits_raceAct world action)
              _ _ _ Hrun) as (d & -> & Hd).
  exists d. split; [reflexivity |].
  revert Hd. apply (@Retried_all _ (Raced action) F); auto.
  intros r' d'. apply F_raced.
Qed.

Lemma loopBody_all st r st' :
  loopBody world config st = (r, st') ->
  exists d, st' = grow st d /\ F d.
Proof.
  intros Hrun. unfold loopBody, bind in Hrun.
  destruct (observe world st) as [[pageState | e] s1] eqn:Hobs;
    apply call_grow in Hobs; try reflexivity; destruct Hobs as [_ ->].
  2:{ inversion Hrun; subst. eexists. split; [reflexivity | apply F_observe]. }
  destruct (getNextAction world config pageState _)
    as [[nextAction | e] s2] eqn:Hplan;
    destruct (getNextAction_all _ _ Hplan) as (dP & -> & HdP);
    rewrite grow_grow in Hrun.
  2:{ inversion Hrun; subst. eexists. split; [reflexivity |].
      pieces. }
  destruct (isCompletion nextAction).
  { inversion Hrun; subst. eexists. split; [reflexivity |].
    pieces. }
  destruct (executeAction world nextAction _) as [[[] | e] s3] eqn:Hact;
    destruct (executeAction_all _ _ Hact) as (dA & -> & HdA);
    rewrite grow_grow in Hrun.
  - unfold bind, delay, ret in Hrun.
    rewrite (@log_grow (EvDelay 1000) _ eq_refl), grow_grow in Hrun.
    inversion Hrun; subst. eexists. split; [reflexivity |].
    pieces.
  - inversion Hrun; subst. eexists. split; [reflexivity |].
    pieces.
Qed.

Lemma iteration_all n st exit st' :
  iteration world config n st = (exit, st') ->
  exists d, st' = grow st d /\ F d.
Proof.
  unfold iteration. intros Hrun.
  destruct (loopBody world config st) as [[[|] | e] s1] eqn:Hbody;
    destruct (loopBody_all _ Hbody) as (d & -> & Hd).
  - inversion Hrun; subst. eauto.
  - inversion Hrun; subst. eauto.
  - destruct (maxConsecutiveErrors <=? S n)%nat.
    + inversion Hrun; subst. eauto.
    + destruct (screenshot world _) as [[[] | e'] s2] eqn:Hshot;
        apply call_grow in Hshot; try reflexivity; destruct Hshot as [_ ->];
        inversion Hrun; subst; rewrite grow_grow;
        eexists; (split; [reflexivity | pieces]).
Qed.

Lemma searchLoop_all fuel :
  forall n st exit st',
    searchLoop world config fuel n st = Some (exit, st') ->
    exists d, st' = grow st d /\ F d.
Proof.
  induction fuel as [| fuel IH]; intros n st exit st' Hrun; [discriminate |].
  cbn [searchLoop] in Hrun.
  destruct (iteration world config n st) as [[n' | | e] s1] eqn:Hiter;
    destruct (iteration_all _ _ Hiter) as (d1 & -> & Hd1).
  - destruct (IH _ _ _ _ Hrun) as (d2 & -> & Hd2).
    rewrite grow_grow. eauto.
  - inversion Hrun; subst. eauto.
  - inversion Hrun; subst. eauto.
Qed.

(** The events of a run of [executeSearch]: the navigation, the events of
    the loop, the extraction if the loop was left by [break], and the
    teardown. *)
Lemma executeSearch_all fuel st outcome st' :
  executeSearch world config fuel st = Some (outcome, st') ->
  exists (g : Result unit) (d tail : Trace) (c : Result unit),
    st' = grow st (EvGoto (provider config) g :: d ++ tail ++ [EvClose c])
    /\ F d
    /\ (tail = [] \/ exists x, tail = [EvExtract x]).
Proof.
  intros Hrun.
  unfold executeSearch, closing, searchBody, loopThenExtract in Hrun.
  destruct (call _ _ st) as [g s1] eqn:Hgoto.
  apply call_grow in Hgoto; [| reflexivity]. destruct Hgoto as [_ ->].
  assert (Hclosed : forall (tried : Result SearchResults) s2 d tail,
             s2 = grow st (EvGoto (provider config) g :: d ++ tail) ->
             match close world s2 with
             | (Ok _, s3) => Some (tried, s3)
             | (Throw e, s3) => Some (Throw e, s3)
             end = Some (outcome, st') ->
             exists c,
               st' = grow st (EvGoto (provider config) g
                                :: d ++ tail ++ [EvClose c])).
  { intros tried s2 d tail -> Hend.
    destruct (close world _) as [c s3] eqn:Hclose.
    apply call_grow in Hclose; [| reflexivity]. destruct Hclose as [_ ->].
    rewrite grow_grow in Hend. exists c.
    assert (Hst : grow st ((EvGoto (provider config) g :: d ++ tail)
                            ++ [EvClose c]) = st')
      by (destruct c; inversion Hend; reflexivity).
    rewrite <- Hst. cbn [app]. rewrite <- app_assoc. reflexivity. }
  destruct g as [[] | eg].
  - destruct (searchLoop world config fuel 0 _) as [[[| e] s2] |] eqn:Hloop;
      [| | discriminate];
      destruct (searchLoop_all _ _ _ Hloop) as (d & -> & Hd);
      rewrite grow_grow in *.
    + unfold extractResults, bind in Hrun.
      destruct (call (pageExtract world) EvExtract _) as [x s3] eqn:Hext.
      apply call_grow in Hext; [| reflexivity]. destruct Hext as [_ ->].
      rewrite grow_grow in Hrun.
      destruct (Hclosed (match x with
                         | Ok v => parseSearchResults v
                         | Throw e => Throw e
                         end)
                        (grow st (EvGoto (provider config) (Ok tt)
                                    :: d ++ [EvExtract x]))
                        d [EvExtract x]) as [c ->].
      * reflexivity.
      * destruct x; exact Hrun.
      * exists (Ok tt), d, [EvExtract x], c.
        split; [reflexivity |]. split; [exact Hd | eauto].
    + destruct (Hclosed (Throw e)
                        (grow st ([EvGoto (provider config) (Ok tt)] ++ d))
                        d []) as [c ->].
      * rewrite app_nil_r. reflexivity.
      * exact Hrun.
      * exists (Ok tt), d, [], c.
        split; [reflexivity |]. split; [exact Hd | auto].
  - destruct (Hclosed (Throw eg)
                      (grow st [EvGoto (provider config) (Throw eg)])
                      [] []) as [c ->].
    + reflexivity.
    + exact Hrun.
    + exists (Throw eg), [], [], c.
      split; [reflexivity |]. split; [exact F_nil | auto].
Qed.

End LoopTraces.

Lemma Sunk_app config d1 d2 :
  Sunk config d1 -> Sunk config d2 -> Sunk config (d1 ++ d2).
Proof.
  intros (Hl1 & Hle1 & Heq1) (Hl2 & Hle2 & Heq2). unfold Sunk.
  rewrite forallb_app, Hl1, Hl2, count_app, pushed_app, length_app.
  split; [reflexivity |]. split; [lia |].
  intros Hsink. rewrite (Heq1 Hsink), (Heq2 Hsink). reflexivity.
Qed.

Lemma Sunk_planned config r d : Planned config r d -> Sunk config d.
Proof.
  intros H. destruct H; unfold Sunk, count; cbn;
    (split; [reflexivity |]); (split; [lia |]); intros Hsink;
    first [reflexivity | congruence].
Qed.

Lemma Sunk_raced config action r d : Raced action r d -> Sunk config d.
Proof.
  intros H. destruct H; unfold Sunk, count; cbn; auto.
Qed.

(** X13.  A run of [executeSearch] that ends navigates exactly once,
    extracts at most once and never initialises the session.  It calls the
    progress sink, through which the route writes the action to the
    response stream, at most once per entry appended to the action
    history, and exactly once per entry when the configuration has a
    sink. *)
Theorem executeSearch_calls :
  forall world config fuel st outcome st',
    executeSearch world config fuel st = Some (outcome, st') ->
    exists d,
      st' = grow st d
      /\ count isGoto d = 1
      /\ count isExtract d <= 1
      /\ count isInit d = 0
      /\ count isSinkCall d <= List.length (pushed d)
      /\ (onAction config <> None ->
          count isSinkCall d = List.length (pushed d)).
Proof.
  intros world config fuel st outcome st' Hrun.
  assert (Hnil : Sunk config []) by (unfold Sunk, count; cbn; auto).
  assert (Hobserve : forall r, Sunk config [EvObserve r])
    by (intros r; unfold Sunk, count; cbn; auto).
  assert (Hshot : forall r, Sunk config [EvScreenshot r])
    by (intros r; unfold Sunk, count; cbn; auto).
  assert (Hdelay : forall ms, Sunk config [EvDelay ms])
    by (intros ms; unfold Sunk, count; cbn; auto).
  destruct (@executeSearch_all world config (Sunk config) Hnil
              (@Sunk_app config) Hobserve Hshot Hdelay
              (@Sunk_planned config)
              (fun action r d => @Sunk_raced config action r d)
              fuel st outcome st' Hrun)
    as (g & d & tail & c & -> & (Hd & Hle & Heq) & Htail).
  eexists. split; [reflexivity |].
  assert (Hpushed : pushed (EvGoto (provider config) g
                              :: d ++ tail ++ [EvClose c]) = pushed d).
  { cbn [pushed]. rewrite !pushed_app.
    destruct Htail as [-> | [x ->]]; cbn [pushed app];
      rewrite app_nil_r; reflexivity. }
  rewrite Hpushed, !count_cons, !count_app.
  rewrite (@loop_events_count isGoto d), (@loop_events_count isExtract d),
    (@loop_events_count isInit d)
    by (exact Hd || (intros e He; destruct e; (reflexivity || discriminate))).
  destruct Htail as [-> | [x ->]]; cbn [count filter List.length app
                                         isGoto isExtract isInit isSinkCall].
  - split; [lia |]. split; [lia |]. split; [lia |]. split; [lia |].
    intros Hsink. rewrite <- (Heq Hsink). lia.
  - split; [lia |]. split; [lia |]. split; [lia |]. split; [lia |].
    intros Hsink. rewrite <- (Heq Hsink). lia.
Qed.

Lemma executeSearch_calls_witness :
  exists d,
    finalStateOf (executeSearch Scenario.calm Scenario.hiccup 5 initialState)
    = grow initialState d
    /\ count isGoto d = 1
    /\ count isExtract d <= 1
    /\ count isInit d = 0
    /\ count isSinkCall d <= List.length (pushed d)
    /\ (onAction Scenario.hiccup <> None ->
        count isSinkCall d = List.length (pushed d)).
Proof.
  apply (@executeSearch_calls Scenario.calm Scenario.hiccup 5 initialState
           (fst (match executeSearch Scenario.calm Scenario.hiccup 5
                         initialState with
                 | Some run => run
                 | None => (Throw tooManyErrors, initialState)
                 end))).
  vm_compute. reflexivity.
Defined.

(** More fuel does not change a run of the loop that ended. *)
Lemma searchLoop_more_fuel world config fuel :
  forall n st ended extra,
    searchLoop world config fuel n st = Some ended ->
    searchLoop world config (fuel + extra) n st = Some ended.
Proof.
  induction fuel as [| fuel IH]; intros n st ended extra Hrun;
    [discriminate |].
  cbn [Nat.add searchLoop] in *.
  destruct (iteration world config n st) as [[n' | | e] s1]; auto.
Qed.

Lemma loopBody_blind world config st e :
  pageObserve world (trace st) = Throw e ->
  loopBody world config st = (Throw e, grow st [EvObserve (Throw e)]).
Proof.
  intros H. unfold loopBody, bind, observe, call. rewrite H.
  rewrite (@log_grow (EvObserve (Throw e)) st eq_refl). reflexivity.
Qed.

Lemma blind_loop world config :
  (forall t, exists e, pageObserve world t = Throw e) ->
  forall budget n st,
    n + budget = maxConsecutiveErrors -> 0 < budget ->
    exists e d,
      searchLoop world config budget n st = Some (LoopThrow e, grow st d)
      /\ forallb isBlindEvent d = true
      /\ count isObserve d <= budget.
Proof.
  intros Hblind budget.
  induction budget as [| budget IH]; intros n st Hsum Hpos; [lia |].
  destruct (Hblind (trace st)) as [e He].
  cbn [searchLoop]. unfold iteration.
  rewrite (loopBody_blind _ _ _ He).
  destruct (maxConsecutiveErrors <=? S n)%nat eqn:Hle.
  - exists tooManyErrors, [EvObserve (Throw e)].
    split; [reflexivity |]. split; [reflexivity |]. cbn. lia.
  - apply Nat.leb_gt in Hle.
    destruct (screenshot world _) as [[[] | e'] s2] eqn:Hshot;
      apply call_grow in Hshot; try reflexivity; destruct Hshot as [_ ->];
      rewrite grow_grow.
    + destruct (IH (S n) (grow st ([EvObserve (Throw e)]
                                     ++ [EvScreenshot (Ok tt)])))
        as (e2 & d2 & Hloop & Hd2 & Hc2); [lia | lia |].
      exists e2. eexists. rewrite Hloop, grow_grow.
      split; [reflexivity |]. split.
      * cbn [app forallb isBlindEvent andb]. exact Hd2.
      * cbn [app]. rewrite !count_cons. cbn [isObserve]. lia.
    + exists e'. eexists. split; [reflexivity |]. split; [reflexivity |].
      cbn. lia.
Qed.

Lemma blind_events_count (p : Event -> bool) d :
  (forall e, isBlindEvent e = true -> p e = false) ->
  forallb isBlindEvent d = true ->
  count p d = 0.
Proof.
  intros Hp. induction d as [| e d IH]; [reflexivity |].
  cbn [forallb]. rewrite andb_true_iff. intros [He Hd].
  rewrite count_cons, (Hp _ He). apply IH, Hd.
Qed.

(** X14.  When the page can never be observed, every search ends by
    throwing after at most three observations, without a call of the
    language model or of [page.act] and without an extraction: the error
    budget bounds the run. *)
Theorem executeSearch_blind_ends :
  forall world config,
    (forall t, exists e, pageObserve world t = Throw e) ->
    forall fuel st,
      maxConsecutiveErrors <= fuel ->
      exists e d,
        executeSearch world config fuel st = Some (Throw e, grow st d)
        /\ count isObserve d <= 3
        /\ count isModelCall d = 0
        /\ count isAct d = 0
        /\ count isExtract d = 0
        /\ pushed d = [].
Proof.
  intros world config Hblind fuel st Hfuel.
  unfold executeSearch, closing, searchBody, loopThenExtract.
  destruct (call _ _ st) as [g s1] eqn:Hgoto.
  apply call_grow in Hgoto; [| reflexivity]. destruct Hgoto as [_ ->].
  destruct g as [[] | eg].
  - destruct (@blind_loop world config Hblind maxConsecutiveErrors 0
                (grow st [EvGoto (provider config) (Ok tt)]))
      as (e & d & Hloop & Hd & Hcount);
      [reflexivity | unfold maxConsecutiveErrors; lia |].
    replace fuel with (maxConsecutiveErrors + (fuel - maxConsecutiveErrors))
      by lia.
    rewrite (searchLoop_more_fuel _ _ _ _ _ _ Hloop), grow_grow.
    destruct (close world _) as [c s4] eqn:Hclose.
    apply call_grow in Hclose; [| reflexivity]. destruct Hclose as [_ ->].
    rewrite grow_grow.
    exists (rethrown e c),
      (EvGoto (provider config) (Ok tt) :: d ++ [EvClose c]).
    split; [destruct c as [[] | ec]; reflexivity |].
    assert (Hp : pushed d = []).
    { clear - Hd. induction d as [| x d IH]; [reflexivity |].
      cbn [forallb] in Hd. apply andb_true_iff in Hd. destruct Hd as [Hx Hd].
      destruct x; try discriminate; cbn [pushed]; auto. }
    cbn [pushed]. rewrite !count_cons, !count_app, pushed_app, Hp.
    rewrite (@blind_events_count isModelCall d),
      (@blind_events_count isAct d), (@blind_events_count isExtract d);
      try exact Hd;
      try (intros x Hx; destruct x; first [reflexivity | discriminate Hx]).
    unfold maxConsecutiveErrors in Hcount.
    cbn. repeat split; lia.
  - destruct (close world _) as [c s4] eqn:Hclose.
    apply call_grow in Hclose; [| reflexivity]. destruct Hclose as [_ ->].
    rewrite grow_grow.
    exists (rethrown eg c). eexists.
    split; [destruct c as [[] | ec]; reflexivity |].
    destruct c; cbn; repeat split; lia.
Qed.

Lemma executeSearch_blind_ends_witness :
  exists e d,
    executeSearch Scenario.blind Scenario.silent 7 initialState
    = Some (Throw e, grow initialState d)
    /\ count isObserve d <= 3
    /\ count isModelCall d = 0
    /\ count isAct d = 0
    /\ count isExtract d = 0
    /\ pushed d = [].
Proof.
  apply (@executeSearch_blind_ends Scenario.blind Scenario.silent).
  - intros t. exists Scenario.down. reflexivity.
  - unfold maxConsecutiveErrors. lia.
Defined.

End SearchFacts.

(** ** More on the planner *)

Module PlannerFacts.

(** X15.  The action the planner returns is the last entry of the history,
    whatever the sink did on the way; it has the shape "TOOL: instruction"
    and the entries that were there before the call are kept in front. *)
Theorem getNextAction_returns_newest_entry :
  forall world config currentState st action st',
    getNextAction world config currentState st = (Ok action, st') ->
    last (actionHistory st') "" = action
    /\ WellFormed action
    /\ firstn (List.length (actionHistory st)) (actionHistory st')
       = actionHistory st.
Proof.
  intros world config currentState st action st' Hrun.
  destruct (getNextAction_ok_inv _ _ _ _ Hrun) as [Hw [earlier Hhist]].
  rewrite Hhist. split; [| split; [exact Hw |]].
  - rewrite app_assoc. apply last_last.
  - rewrite firstn_app, Nat.sub_diag, firstn_all. cbn [firstn].
    apply app_nil_r.
Qed.

Lemma getNextAction_returns_newest_entry_witness :
  last (actionHistory
          (snd (getNextAction Scenario.calm Scenario.hiccup "page"
                  initialState))) ""
  = "ACT: type the specialty".
Proof.
  apply (@getNextAction_returns_newest_entry Scenario.calm Scenario.hiccup
           "page" initialState).
  vm_compute. reflexivity.
Defined.

Lemma includes_middle a x b : Js.includes (a ++ x ++ b) x = true.
Proof. apply Completion.includes_spec. exists a, b. reflexivity. Qed.

Lemma includes_end a x : Js.includes (a ++ x) x = true.
Proof.
  apply Completion.includes_spec. exists a, "".
  rewrite append_empty_r. reflexivity.
Qed.

Lemma includes_append_l p s x :
  Js.includes s x = true -> Js.includes (p ++ s) x = true.
Proof.
  rewrite !Completion.includes_spec. intros (a & b & ->).
  exists (p ++ a)%string, b. rewrite append_assoc. reflexivity.
Qed.

Lemma includes_append_r s q x :
  Js.includes s x = true -> Js.includes (s ++ q) x = true.
Proof.
  rewrite !Completion.includes_spec. intros (a & b & ->).
  exists a, (b ++ q)%string. rewrite !append_assoc. reflexivity.
Qed.

Lemma join_includes separator items x :
  In x items -> Js.includes (Js.join separator items) x = true.
Proof.
  induction items as [| y rest IH]; [intros [] |].
  intros [-> | Hin].
  - destruct rest as [| z rest].
    + cbn [Js.join]. apply (includes_end "" x).
    + rewrite join_cons. apply (includes_middle "" x _).
  - destruct rest as [| z rest]; [destruct Hin |].
    rewrite join_cons. do 2 apply includes_append_l. apply IH, Hin.
Qed.

Lemma numbered_includes history :
  forall index action,
    In action history ->
    exists entry,
      In entry (numbered index history) /\ Js.includes entry action = true.
Proof.
  induction history as [| a rest IH]; intros index action; [intros [] |].
  intros [-> | Hin]; cbn [numbered].
  - eexists. split; [left; reflexivity |].
    apply includes_append_l. apply (includes_end ". " action).
  - destruct (IH (S index) _ Hin) as (entry & Hentry & Hinc).
    exists entry. split; [right; exact Hentry | exact Hinc].
Qed.

Lemma includes_trans s entry x :
  Js.includes s entry = true -> Js.includes entry x = true ->
  Js.includes s x = true.
Proof.
  rewrite !Completion.includes_spec.
  intros (a & b & ->) (c & d & ->).
  exists (a ++ c)%string, (d ++ b)%string.
  rewrite !append_assoc. reflexivity.
Qed.

(** X16.  The prompt the planner sends to the language model mentions
    every action of the history, every specialist type and the address of
    the location, and it ends with the current page state. *)
Theorem systemPrompt_mentions :
  forall config history currentState,
    (forall action,
        In action history ->
        Js.includes (systemPrompt config history currentState) action = true)
    /\ (forall specialist,
           In specialist (specialists config) ->
           Js.includes (systemPrompt config history currentState) specialist
           = true)
    /\ Js.includes (systemPrompt config history currentState)
                   (locationAddress (location config)) = true
    /\ exists before,
         systemPrompt config history currentState
         = (before ++ currentState)%string.
Proof.
  intros config history currentState. unfold systemPrompt.
  split; [| split; [| split]].
  - intros action Hin.
    destruct (numbered_includes history 0 action Hin) as (entry & He & Hinc).
    do 5 apply includes_append_l. apply includes_append_r.
    eapply includes_trans; [apply join_includes, He | exact Hinc].
  - intros specialist Hin.
    apply includes_append_l, includes_append_r.
    apply join_includes, Hin.
  - do 3 apply includes_append_l. apply includes_append_r.
    apply (includes_end "" _).
  - eexists. rewrite <- !append_assoc. reflexivity.
Qed.

Lemma systemPrompt_mentions_witness :
  Js.includes
    (systemPrompt Scenario.silent ["ACT: click"; "ACT: type"] "page")
    "ACT: type" = true.
Proof.
  apply (proj1 (systemPrompt_mentions Scenario.silent
                  ["ACT: click"; "ACT: type"] "page")).
  right. left. reflexivity.
Defined.

End PlannerFacts.

(** ** The search process *)

Module ProcessFacts.
Import SearchFacts.

Lemma init_inv world st r st' :
  init world st = (r, st') ->
  exists r0, st' = grow st [EvStagehandInit r0].
Proof.
  unfold init, call. destruct (stagehandInit world (trace st)) as [[] | e];
    intros H; inversion H; subst; eexists; apply log_grow; reflexivity.
Qed.

(** A run of [executeSearch] leaves the response stream alone. *)
Lemma executeSearch_quiet world config fuel st outcome st' :
  executeSearch world config fuel st = Some (outcome, st') ->
  exists d,
    trace st' = trace st ++ d
    /\ count isWriterClose d = 0
    /\ count isFailureWrite d = 0
    /\ count isCompletionWritten d = 0.
Proof.
  intros Hrun.
  destruct (executeSearch_inv _ _ _ _ Hrun)
    as (g & d & tail & c & -> & Hd & _ & Hcase).
  eexists. split; [reflexivity |].
  assert (Htail : tail = [] \/ exists x, tail = [EvExtract x]).
  { destruct Hcase as [(e & _ & _ & -> & _) | [(e & _ & -> & _) | Hcase]];
      auto.
    destruct Hcase as (x & _ & _ & _ & -> & _). eauto. }
  rewrite !count_cons, !count_app.
  rewrite (@loop_events_count isWriterClose d),
    (@loop_events_count isFailureWrite d),
    (@loop_events_count isCompletionWritten d);
    try exact Hd;
    try (intros e He; destruct e; first [reflexivity | discriminate He]).
  destruct Htail as [-> | [x ->]]; cbn; lia.
Qed.

(** X17.  Every search process that ends wrote the start message first,
    then either wrote the completion message or attempted the failure
    message, never both outcomes and never neither, and closed the
    response stream once, as its last step. *)
Theorem searchProcess_terminal_message :
  forall world writer providerUrl specialistTypes bodyLocation fuel st
         outcome st',
    searchProcess world writer providerUrl specialistTypes bodyLocation
                  fuel st = Some (outcome, st') ->
    exists started d c,
      trace st' = trace st ++ EvWrite MsgStarting started :: d
                  ++ [EvWriterClose c]
      /\ count isWriterClose d = 0
      /\ count isFailureWrite d + count isCompletionWritten d = 1.
Proof.
  intros world writer providerUrl specialistTypes bodyLocation fuel st
         outcome st' Hrun.
  unfold searchProcess, searchProcessBody in Hrun.
  destruct (write writer MsgStarting st) as [started s1] eqn:Hstart.
  apply call_grow in Hstart; [| reflexivity]. destruct Hstart as [_ ->].
  assert (Hend : forall (body : Result unit) s d,
             trace s = trace st ++ EvWrite MsgStarting started :: d ->
             count isWriterClose d = 0 ->
             count isFailureWrite d = 0 ->
             count isCompletionWritten d
             = match body with Ok _ => 1 | Throw _ => 0 end ->
             (let (handled, s2) :=
                match body with
                | Ok _ => (Ok tt, s)
                | Throw _ => write writer MsgFailed s
                end in
              match call (writerClose writer) EvWriterClose s2 with
              | (Ok _, s3) => Some (handled, s3)
              | (Throw e, s3) => Some (Throw e, s3)
              end) = Some (outcome, st') ->
             exists started d c,
               trace st' = trace st ++ EvWrite MsgStarting started :: d
                           ++ [EvWriterClose c]
               /\ count isWriterClose d = 0
               /\ count isFailureWrite d + count isCompletionWritten d = 1).
  { intros body s d Htrace Hwc Hfw Hcw Hfin.
    destruct body as [[] | e].
    - destruct (call (writerClose writer) EvWriterClose s) as [c s3] eqn:Hc.
      apply call_grow in Hc; [| reflexivity]. destruct Hc as [_ ->].
      exists started, d, c.
      assert (st' = grow s [EvWriterClose c])
        by (destruct c as [[] | e]; inversion Hfin; reflexivity).
      subst st'. cbn [grow trace]. rewrite Htrace, <- app_assoc.
      split; [reflexivity |]. split; [exact Hwc | lia].
    - destruct (write writer MsgFailed s) as [handled s2] eqn:Hw.
      apply call_grow in Hw; [| reflexivity]. destruct Hw as [_ ->].
      destruct (call (writerClose writer) EvWriterClose _) as [c s3] eqn:Hc.
      apply call_grow in Hc; [| reflexivity]. destruct Hc as [_ ->].
      exists started, (d ++ [EvWrite MsgFailed handled]), c.
      assert (st' = grow (grow s [EvWrite MsgFailed handled])
                         [EvWriterClose c])
        by (destruct c as [[] | e']; inversion Hfin; reflexivity).
      subst st'. cbn [grow trace]. rewrite Htrace, <- !app_assoc.
      split; [reflexivity |].
      rewrite !count_app, Hwc, Hfw, Hcw. split; reflexivity. }
  destruct started as [[] | e0].
  2:{ refine (Hend (Throw e0) _ [] _ _ _ _ Hrun); reflexivity. }
  destruct (init world _) as [[[] | ei] s2] eqn:Hinit;
    destruct (init_inv _ _ Hinit) as (r0 & ->).
  2:{ refine (Hend (Throw ei) _ [EvStagehandInit r0] _ _ _ _ Hrun);
        try reflexivity.
      cbn [grow trace newWebAgent]. rewrite <- app_assoc. reflexivity. }
  destruct (executeSearch world _ fuel _) as [[[results | es] s3] |] eqn:Hsearch;
    [| | discriminate];
    destruct (executeSearch_quiet _ _ _ _ Hsearch)
      as (dS & HtS & HwcS & HfwS & HcwS);
    cbn [grow trace newWebAgent] in HtS.
  - destruct (write writer (MsgComplete results) s3) as [w s4] eqn:Hw.
    apply call_grow in Hw; [| reflexivity]. destruct Hw as [_ ->].
    refine (Hend w _ (EvStagehandInit r0 :: dS
                        ++ [EvWrite (MsgComplete results) w]) _ _ _ _ Hrun).
    + cbn [grow trace]. rewrite HtS, <- !app_assoc. reflexivity.
    + rewrite count_cons, count_app, HwcS. reflexivity.
    + rewrite count_cons, count_app, HfwS. reflexivity.
    + rewrite count_cons, count_app, HcwS. destruct w as [[] | e]; reflexivity.
  - refine (Hend (Throw es) _ (EvStagehandInit r0 :: dS) _ _ _ _ Hrun).
    + rewrite HtS, <- !app_assoc. reflexivity.
    + rewrite count_cons, HwcS. reflexivity.
    + rewrite count_cons, HfwS. reflexivity.
    + rewrite count_cons, HcwS. reflexivity.
Qed.

Lemma searchProcess_terminal_message_witness :
  exists started d c,
    trace (finalStateOf
             (searchProcess Scenario.calm Scenario.steadyWriter Scenario.url
                            ["Cardiologist"] Scenario.here 5 initialState))
    = trace initialState ++ EvWrite MsgStarting started :: d
      ++ [EvWriterClose c]
    /\ count isWriterClose d = 0
    /\ count isFailureWrite d + count isCompletionWritten d = 1.
Proof.
  apply (@searchProcess_terminal_message Scenario.calm Scenario.steadyWriter
           Scenario.url ["Cardiologist"] Scenario.here 5 initialState
           (Ok tt)).
  vm_compute. reflexivity.
Defined.

End ProcessFacts.

(** ** The socket service *)

Module SocketFacts.
Import Socket.

Lemma closedIds_app l1 l2 : closedIds (l1 ++ l2) = closedIds l1 ++ closedIds l2.
Proof.
  induction l1 as [| e l1 IH]; [reflexivity |].
  destruct e; cbn [app closedIds]; rewrite IH; reflexivity.
Qed.

Lemma opened_app l1 l2 : opened (l1 ++ l2) = opened l1 + opened l2.
Proof. unfold opened. rewrite filter_app, List.length_app. reflexivity. Qed.

(** X18.  A second [disconnect] does nothing: neither to the service nor
    to the sockets. *)
Theorem disconnect_idempotent :
  forall s log,
    disconnect (fst (disconnect s log)) (snd (disconnect s log))
    = disconnect s log.
Proof.
  intros [[id |] u] log; reflexivity.
Qed.



Lemma fresh_sound env : Sound (construct env, []).
Proof.
  split; cbn [fst snd construct ws closedIds].
  - discriminate.
  - constructor.
  - intros id [].
Qed.


Lemma step_leaked accepts op state id :
  id < opened (snd state) ->
  ws (fst state) <> Some id ->
  ~ In id (closedIds (snd state)) ->
  let state' := step accepts op state in
  id < opened (snd state')
  /\ ws (fst state') <> Some id
  /\ ~ In id (closedIds (snd state')).
Proof.
  destruct state as [s log]. cbn [fst snd]. intros Hlt Hws Hnot.
  destruct op; cbn [step fst snd].
  - unfold connect. destruct (accepts (url s)); cbn [fst snd ws]; [| auto].
    rewrite opened_app, closedIds_app. cbn [closedIds]. rewrite app_nil_r.
    split; [lia |]. split; [| exact Hnot].
    intros Heq. inversion Heq. lia.
  - unfold disconnect. destruct (ws s) as [held |] eqn:Hheld;
      cbn [fst snd ws]; [| rewrite Hheld; auto].
    rewrite opened_app, closedIds_app. cbn [closedIds].
    split; [lia |]. split; [discriminate |].
    intros Hin. apply in_app_or in Hin. destruct Hin as [Hin | [Heq | []]].
    + contradiction.
    + apply Hws. rewrite Heq. reflexivity.
Qed.

(** X20.  [connect] does not close the socket the service holds: after a
    second [connect], the first socket is out of reach, and no later call
    closes it. *)
Theorem second_connect_leaks :
  forall accepts s log first s1 log1 second s2 log2 ops,
    Sound (s, log) ->
    connect accepts s log = (Ok first, s1, log1) ->
    connect accepts s1 log1 = (Ok second, s2, log2) ->
    first <> second
    /\ In (Opened first (url s)) (snd (run accepts ops (s2, log2)))
    /\ ~ In first (closedIds (snd (run accepts ops (s2, log2)))).
Proof.
  intros accepts s log first s1 log1 second s2 log2 ops Hsound H1 H2.
  unfold connect in H1. destruct (accepts (url s)); [| discriminate].
  inversion H1; subst first s1 log1. clear H1.
  unfold connect in H2. cbn [url] in H2.
  destruct (accepts (url s)); [| discriminate].
  inversion H2; subst second s2 log2. clear H2.
  rewrite opened_app. cbn [opened filter isOpened List.length].
  split; [lia |].
  assert (Hstart :
            opened log < opened (log ++ [Opened (opened log) (url s)]
                                     ++ [Opened (opened log + 1) (url s)])
            /\ Some (opened log + 1) <> Some (opened log)
            /\ ~ In (opened log)
                 (closedIds (log ++ [Opened (opened log) (url s)]
                                 ++ [Opened (opened log + 1) (url s)]))).
  { rewrite opened_app, closedIds_app. cbn [opened filter isOpened
                                              List.length closedIds app].
    rewrite app_nil_r. split; [lia |]. split.
    - intros Heq. inversion Heq. lia.
    - intros Hin. apply (sound_opened Hsound) in Hin. cbn [snd] in Hin. lia. }
  rewrite <- app_assoc.
  remember (mkService (Some (opened log + 1)) (url s),
            log ++ [Opened (opened log) (url s)]
                ++ [Opened (opened log + 1) (url s)]) as state eqn:Hstate.
  assert (Hinv : opened log < opened (snd state)
                 /\ ws (fst state) <> Some (opened log)
                 /\ ~ In (opened log) (closedIds (snd state))
                 /\ In (Opened (opened log) (url s)) (snd state)).
  { subst state. cbn [fst snd ws].
    destruct Hstart as (Ha & Hb & Hc). repeat split; try assumption.
    apply in_or_app. right. left. reflexivity. }
  clear Hstate Hstart. revert state Hinv.
  induction ops as [| op ops IH]; intros state (Ha & Hb & Hc & Hd).
  - split; assumption.
  - cbn [run fold_left]. apply IH.
    destruct (step_leaked accepts op state Ha Hb Hc) as (Ha' & Hb' & Hc').
    repeat split; try assumption.
    destruct state as [s0 log0]. destruct op; cbn [step fst snd] in *.
    + unfold connect. destruct (accepts (url s0)); cbn [snd]; [| exact Hd].
      apply in_or_app. left. exact Hd.
    + unfold disconnect. destruct (ws s0); cbn [snd]; [| exact Hd].
      apply in_or_app. left. exact Hd.
Qed.

Lemma second_connect_leaks_witness :
  0 <> 1
  /\ In (Opened 0 defaultUrl)
        (snd (run (fun _ => true) [Disconnect; Connect; Disconnect]
                  (mkService (Some 1) defaultUrl,
                   [Opened 0 defaultUrl; Opened 1 defaultUrl])))
  /\ ~ In 0 (closedIds
               (snd (run (fun _ => true) [Disconnect; Connect; Disconnect]
                         (mkService (Some 1) defaultUrl,
                          [Opened 0 defaultUrl; Opened 1 defaultUrl])))).
Proof.
  apply (@second_connect_leaks (fun _ => true) (construct None) [] 0
           (mkService (Some 0) defaultUrl) [Opened 0 defaultUrl] 1
           (mkService (Some 1) defaultUrl)
           [Opened 0 defaultUrl; Opened 1 defaultUrl]
           [Disconnect; Connect; Disconnect]).
  - apply fresh_sound.
  - reflexivity.
  - reflexivity.
Defined.

End SocketFacts.

(** ** The provider finder *)

Module FindProviderFacts.
Import FindProvider.

(** Reading back a field after [{ ...fields, key: value }]: the key holds
    the value, every other key holds what it held. *)
Lemma lookup_setField :
  forall key value fields other,
    Js.lookup other (setField key value fields)
    = if String.eqb key other then value else Js.lookup other fields.
Proof.
  intros key value fields other.
  induction fields as [| [k v] rest IH]; cbn [setField Js.lookup].
  - destruct (String.eqb key other); reflexivity.
  - destruct (String.eqb k key) eqn:Hk; cbn [Js.lookup].
    + apply String.eqb_eq in Hk. subst k.
      destruct (String.eqb key other); reflexivity.
    + destruct (String.eqb k other) eqn:Hko; [| exact IH].
      apply String.eqb_eq in Hko. subst k.
      rewrite String.eqb_sym, Hk. reflexivity.
Qed.

Lemma destructure_ok body key value :
  Js.getProp body key = Ok value -> destructure body key = Ok value.
Proof. destruct body; cbn; intros H; first [discriminate | exact H]. Qed.

Lemma validateAll_calls services providers :
  forall index,
    fst (validateAll services index providers)
    = map ValidatePost (phones providers).
Proof.
  induction providers as [| provider rest IH]; intros index; [reflexivity |].
  cbn [validateAll phones]. unfold validateOne.
  specialize (IH (S index)).
  destruct (validateAll services (S index) rest) as [calls' others].
  cbn [fst] in IH. subst calls'.
  destruct (Js.getProp provider "phone"); reflexivity.
Qed.

(** X21.  The requests the handler makes do not depend on what the
    validator answers: once the agent has answered with a list of
    providers, one validation request is made per provider that is not
    [null], in the order of the providers, even when an earlier validation
    fails. *)
Theorem handler_calls :
  forall services body clinicalHelp insuranceInfo data providers,
    Js.getProp body "clinicalHelp" = Ok clinicalHelp ->
    Js.getProp body "insuranceInfo" = Ok insuranceInfo ->
    agent services clinicalHelp insuranceInfo = Ok data ->
    Js.getProp data "providers" = Ok (Js.Array providers) ->
    exists reply,
      handler services "POST" body
      = Ok (reply,
            AgentPost clinicalHelp insuranceInfo
            :: map ValidatePost (phones providers)).
Proof.
  intros services body help info data providers Hhelp Hinfo Hagent Hproviders.
  unfold handler. cbn [String.eqb Ascii.eqb Bool.eqb negb].
  rewrite (@destructure_ok _ _ _ Hhelp), (@destructure_ok _ _ _ Hinfo). cbn [bindResult].
  unfold findProviders. rewrite Hagent, Hproviders.
  pose proof (validateAll_calls services providers 0) as Hcalls.
  destruct (validateAll services 0 providers) as [made settled].
  cbn [fst] in Hcalls. subst made.
  destruct settled; eexists; reflexivity.
Qed.

Lemma handler_calls_witness :
  exists reply,
    handler picky "POST" (Js.Object [])
    = Ok (reply,
          [ AgentPost Js.Undefined Js.Undefined;
            ValidatePost (Js.Str "555-0100");
            ValidatePost (Js.Str "555-0101") ]).
Proof.
  exact (@handler_calls picky (Js.Object []) Js.Undefined Js.Undefined
           twoProviders _ eq_refl eq_refl eq_refl eq_refl).
Defined.

Lemma validateAll_ok services providers :
  forall index validated,
    snd (validateAll services index providers) = Ok validated ->
    List.length validated = List.length providers
    /\ forall k provider,
         nth_error providers k = Some provider ->
         exists phone data valid,
           Js.getProp provider "phone" = Ok phone
           /\ validator services (index + k) phone = Ok data
           /\ Js.getProp data "valid" = Ok valid
           /\ nth_error validated k
              = Some (Js.Object (setField "phoneValid" valid
                                          (spread provider))).
Proof.
  induction providers as [| provider rest IH]; intros index validated H.
  - inversion H. split; [reflexivity |]. intros [| k] p Hk; discriminate.
  - cbn [validateAll] in H. unfold validateOne in H.
    specialize (IH (S index)).
    destruct (validateAll services (S index) rest) as [calls' others].
    cbn [snd] in IH.
    destruct (Js.getProp provider "phone") as [phone | e] eqn:Hphone;
      cbn [snd bindResult] in H; [| discriminate].
    destruct (validator services index phone) as [data | e] eqn:Hdata;
      cbn [bindResult] in H; [| discriminate].
    destruct (Js.getProp data "valid") as [valid | e] eqn:Hvalid;
      cbn [bindResult] in H; [| discriminate].
    destruct others as [following | e]; cbn [bindResult] in H;
      [| discriminate].
    inversion H; subst validated. clear H.
    destruct (IH following eq_refl) as [Hlen Hnth].
    split; [cbn [List.length]; rewrite Hlen; reflexivity |].
    intros [| k] p Hk; cbn [nth_error] in *.
    + inversion Hk; subst p. exists phone, data, valid.
      rewrite Nat.add_0_r. auto.
    + destruct (Hnth k p Hk) as (ph & da & va & H1 & H2 & H3 & H4).
      exists ph, da, va. rewrite <- Nat.add_succ_comm. auto.
Qed.

(** X22.  A reply of status 200 lists exactly the providers the agent
    found, in their order, each with the [valid] answer of its own
    validation under [phoneValid] and its other fields as they were. *)
Theorem handler_success :
  forall services method body result calls,
    handler services method body = Ok (Json 200 result, calls) ->
    exists clinicalHelp insuranceInfo data providers validated,
      agent services clinicalHelp insuranceInfo = Ok data
      /\ Js.getProp data "providers" = Ok (Js.Array providers)
      /\ result = Js.Object [("providers", Js.Array validated)]
      /\ List.length validated = List.length providers
      /\ forall k provider,
           nth_error providers k = Some provider ->
           exists phone answer valid entry,
             Js.getProp provider "phone" = Ok phone
             /\ validator services k phone = Ok answer
             /\ Js.getProp answer "valid" = Ok valid
             /\ nth_error validated k = Some (Js.Object entry)
             /\ Js.lookup "phoneValid" entry = valid
             /\ forall key,
                  key <> "phoneValid" ->
                  Js.lookup key entry = Js.lookup key (spread provider).
Proof.
  intros services method body result calls. unfold handler.
  destruct (String.eqb method "POST"); cbn [negb]; [| discriminate].
  destruct (destructure body "clinicalHelp") as [help | e];
    cbn [bindResult]; [| discriminate].
  destruct (destructure body "insuranceInfo") as [info | e];
    cbn [bindResult]; [| discriminate].
  unfold findProviders, internalError. intros H.
  destruct (agent services help info) as [data | e] eqn:Hagent;
    [| discriminate].
  destruct (Js.getProp data "providers") as [[| | | | | providers |] | e]
    eqn:Hproviders; try discriminate.
  pose proof (validateAll_ok services providers 0) as Hok.
  destruct (validateAll services 0 providers) as [made [validated | e]];
    [| discriminate].
  inversion H; subst result calls. clear H.
  destruct (Hok validated eq_refl) as [Hlen Hnth].
  exists help, info, data, providers, validated.
  repeat split; try assumption; try reflexivity.
  intros k provider Hk.
  destruct (Hnth k provider Hk) as (phone & answer & valid & H1 & H2 & H3 & H4).
  exists phone, answer, valid, (setField "phoneValid" valid (spread provider)).
  repeat split; try assumption.
  - rewrite lookup_setField, String.eqb_refl. reflexivity.
  - intros key Hkey. rewrite lookup_setField.
    destruct (String.eqb "phoneValid" key) eqn:Heq; [| reflexivity].
    apply String.eqb_eq in Heq. congruence.
Qed.

Lemma handler_success_witness :
  exists clinicalHelp insuranceInfo data providers validated,
    agent lenient clinicalHelp insuranceInfo = Ok data
    /\ Js.getProp data "providers" = Ok (Js.Array providers)
    /\ Js.Object
         [ ("providers",
            Js.Array [ Js.Object [("name", Js.Str "Dr. Ada");
                                  ("phone", Js.Str "555-0100");
                                  ("phoneValid", Js.Boolean true)];
                       Js.Object [("name", Js.Str "Dr. Bob");
                                  ("phone", Js.Str "555-0101");
                                  ("phoneValid", Js.Boolean true)] ]) ]
       = Js.Object [("providers", Js.Array validated)]
    /\ List.length validated = List.length providers.
Proof.
  destruct (@handler_success lenient "POST" (Js.Object []) _ _ eq_refl)
    as (help & info & data & providers & validated & H1 & H2 & H3 & H4 & _).
  exists help, info, data, providers, validated. auto.
Defined.

(** X23.  The method gates everything: a request that is not a POST is
    answered 405 without any outbound request, whatever its body; a POST
    that is answered has asked the agent first and exactly once,
    everything after it is a validation request, and the answer is either
    the list of providers with status 200 or the fixed error with status
    500. *)
Theorem handler_method :
  forall services method body reply calls,
    handler services method body = Ok (reply, calls) ->
    if String.eqb method "POST"
    then (exists clinicalHelp insuranceInfo rest,
            calls = AgentPost clinicalHelp insuranceInfo :: rest
            /\ forallb isValidatePost rest = true)
         /\ (reply = internalError
             \/ exists providers,
                  reply = Json 200 (Js.Object
                                      [("providers", Js.Array providers)]))
    else reply = Ended 405 /\ calls = [].
Proof.
  intros services method body reply calls. unfold handler.
  destruct (String.eqb method "POST"); cbn [negb].
  2:{ intros H; inversion H. split; reflexivity. }
  destruct (destructure body "clinicalHelp") as [help | e];
    cbn [bindResult]; [| discriminate].
  destruct (destructure body "insuranceInfo") as [info | e];
    cbn [bindResult]; [| discriminate].
  unfold findProviders. intros H.
  assert (Hfew : forall r, (r, [AgentPost help info]) = (reply, calls) ->
                 r = internalError ->
                 (exists clinicalHelp insuranceInfo rest,
                    calls = AgentPost clinicalHelp insuranceInfo :: rest
                    /\ forallb isValidatePost rest = true)
                 /\ (reply = internalError
                     \/ exists providers,
                          reply = Json 200 (Js.Object
                                      [("providers", Js.Array providers)]))).
  { intros r Hr Hi. inversion Hr; subst. split; [| left; reflexivity].
    exists help, info, []. split; reflexivity. }
  destruct (agent services help info) as [data | e];
    [| injection H as H1 H2; exact (Hfew _ (f_equal2 pair H1 H2) eq_refl)].
  destruct (Js.getProp data "providers") as [[| | | | | providers |] | e];
    try (injection H as H1 H2; exact (Hfew _ (f_equal2 pair H1 H2) eq_refl)).
  pose proof (validateAll_calls services providers 0) as Hcalls.
  destruct (validateAll services 0 providers) as [made settled].
  cbn [fst] in Hcalls. subst made.
  assert (Hall : forall items, forallb isValidatePost (map ValidatePost items)
                               = true)
    by (intros items; induction items; [reflexivity | assumption]).
  destruct settled as [validated | e]; inversion H; subst; split.
  - exists help, info, (map ValidatePost (phones providers)).
    split; [reflexivity | apply Hall].
  - right. exists validated. reflexivity.
  - exists help, info, (map ValidatePost (phones providers)).
    split; [reflexivity | apply Hall].
  - left. reflexivity.
Qed.

Lemma handler_method_witness :
  Ended 405 = Ended 405 /\ @nil Call = [].
Proof.
  exact (@handler_method lenient "GET" Js.Null _ _ eq_refl).
Defined.

(** X24.  The only requests left unanswered are the POSTs without a body:
    the destructuring of [req.body] is outside the [try] block, so the
    [TypeError] escapes the handler. *)
Theorem handler_throws_iff :
  forall services method body,
    (exists e, handler services method body = Throw e)
    <-> method = "POST" /\ (body = Js.Undefined \/ body = Js.Null).
Proof.
  intros services method body. unfold handler. split.
  - intros [e H]. destruct (String.eqb method "POST") eqn:Hm;
      cbn [negb] in H; [| discriminate].
    apply String.eqb_eq in Hm. split; [exact Hm |].
    destruct body; auto; cbn in H; discriminate.
  - intros [Hm Hb]. subst method. cbn [String.eqb Ascii.eqb Bool.eqb negb].
    destruct Hb; subst body; eexists; reflexivity.
Qed.

Lemma handler_throws_iff_witness :
  exists e, handler lenient "POST" Js.Null = Throw e.
Proof.
  apply (proj2 (handler_throws_iff lenient "POST" Js.Null)).
  split; [reflexivity | right; reflexivity].
Defined.

(** A string among the providers is spread by code unit: a character of
    two bytes is one property, a character beyond the basic plane is the
    two properties of its surrogates. *)
Example spread_code_units :
  spread (Js.Str (String "097" (String "195" (String "169" EmptyString))))
  = [ ("0", Js.Str "a");
      ("1", Js.Str (String "195" (String "169" EmptyString))) ]
  /\ spread (Js.Str (String "240" (String "159" (String "152"
                                                   (String "128" EmptyString)))))
     = [ ("0", Js.Str (String "237" (String "160" (String "189" EmptyString))));
         ("1", Js.Str (String "237" (String "184" (String "128" EmptyString)))) ].
Proof. split; reflexivity. Qed.

(** One failed validation fails the whole request with status 500,
    although every validation request was made. *)
Example picky_fails :
  handler picky "POST" (Js.Object [])
  = Ok (internalError,
        [ AgentPost Js.Undefined Js.Undefined;
          ValidatePost (Js.Str "555-0100"); ValidatePost (Js.Str "555-0101") ]).
Proof. reflexivity. Qed.

End FindProviderFacts.

(** ** The search page *)

Module ClientFacts.
Import Route Post Client.

Lemma string_pair_ind (P : string -> Prop) :
  P EmptyString ->
  (forall c, P (String c EmptyString)) ->
  (forall c c' rest,
     P rest -> P (String c' rest) -> P (String c (String c' rest))) ->
  forall s, P s.
Proof.
  intros Hempty Hone Hstep s.
  assert (H : P s /\ forall c, P (String c s)).
  { induction s as [| c' rest [IH1 IH2]].
    - split; [exact Hempty | exact Hone].
    - split; [apply IH2 |]. intros c. apply Hstep; [exact IH1 | apply IH2]. }
  exact (proj1 H).
Qed.

Lemma splitBlank_step c c' rest :
  splitBlank (String c (String c' rest))
  = if Ascii.eqb c newline && Ascii.eqb c' newline
    then EmptyString :: splitBlank rest
    else consHead c (splitBlank (String c' rest)).
Proof. reflexivity. Qed.

Lemma splitBlank_nonempty s : splitBlank s <> [].
Proof.
  induction s as [| c | c c' rest IH1 IH2] using string_pair_ind;
    try discriminate.
  rewrite splitBlank_step.
  destruct (Ascii.eqb c newline && Ascii.eqb c' newline); [discriminate |].
  unfold consHead. destruct (splitBlank (String c' rest)); discriminate.
Qed.

Lemma join_consHead separator c pieces :
  pieces <> [] ->
  Js.join separator (consHead c pieces)
  = String c (Js.join separator pieces).
Proof.
  destruct pieces as [| piece [| next more]]; intros H;
    [congruence | reflexivity | reflexivity].
Qed.

(** Joining the pieces with blank lines gives the text back. *)
Lemma join_splitBlank s : Js.join blankLine (splitBlank s) = s.
Proof.
  induction s as [| c | c c' rest IH1 IH2] using string_pair_ind;
    try reflexivity.
  rewrite splitBlank_step.
  destruct (Ascii.eqb c newline && Ascii.eqb c' newline) eqn:Hsep.
  - apply andb_true_iff in Hsep. destruct Hsep as [Hc Hc'].
    apply Ascii.eqb_eq in Hc, Hc'. subst c c'.
    pose proof (splitBlank_nonempty rest) as Hne.
    destruct (splitBlank rest) as [| piece more]; [congruence |].
    rewrite join_cons, IH1. reflexivity.
  - rewrite join_consHead by apply splitBlank_nonempty.
    rewrite IH2. reflexivity.
Qed.

Lemma splitBlank_single s piece : splitBlank s = [piece] -> piece = s.
Proof.
  intros H. rewrite <- (join_splitBlank s), H. reflexivity.
Qed.

Lemma removelast_consHead c pieces :
  pieces <> [] ->
  removelast (consHead c pieces)
  = match removelast pieces with
    | [] => []
    | kept => consHead c kept
    end.
Proof.
  destruct pieces as [| piece [| next more]]; intros H;
    [congruence | reflexivity | reflexivity].
Qed.

(** Splitting a text that arrives in two parts: the pieces completed by
    the first part, then the pieces of what the first part left open
    followed by the second part. *)
Lemma splitBlank_app u :
  forall v,
    splitBlank (u ++ v)
    = removelast (splitBlank u)
      ++ splitBlank (last (splitBlank u) EmptyString ++ v).
Proof.
  induction u as [| c | c c' rest IH1 IH2] using string_pair_ind; intros v.
  - reflexivity.
  - reflexivity.
  - change (String c (String c' rest) ++ v)%string
      with (String c (String c' (rest ++ v))).
    rewrite !splitBlank_step.
    destruct (Ascii.eqb c newline && Ascii.eqb c' newline) eqn:Hsep.
    + rewrite IH1.
      pose proof (splitBlank_nonempty rest) as Hne.
      destruct (splitBlank rest) as [| piece more]; [congruence |].
      reflexivity.
    + change (String c' (rest ++ v)) with (String c' rest ++ v)%string.
      rewrite IH2.
      pose proof (splitBlank_nonempty (String c' rest)) as Hne.
      destruct (splitBlank (String c' rest)) as [| piece [| next more]] eqn:Hs;
        [congruence | |].
      * apply splitBlank_single in Hs. subst piece.
        cbn [removelast last app consHead].
        change (String c (String c' rest) ++ v)%string
          with (String c (String c' (rest ++ v))).
        rewrite splitBlank_step, Hsep. reflexivity.
      * reflexivity.
Qed.

Lemma includes_blank_step c c' rest :
  Js.includes (String c (String c' rest)) blankLine
  = (Ascii.eqb c newline && Ascii.eqb c' newline)
    || Js.includes (String c' rest) blankLine.
Proof.
  cbn [Js.includes Js.startsWith blankLine].
  rewrite andb_true_r, (Ascii.eqb_sym newline c), (Ascii.eqb_sym newline c').
  reflexivity.
Qed.

Lemma splitBlank_unframed s :
  Js.includes s blankLine = false -> splitBlank s = [s].
Proof.
  induction s as [| c | c c' rest IH1 IH2] using string_pair_ind; intros H;
    try reflexivity.
  rewrite includes_blank_step in H. apply orb_false_iff in H.
  destruct H as [Hsep Hrest].
  rewrite splitBlank_step, Hsep, (IH2 Hrest). reflexivity.
Qed.

Lemma removelast_nonempty_app (A : Type) (l l' : list A) :
  l' <> [] -> removelast (l ++ l') = l ++ removelast l'.
Proof. intros H. apply removelast_app. exact H. Qed.

Lemma last_nonempty_app (A : Type) (l l' : list A) (d : A) :
  l' <> [] -> last (l ++ l') d = last l' d.
Proof.
  intros H. induction l as [| x l IH]; [reflexivity |].
  cbn [app last]. destruct (l ++ l') eqn:Happ; [| exact IH].
  apply app_eq_nil in Happ. destruct Happ. congruence.
Qed.

Section ReaderFacts.

Variable parse : string -> Result Js.Value.
Variable numberToString : spec_float -> string.

Lemma readLoop_from u chunks :
  forall page,
    readLoop parse numberToString (last (splitBlank u) EmptyString) chunks
             (fold_left (processLine parse numberToString)
                        (removelast (splitBlank u)) page)
    = (fold_left (processLine parse numberToString)
                 (removelast (splitBlank (u ++ text chunks))) page,
       last (splitBlank (u ++ text chunks)) EmptyString).
Proof.
  revert u. induction chunks as [| chunk rest IH]; intros u page.
  - cbn [text]. rewrite append_empty_r. reflexivity.
  - cbn [readLoop text].
    rewrite <- fold_left_app.
    pose proof (splitBlank_nonempty (last (splitBlank u) EmptyString ++ chunk))
      as Hne.
    rewrite <- removelast_nonempty_app by exact Hne.
    rewrite <- (last_nonempty_app (removelast (splitBlank u)) EmptyString Hne).
    rewrite <- splitBlank_app.
    rewrite IH, append_assoc. reflexivity.
Qed.

(** X25.  However the network cuts the stream into chunks, the page
    processes the pieces of the whole text that are closed by a blank
    line, in order; what follows the last blank line stays in the buffer
    and is never processed, also when the stream ends. *)
Theorem readLoop_chunking :
  forall chunks page,
    readLoop parse numberToString EmptyString chunks page
    = (fold_left (processLine parse numberToString)
                 (removelast (splitBlank (text chunks))) page,
       last (splitBlank (text chunks)) EmptyString).
Proof.
  intros chunks page. exact (readLoop_from EmptyString chunks page).
Qed.

(** X26.  Of the messages of the search process the page shows the
    progress only: the starting message and every action with a text are
    appended to the list of actions; the completion message sets no
    specialist type, because the results it carries have providers and no
    [specialists], and the failure message sets no error, because the
    exception made from it is caught around the parsing. *)
Theorem processLine_server_message :
  forall line m page,
    Js.startsWith line "data: " = true ->
    parse (slice 6 line) = Ok (encodeMessage m) ->
    processLine parse numberToString page line
    = mkPage (actions page ++ shown m) (specialistType page) (error page)
             (isLoading page).
Proof.
  intros line m [acts specialist err loading] Hprefix Hparse.
  unfold processLine. rewrite Hprefix, Hparse. cbn [bindResult].
  destruct m as [| action | results |]; unfold processData;
    cbn [encodeMessage Js.getProp Js.lookup String.eqb Ascii.eqb Bool.eqb
         bindResult Js.truthy negb shown actions specialistType error
         isLoading].
  - reflexivity.
  - destruct (String.eqb action "") eqn:Haction; cbn [negb];
      [rewrite app_nil_r |]; reflexivity.
  - unfold encodeResults.
    cbn [Js.getProp Js.lookup String.eqb Ascii.eqb Bool.eqb bindResult].
    rewrite app_nil_r. reflexivity.
  - rewrite app_nil_r. reflexivity.
Qed.

(** X27.  A response whose text holds no blank line, as the JSON answers
    of the route do, changes nothing on the page: no action, no specialist
    type and no error are shown, and the search is over. *)
Theorem handleSearch_unframed_response :
  forall fetch searchQuery selectedProvider place page chunks,
    fetch (requestBody searchQuery selectedProvider place)
    = Ok (Body chunks None) ->
    Js.includes (text chunks) blankLine = false ->
    handleSearch parse numberToString fetch searchQuery selectedProvider
                 (Some place) page
    = (mkPage [] EmptyString None false,
       Some (requestBody searchQuery selectedProvider place)).
Proof.
  intros fetch q p place page chunks Hfetch Hplain.
  pose proof (readLoop_from EmptyString chunks
                (mkPage [] EmptyString None true)) as Hloop.
  cbn [splitBlank last removelast fold_left append] in Hloop.
  unfold handleSearch. rewrite Hfetch, Hloop.
  rewrite (splitBlank_unframed _ Hplain). reflexivity.
Qed.

End ReaderFacts.

Lemma processLine_server_message_witness :
  processLine (fun _ => Ok (encodeMessage MsgFailed)) (fun _ => "0")
              (mkPage [] "" None true) "data: x"
  = mkPage [] "" None true.
Proof.
  exact (@processLine_server_message
           (fun _ => Ok (encodeMessage MsgFailed)) (fun _ => "0"%string)
           "data: x" MsgFailed (mkPage [] "" None true) eq_refl eq_refl).
Defined.

Lemma handleSearch_unframed_response_witness :
  handleSearch (fun _ => Ok Js.Null) (fun _ => "0")
               (fun _ => Ok (Body ["{"; "}"] None)) "my knee hurts" "aetna"
               (Some (mkLocation (S754_zero false) (S754_zero false)
                                 (Some "1 Main Street")))
               (mkPage [] "" None false)
  = (mkPage [] "" None false,
     Some (requestBody "my knee hurts" "aetna"
             (mkLocation (S754_zero false) (S754_zero false)
                         (Some "1 Main Street")))).
Proof.
  exact (@handleSearch_unframed_response
           (fun _ => Ok Js.Null) (fun _ => "0"%string)
           (fun _ => Ok (Body ["{"%string; "}"%string] None))
           "my knee hurts" "aetna"
           (mkLocation (S754_zero false) (S754_zero false)
                       (Some "1 Main Street"%string))
           (mkPage [] "" None false) ["{"%string; "}"%string]
           eq_refl eq_refl).
Defined.

(** What the validator of the route makes of the body the page posts. *)
Lemma validateRequest_requestBody searchQuery selectedProvider place :
  validateRequest (requestBody searchQuery selectedProvider place)
  = Ok (if String.eqb searchQuery "" || String.eqb selectedProvider ""
        then mkValidation false (Some missingFields)
        else if negb (usable (lat place)) || negb (usable (lng place))
                || negb (filled (address place))
        then mkValidation false (Some invalidLocation)
        else if negb (isProviderKey (Js.Str selectedProvider))
        then mkValidation false (Some invalidProvider)
        else mkValidation true None).
Proof.
  destruct place as [la ln ad]. unfold validateRequest, requestBody.
  cbn [Js.getProp Js.lookup String.eqb Ascii.eqb Bool.eqb bindResult
       Js.truthy Client.lat Client.lng Client.address].
  destruct (String.eqb searchQuery ""); cbn [negb orb]; [reflexivity |].
  destruct (String.eqb selectedProvider ""); cbn [negb orb]; [reflexivity |].
  destruct la; cbn [jsonNumber Js.truthy usable negb orb bindResult];
    try reflexivity.
  destruct ln; cbn [jsonNumber Js.truthy usable negb orb bindResult];
    try reflexivity.
  destruct ad as [value |];
    cbn [app Js.lookup String.eqb Ascii.eqb Bool.eqb Js.truthy filled
         bindResult negb].
  - destruct (String.eqb value ""); cbn [negb]; [reflexivity |].
    destruct (isProviderKey (Js.Str selectedProvider)); reflexivity.
  - reflexivity.
Qed.

(** X28.  The route accepts a search of the page exactly when the query is
    not empty, the provider is one of the table, both coordinates are
    finite and not zero, and the address is there and not empty. *)
Theorem page_request_accepted_iff :
  forall searchQuery selectedProvider place,
    validateRequest (requestBody searchQuery selectedProvider place)
    = Ok (mkValidation true None)
    <-> searchQuery <> ""
        /\ (exists directory, providerUrlOf selectedProvider = Some directory)
        /\ usable (lat place) = true
        /\ usable (lng place) = true
        /\ exists value, address place = Some value /\ value <> "".
Proof.
  intros q p place. rewrite validateRequest_requestBody. split.
  - intros H.
    destruct (String.eqb q "") eqn:Hq; cbn [orb] in H; [discriminate |].
    destruct (String.eqb p "") eqn:Hp; cbn [orb] in H; [discriminate |].
    destruct (usable (lat place)); cbn [negb orb] in H; [| discriminate].
    destruct (usable (lng place)); cbn [negb orb] in H; [| discriminate].
    destruct (address place) as [value |] eqn:Ha; cbn [filled negb] in H;
      [| discriminate].
    destruct (String.eqb value "") eqn:Hv; cbn [negb] in H; [discriminate |].
    destruct (isProviderKey (Js.Str p)) eqn:Hkey; cbn [negb] in H;
      [| discriminate].
    apply String.eqb_neq in Hq, Hv.
    destruct (PostFacts.isProviderKey_inv _ Hkey)
      as (key & directory & Hstr & Hurl & _).
    inversion Hstr; subst key.
    repeat split; eauto.
  - intros (Hq & [directory Hurl] & Hlat & Hlng & value & Ha & Hv).
    apply String.eqb_neq in Hq, Hv.
    assert (Hp : String.eqb p "" = false).
    { apply String.eqb_neq. intros ->. discriminate Hurl. }
    assert (Hkey : isProviderKey (Js.Str p) = true).
    { unfold providerUrlOf, PROVIDER_URLS in Hurl. cbn [urlIn] in Hurl.
      cbn [isProviderKey PROVIDER_URLS map fst existsb].
      rewrite !(String.eqb_sym p).
      repeat (destruct (String.eqb _ p); [reflexivity |]).
      discriminate Hurl. }
    rewrite Hq, Hp, Hlat, Hlng, Ha, Hkey. cbn [filled]. rewrite Hv.
    reflexivity.
Qed.

Lemma page_request_accepted_iff_witness :
  validateRequest
    (requestBody "my knee hurts" "aetna"
       (mkLocation (S754_finite false 3 2) (S754_finite true 5 4)
                   (Some "1 Main Street")))
  = Ok (mkValidation true None).
Proof.
  apply (proj2 (page_request_accepted_iff "my knee hurts" "aetna"
                  (mkLocation (S754_finite false 3 2) (S754_finite true 5 4)
                              (Some "1 Main Street"%string)))).
  split; [discriminate |].
  split; [eexists; reflexivity |].
  split; [reflexivity |].
  split; [reflexivity |].
  eexists. split; [reflexivity | discriminate].
Defined.

Lemma typed_from start values :
  (forall place, start = Some place ->
                 lat place = S754_zero false /\ lng place = S754_zero false) ->
  forall place,
    fold_left (fun location value => handleAddressInput value location)
              values start = Some place ->
    lat place = S754_zero false /\ lng place = S754_zero false.
Proof.
  revert start. induction values as [| value rest IH]; intros start Hstart.
  - exact Hstart.
  - cbn [fold_left]. apply IH. intros place Hplace.
    destruct start as [previous |]; cbn [handleAddressInput] in Hplace;
      inversion Hplace; cbn [lat lng]; [| split; reflexivity].
    apply Hstart. reflexivity.
Qed.

(** X29.  A location that was only typed has the coordinates (0, 0), which
    the validator takes for missing: a search from a page whose location
    was never set otherwise is always answered with status 400, whatever
    was typed. *)
Theorem typed_location_rejected :
  forall values place searchQuery selectedProvider chat env,
    typed values = Some place ->
    exists reason,
      POST (Ok (requestBody searchQuery selectedProvider place)) chat env
      = JsonError 400 (Some reason)
      /\ (reason = missingFields \/ reason = invalidLocation).
Proof.
  intros values place q p chat env Htyped.
  destruct (@typed_from None values) with (place := place) as [Hlat Hlng];
    [discriminate | exact Htyped |].
  unfold POST, handle. cbn [bindResult].
  rewrite validateRequest_requestBody, Hlat. cbn [bindResult usable negb orb].
  destruct (String.eqb q "" || String.eqb p "");
    cbn [isValid negb Route.error]; eexists; split; try reflexivity; auto.
Qed.

Lemma typed_location_rejected_witness :
  exists reason,
    POST (Ok (requestBody "my knee hurts" "aetna"
                (mkLocation (S754_zero false) (S754_zero false)
                            (Some "1 Main Street"))))
         (fun _ => Ok (Some "Orthopedist")) credentials
    = JsonError 400 (Some reason)
    /\ (reason = missingFields \/ reason = invalidLocation).
Proof.
  exact (@typed_location_rejected
           ["1 Main"%string; "1 Main Street"%string] _ "my knee hurts" "aetna"
           (fun _ => Ok (Some "Orthopedist"%string)) credentials eq_refl).
Defined.

End ClientFacts.
